(** * RA8875 display driver: GIF decoder and resistive touch pipeline

    A shallow embedding of the two algorithmic cores of the driver:

    - [GraphicsDisplayGIF.cpp]: the LZW decompressor [uncompress_gif], the
      sub-block reader, the extension handler and the block loop of
      [_RenderGIF];
    - [RA8875_Touch.cpp]: the sample filter [TouchPanelA2DFiltered] with its
      [InsertionSort], the staleness ticker [_TouchTicker], the calibration
      solver [TouchPanelComputeCalibration], the runtime
      [TouchPanelReadable] and the per-channel accessors.

    Around them it covers the raw sampler [TouchPanelA2DRaw], the matrix
    accessors, the interrupt routine [TouchPanelISR] with the readers of
    the two capacitive controllers ([RA8875_Touch_FT5206.cpp],
    [RA8875_Touch_GSL1680.cpp]), and of the GIF code the color table
    reader, the renderer of a fragment, [GetGIFMetrics] and
    [RenderGIFFile].

    Machine integers are integers of [Z] with the two's complement
    wrap-around of the target written out ([to_int32], [to_int16],
    [to_uint8]).  Arrays are lists read with [!!] and written with
    [<[ i := v ]>].  An access that the C code would perform outside the
    dictionary, the input, the pixel buffer, a color table, the sample
    buffers or [touchInfo] is reported as undefined behaviour ([Undefined]
    for the decoder, [None] for the touch code).  Allocation ([malloc],
    [realloc]) is taken to succeed. *)

From Stdlib Require Import ZArith Lia List Sorted Permutation.
From stdpp Require Import base option list sorting.

Open Scope Z_scope.

(** ** Machine integers *)

(** Two's complement reading of the low [w] bits of [z]. *)
Definition wrap (w : Z) (z : Z) : Z := (z + 2 ^ (w - 1)) mod 2 ^ w - 2 ^ (w - 1).

Definition to_int32 (z : Z) : Z := wrap 32 z.
Definition to_int16 (z : Z) : Z := wrap 16 z.
Definition to_uint8 (z : Z) : Z := z mod 256.

Definition in_int32 (z : Z) : Prop := - 2 ^ 31 <= z < 2 ^ 31.
Definition in_int16 (z : Z) : Prop := - 2 ^ 15 <= z < 2 ^ 15.

(** ** Return codes shared by both subsystems ([DisplayDefs.h]) *)

Inductive RetCode_t : Set :=
| noerror
| bad_parameter
| file_not_found
| not_bmp_format
| not_ico_format
| not_supported_format
| image_too_big
| not_enough_ram
| touch_cal_timeout
| external_abort.

Inductive TouchCode_t : Set :=
| no_touch
| touch
| held
| release
| no_cal.

Definition RetCode_eqb (a b : RetCode_t) : bool :=
  match a, b with
  | noerror, noerror | bad_parameter, bad_parameter
  | file_not_found, file_not_found | not_bmp_format, not_bmp_format
  | not_ico_format, not_ico_format
  | not_supported_format, not_supported_format
  | image_too_big, image_too_big | not_enough_ram, not_enough_ram
  | touch_cal_timeout, touch_cal_timeout
  | external_abort, external_abort => true
  | _, _ => false
  end.

Definition TouchCode_eqb (a b : TouchCode_t) : bool :=
  match a, b with
  | no_touch, no_touch | touch, touch | held, held
  | release, release | no_cal, no_cal => true
  | _, _ => false
  end.

(** ** Touch panel: data ([DisplayDefs.h], [RA8875.h]) *)

(** [loc_t] is [int16_t]; a [point_t] holds two of them. *)
Record point_t : Set := mkPoint { x : Z; y : Z }.

(** Seven [int32_t] fields, in the order of the persisted layout. *)
Record tpMatrix_t : Set := mkMatrix {
  An : Z; Bn : Z; Cn : Z; Dn : Z; En : Z; Fn : Z; Divider : Z
}.

Inductive WhichTP_T : Set :=
| TP_NONE
| TP_RES
| TP_FT5206
| TP_GSL1680.

Record touchInfo_T : Set := mkTouchInfo {
  touchID : Z;
  touchCode : TouchCode_t;
  coordinates : point_t
}.

Definition NOTOUCH_TIMEOUT_uS : Z := 100000.
Definition TOUCH_TICKER_uS : Z := 1000.
Definition TPBUFSIZE : Z := 16.

(** The interrupt flag of the touch panel in [INTC1]/[INTC2].  The macro is
    used by [RA8875_Touch.cpp] but defined elsewhere; the value is the one
    the source's own comments give ("D2 = 1"). *)
Definition RA8875_INT_TP : Z := 0x04.

(** The chip registers that the touch code reads with [ReadCommand]
    during one poll. *)
Record chip_t : Set := mkChip {
  INTC2 : Z;
  TPXH : Z;
  TPYH : Z;
  TPXYL : Z
}.

(** The members of class [RA8875] that the resistive touch code uses,
    together with the function statics of [TouchPanelA2DFiltered]
    ([xbuf], [ybuf], [lastX], [lastY]) and the reading of the
    [timeSinceTouch] timer in microseconds. *)
Record RA8875 : Set := mkRA8875 {
  useTouchPanel : WhichTP_T;
  touchState : TouchCode_t;
  touchSample : Z;
  tpMatrix : tpMatrix_t;
  touchInfo : list touchInfo_T;
  panelTouched : bool;
  numberOfTouchPoints : Z;
  timeSinceTouch : Z;
  xbuf : list Z;
  ybuf : list Z;
  lastX : Z;
  lastY : Z
}.

Definition set_touchState (v : TouchCode_t) (s : RA8875) : RA8875 :=
  mkRA8875 (useTouchPanel s) v (touchSample s) (tpMatrix s) (touchInfo s)
    (panelTouched s) (numberOfTouchPoints s) (timeSinceTouch s)
    (xbuf s) (ybuf s) (lastX s) (lastY s).

Definition set_touchSample (v : Z) (s : RA8875) : RA8875 :=
  mkRA8875 (useTouchPanel s) (touchState s) v (tpMatrix s) (touchInfo s)
    (panelTouched s) (numberOfTouchPoints s) (timeSinceTouch s)
    (xbuf s) (ybuf s) (lastX s) (lastY s).

Definition set_tpMatrix (v : tpMatrix_t) (s : RA8875) : RA8875 :=
  mkRA8875 (useTouchPanel s) (touchState s) (touchSample s) v (touchInfo s)
    (panelTouched s) (numberOfTouchPoints s) (timeSinceTouch s)
    (xbuf s) (ybuf s) (lastX s) (lastY s).

Definition set_touchInfo (v : list touchInfo_T) (s : RA8875) : RA8875 :=
  mkRA8875 (useTouchPanel s) (touchState s) (touchSample s) (tpMatrix s) v
    (panelTouched s) (numberOfTouchPoints s) (timeSinceTouch s)
    (xbuf s) (ybuf s) (lastX s) (lastY s).

Definition set_panelTouched (v : bool) (s : RA8875) : RA8875 :=
  mkRA8875 (useTouchPanel s) (touchState s) (touchSample s) (tpMatrix s)
    (touchInfo s) v (numberOfTouchPoints s) (timeSinceTouch s)
    (xbuf s) (ybuf s) (lastX s) (lastY s).

Definition set_numberOfTouchPoints (v : Z) (s : RA8875) : RA8875 :=
  mkRA8875 (useTouchPanel s) (touchState s) (touchSample s) (tpMatrix s)
    (touchInfo s) (panelTouched s) v (timeSinceTouch s)
    (xbuf s) (ybuf s) (lastX s) (lastY s).

Definition set_timeSinceTouch (v : Z) (s : RA8875) : RA8875 :=
  mkRA8875 (useTouchPanel s) (touchState s) (touchSample s) (tpMatrix s)
    (touchInfo s) (panelTouched s) (numberOfTouchPoints s) v
    (xbuf s) (ybuf s) (lastX s) (lastY s).

Definition set_xbuf (v : list Z) (s : RA8875) : RA8875 :=
  mkRA8875 (useTouchPanel s) (touchState s) (touchSample s) (tpMatrix s)
    (touchInfo s) (panelTouched s) (numberOfTouchPoints s) (timeSinceTouch s)
    v (ybuf s) (lastX s) (lastY s).

Definition set_ybuf (v : list Z) (s : RA8875) : RA8875 :=
  mkRA8875 (useTouchPanel s) (touchState s) (touchSample s) (tpMatrix s)
    (touchInfo s) (panelTouched s) (numberOfTouchPoints s) (timeSinceTouch s)
    (xbuf s) v (lastX s) (lastY s).

Definition set_last (vx vy : Z) (s : RA8875) : RA8875 :=
  mkRA8875 (useTouchPanel s) (touchState s) (touchSample s) (tpMatrix s)
    (touchInfo s) (panelTouched s) (numberOfTouchPoints s) (timeSinceTouch s)
    (xbuf s) (ybuf s) vx vy.

Definition set_Divider (v : Z) (m : tpMatrix_t) : tpMatrix_t :=
  mkMatrix (An m) (Bn m) (Cn m) (Dn m) (En m) (Fn m) v.

(** ** Touch panel: channels and accessors *)

Section Channels.

(** [GSL1680_TOUCH_POINTS] comes from the controller's firmware header,
    which is not part of the sources at hand. *)
Variable GSL1680_TOUCH_POINTS : Z.

Definition TouchChannels (s : RA8875) : Z :=
  match useTouchPanel s with
  | TP_GSL1680 => GSL1680_TOUCH_POINTS
  | TP_FT5206 => 5
  | TP_RES => 1
  | TP_NONE => 0
  end.

(** The index with which the three accessors subscript [touchInfo]:
    [if (channel >= TouchChannels()) channel = 0;]. *)
Definition channel_index (s : RA8875) (channel : Z) : Z :=
  if channel >=? TouchChannels s then 0 else channel.

(** [touchInfo[i]]; [None] stands for an access outside the storage the
    constructor allocated. *)
Definition touchInfo_at (s : RA8875) (i : Z) : option touchInfo_T :=
  if i <? 0 then None else touchInfo s !! Z.to_nat i.

Definition TouchID (s : RA8875) (channel : Z) : option Z :=
  touchID <$> touchInfo_at s (channel_index s channel).

Definition TouchCode (s : RA8875) (channel : Z) : option TouchCode_t :=
  touchCode <$> touchInfo_at s (channel_index s channel).

Definition TouchCoordinates (s : RA8875) (channel : Z) : option point_t :=
  coordinates <$> touchInfo_at s (channel_index s channel).

End Channels.

(** ** Touch panel: staleness ticker *)

(** [_TouchTicker]: the timer is read with [read_us] and reset when the
    timeout has passed. *)
Definition _TouchTicker (s : RA8875) : RA8875 :=
  if timeSinceTouch s >? NOTOUCH_TIMEOUT_uS then
    let s1 := set_touchSample 0 s in
    let s2 := match touchState s1 with
              | held => set_touchState release s1
              | _ => set_touchState no_touch s1
              end in
    set_timeSinceTouch 0 s2
  else s.

(** ** Touch panel: sample filter *)

(** [buf[i]] for an index inside the array. *)
Definition buf_get (buf : list Z) (i : nat) : Z := default 0 (buf !! i).

(** [buf[i] = v]; [None] when [i] lies outside the array. *)
Definition array_set (buf : list Z) (i : Z) (v : Z) : option (list Z) :=
  if (0 <=? i) && (i <? Z.of_nat (length buf))
  then Some (<[Z.to_nat i := v]> buf)
  else None.

(** The inner [while (j && buf[j-1] > temp)] loop of [InsertionSort],
    followed by [buf[j] = temp]. *)
Fixpoint insertion_inner (buf : list Z) (temp : Z) (j : nat) : list Z :=
  match j with
  | O => <[O := temp]> buf
  | S j' =>
      if buf_get buf j' >? temp
      then insertion_inner (<[S j' := buf_get buf j']> buf) temp j'
      else <[S j' := temp]> buf
  end.

(** [InsertionSort(buf, bufsize)]: [for (i = 1; i < bufsize; i++)]. *)
Definition InsertionSort (buf : list Z) (bufsize : Z) : list Z :=
  fold_left (fun b i => insertion_inner b (buf_get b i) i)
            (seq 1 (Z.to_nat bufsize - 1)) buf.

(** [for (i = TPBUFSIZE/4 - 1; i < TPBUFSIZE - TPBUFSIZE/4; i++) j += buf[i];] *)
Definition middle_sum (buf : list Z) : Z :=
  let first := Z.to_nat (TPBUFSIZE / 4 - 1) in
  let stop := Z.to_nat (TPBUFSIZE - TPBUFSIZE / 4) in
  fold_left (fun j i => to_int32 (j + buf_get buf i))
            (seq first (stop - first)) 0.

(** [j * (float)2/TPBUFSIZE] converted back to [int].  The product and the
    division by a power of two are exact in single precision as long as
    [|j| < 2^23], which covers every sum of 10-bit samples; the conversion
    to [int] truncates toward zero. *)
Definition average (j : Z) : Z := Z.quot (j * 2) TPBUFSIZE.

(** The two conversions of [TouchPanelA2DFiltered]:
    [ReadCommand(TPYH) << 2 | ((ReadCommand(TPXYL) & 0xC) >> 2)] and
    [ReadCommand(TPXH) << 2 | (ReadCommand(TPXYL) & 0x3)]. *)
Definition sample_y (chip : chip_t) : Z :=
  Z.lor (Z.shiftl (TPYH chip) 2) (Z.shiftr (Z.land (TPXYL chip) 0xC) 2).

Definition sample_x (chip : chip_t) : Z :=
  Z.lor (Z.shiftl (TPXH chip) 2) (Z.land (TPXYL chip) 0x3).

(** [TouchPanelA2DFiltered(&x, &y)].  [xy] is what [*x] and [*y] hold on
    entry; the result carries the return value, what they hold on exit,
    and the new state.  [None] stands for a store outside [xbuf]/[ybuf].
    Clearing the interrupt flag with [WriteCommand] acts on the chip and
    is not part of the state. *)
Definition TouchPanelA2DFiltered (chip : chip_t) (xy : Z * Z) (s : RA8875)
  : option (TouchCode_t * (Z * Z) * RA8875) :=
  let ret := touchState s in
  if negb (Z.land (INTC2 chip) RA8875_INT_TP =? 0) then
    let s := set_timeSinceTouch 0 s in
    yb ← array_set (ybuf s) (touchSample s) (sample_y chip);
    xb ← array_set (xbuf s) (touchSample s) (sample_x chip);
    let s := set_xbuf xb (set_ybuf yb s) in
    let s := set_touchSample (to_int32 (touchSample s + 1)) s in
    if touchSample s =? TPBUFSIZE then
      let yb := InsertionSort yb TPBUFSIZE in
      let xb := InsertionSort xb TPBUFSIZE in
      let s := set_xbuf xb (set_ybuf yb s) in
      let ly := average (middle_sum yb) in
      let lx := average (middle_sum xb) in
      let s := set_last lx ly s in
      let st := match touchState s with
                | touch | held => held
                | _ => touch
                end in
      let s := set_touchState st s in
      Some (st, (lx, ly), set_touchSample 0 s)
    else
      match touchState s with
      | touch | held =>
          Some (held, (lastX s, lastY s), set_touchState held s)
      | _ => Some (ret, xy, s)
      end
  else
    match touchState s with
    | touch | held => Some (held, (lastX s, lastY s), set_touchState held s)
    | release => Some (release, (lastX s, lastY s), set_touchState no_touch s)
    | _ => Some (ret, xy, s)
    end.

(** ** Touch panel: calibration solver and runtime *)

(** [point_t display[3]] and [point_t screen[3]]. *)
Abbreviation points3 := (point_t * point_t * point_t)%type.

(** The value stored in [tpMatrix.Divider].  The operands are [loc_t]
    promoted to [int]; wrapping the exact result once equals wrapping
    after every operation. *)
Definition compute_Divider (screenPtr : points3) : Z :=
  let '(s0, s1, s2) := screenPtr in
  to_int32 ((x s0 - x s2) * (y s1 - y s2) - (x s1 - x s2) * (y s0 - y s2)).

Definition compute_An (d s : points3) : Z :=
  let '(d0, d1, d2) := d in let '(s0, s1, s2) := s in
  to_int32 ((x d0 - x d2) * (y s1 - y s2) - (x d1 - x d2) * (y s0 - y s2)).

Definition compute_Bn (d s : points3) : Z :=
  let '(d0, d1, d2) := d in let '(s0, s1, s2) := s in
  to_int32 ((x s0 - x s2) * (x d1 - x d2) - (x d0 - x d2) * (x s1 - x s2)).

Definition compute_Cn (d s : points3) : Z :=
  let '(d0, d1, d2) := d in let '(s0, s1, s2) := s in
  to_int32 ((x s2 * x d1 - x s1 * x d2) * y s0 +
            (x s0 * x d2 - x s2 * x d0) * y s1 +
            (x s1 * x d0 - x s0 * x d1) * y s2).

Definition compute_Dn (d s : points3) : Z :=
  let '(d0, d1, d2) := d in let '(s0, s1, s2) := s in
  to_int32 ((y d0 - y d2) * (y s1 - y s2) - (y d1 - y d2) * (y s0 - y s2)).

Definition compute_En (d s : points3) : Z :=
  let '(d0, d1, d2) := d in let '(s0, s1, s2) := s in
  to_int32 ((x s0 - x s2) * (y d1 - y d2) - (y d0 - y d2) * (x s1 - x s2)).

Definition compute_Fn (d s : points3) : Z :=
  let '(d0, d1, d2) := d in let '(s0, s1, s2) := s in
  to_int32 ((x s2 * y d1 - x s1 * y d2) * y s0 +
            (x s0 * y d2 - x s2 * y d0) * y s1 +
            (x s1 * y d0 - x s0 * y d1) * y s2).

(** [TouchPanelComputeCalibration(displayPtr, screenPtr, matrixPtr)].
    [matrixPtr] is [None] for a null pointer and otherwise holds what the
    caller's matrix contains; the result carries the return code, the new
    state and the caller's matrix on exit. *)
Definition TouchPanelComputeCalibration
    (displayPtr screenPtr : points3) (matrixPtr : option tpMatrix_t)
    (s : RA8875) : RetCode_t * RA8875 * option tpMatrix_t :=
  let s := set_tpMatrix (set_Divider (compute_Divider screenPtr) (tpMatrix s)) s in
  if Divider (tpMatrix s) =? 0 then
    (bad_parameter, s, matrixPtr)
  else
    let m := mkMatrix (compute_An displayPtr screenPtr)
                      (compute_Bn displayPtr screenPtr)
                      (compute_Cn displayPtr screenPtr)
                      (compute_Dn displayPtr screenPtr)
                      (compute_En displayPtr screenPtr)
                      (compute_Fn displayPtr screenPtr)
                      (Divider (tpMatrix s)) in
    let s := set_touchState no_touch (set_tpMatrix m s) in
    (noerror, s, match matrixPtr with Some _ => Some m | None => None end).

(** [TouchPanelSetMatrix(matrixPtr)]. *)
Definition TouchPanelSetMatrix (matrixPtr : option tpMatrix_t) (s : RA8875)
  : RetCode_t * RA8875 :=
  match matrixPtr with
  | None => (bad_parameter, s)
  | Some m =>
      if Divider m =? 0 then (bad_parameter, s)
      else (noerror, set_touchState no_touch (set_tpMatrix m s))
  end.

(** The two assignments to [touchInfo[0].coordinates] in
    [TouchPanelReadable], taken when [tpMatrix.Divider != 0]: [int]
    arithmetic, [/] truncating toward zero, the quotient stored in a
    [loc_t]. *)
Definition display_point (m : tpMatrix_t) (a2dX a2dY : Z) : point_t :=
  mkPoint
    (to_int16 (to_int32
       (Z.quot (to_int32 (An m * a2dX + Bn m * a2dY + Cn m)) (Divider m))))
    (to_int16 (to_int32
       (Z.quot (to_int32 (Dn m * a2dX + En m * a2dY + Fn m)) (Divider m)))).

Definition set_info_touchID (v : Z) (t : touchInfo_T) : touchInfo_T :=
  mkTouchInfo v (touchCode t) (coordinates t).

Definition set_info_touchCode (v : TouchCode_t) (t : touchInfo_T) : touchInfo_T :=
  mkTouchInfo (touchID t) v (coordinates t).

Definition set_info_coordinates (v : point_t) (t : touchInfo_T) : touchInfo_T :=
  mkTouchInfo (touchID t) (touchCode t) v.

(** [TouchPanelReadable(TouchPoint)].  [TouchPoint] is [None] for a null
    pointer; the result carries the return value, the caller's point on
    exit and the new state.  [None] as a whole stands for an access to
    [touchInfo[0]] when the constructor allocated no entry. *)
Definition TouchPanelReadable (chip : chip_t) (TouchPoint : option point_t)
    (s : RA8875) : option (TouchCode_t * option point_t * RA8875) :=
  r ← match useTouchPanel s with
      | TP_RES =>
          t0 ← touchInfo s !! O;
          let t0 := set_info_touchID 0 t0 in
          '(ts, (a2dX, a2dY), s) ← TouchPanelA2DFiltered chip (0, 0) s;
          let '(ts, t0, s) :=
            if negb (TouchCode_eqb ts no_touch) then
              let s := set_numberOfTouchPoints 1 (set_panelTouched true s) in
              if negb (Divider (tpMatrix s) =? 0) then
                (ts, set_info_coordinates
                       (display_point (tpMatrix s) a2dX a2dY) t0, s)
              else (no_cal, t0, s)
            else (ts, t0, set_numberOfTouchPoints 0 s) in
          let t0 := set_info_touchCode ts t0 in
          Some (ts, set_touchInfo (<[O := t0]> (touchInfo s)) s)
      | _ => Some (no_touch, s)
      end;
  let '(ts, s) := r in
  if panelTouched s then
    let s := set_panelTouched false s in
    match TouchPoint with
    | Some _ =>
        t0 ← touchInfo s !! O;
        Some (touchCode t0, Some (coordinates t0), s)
    | None => Some (touch, None, s)
    end
  else Some (ts, TouchPoint, s).

(** ** GIF decoder: outcomes *)

(** What the C code does outside its defined behaviour.  The embedding
    stops at the first such event and reports it. *)
Inductive fault : Set :=
| dictionary_read (index : Z)
    (** read of [dictionary[index]] where no entry was ever stored *)
| dictionary_write (index : Z)
    (** store to [dictionary[index]] outside the allocation *)
| input_read
    (** read of [*input] behind the end of the compressed data *)
| out_read (pos : Z)
    (** read of a decoded byte that was never written *)
| out_write (pos : Z)
    (** store to [out[pos]] outside the pixel buffer *)
| color_table_read (index : Z)
    (** read of a color table entry that does not exist *)
| endless_loop.
    (** a loop of the source that never exits *)

Inductive result (A : Type) : Type :=
| Ok (a : A)
| Undefined (f : fault).

Arguments Ok {A} a.
Arguments Undefined {A} f.

#[global] Instance result_ret : MRet result := fun A a => Ok a.
#[global] Instance result_bind : MBind result := fun A B k m =>
  match m with
  | Ok a => k a
  | Undefined f => Undefined f
  end.

(** ** GIF decoder: LZW decompressor *)

Record dictionary_entry_t : Set := mkEntry {
  byte : Z;
  prev : Z;
  len : Z
}.

(** The [malloc]ed dictionary: one cell per allocated entry, [None] while
    nothing was stored there. *)
Abbreviation dictionary_t := (list (option dictionary_entry_t)).

(** The local variables of [uncompress_gif] that live across iterations of
    its [while] loop.  [input] is the data from the [input] pointer on,
    [out] the whole pixel buffer and [out_pos] the offset the [out] pointer
    has reached in it; [prev_code] is the local variable [prev]. *)
Record lzw_t : Set := mkLzw {
  code_length : Z;
  dictionary : dictionary_t;
  dictionary_ind : Z;
  prev_code : Z;
  mask : Z;
  input : list Z;
  input_length : Z;
  out : list (option Z);
  out_pos : Z
}.

Definition dict_get (d : dictionary_t) (i : Z) : result dictionary_entry_t :=
  if i <? 0 then Undefined (dictionary_read i)
  else match d !! Z.to_nat i with
       | Some (Some e) => Ok e
       | _ => Undefined (dictionary_read i)
       end.

Definition dict_set (d : dictionary_t) (i : Z) (e : dictionary_entry_t)
  : result dictionary_t :=
  if (0 <=? i) && (i <? Z.of_nat (length d))
  then Ok (<[Z.to_nat i := Some e]> d)
  else Undefined (dictionary_write i).

Definition out_set (o : list (option Z)) (i : Z) (v : Z)
  : result (list (option Z)) :=
  if (0 <=? i) && (i <? Z.of_nat (length o))
  then Ok (<[Z.to_nat i := Some v]> o)
  else Undefined (out_write i).

(** [malloc]/[realloc] of [n] entries: the common prefix keeps its
    contents, new cells are indeterminate.  Allocation is taken to
    succeed. *)
Definition realloc (d : dictionary_t) (n : Z) : dictionary_t :=
  resize (Z.to_nat n) None d.

(** [for (dictionary_ind = 0; dictionary_ind < (1 << code_length);
    dictionary_ind++)] with its three stores, for the first [n] indices. *)
Fixpoint init_dictionary (n : nat) (d : dictionary_t) : dictionary_t :=
  match n with
  | O => d
  | S k =>
      <[k := Some (mkEntry (to_uint8 (Z.of_nat k)) (-1) 1)]>
        (init_dictionary k d)
  end.

(** One pass of the bit loop: [bit = ( *input & mask) ? 1 : 0; mask <<= 1;]
    with the step to the next byte, then [code = code | (bit << i)]. *)
Definition read_bit (i : Z) (code : Z) (s : lzw_t) : result (Z * lzw_t) :=
  match input s with
  | [] => Undefined input_read
  | b :: rest =>
      let bit := if Z.land b (mask s) =? 0 then 0 else 1 in
      let m := Z.shiftl (mask s) 1 in
      let s :=
        if m =? 0x100
        then mkLzw (code_length s) (dictionary s) (dictionary_ind s)
               (prev_code s) 0x01 rest (input_length s - 1) (out s) (out_pos s)
        else mkLzw (code_length s) (dictionary s) (dictionary_ind s)
               (prev_code s) m (input s) (input_length s) (out s) (out_pos s) in
      Ok (Z.lor code (Z.shiftl bit i), s)
  end.

(** [for (i = 0; i < (code_length + 1); i++)]: [n] passes still to go,
    the next one with index [i]. *)
Fixpoint read_code (n : nat) (i : Z) (code : Z) (s : lzw_t)
  : result (Z * lzw_t) :=
  match n with
  | O => Ok (code, s)
  | S k => '(code, s) ← read_bit i code s; read_code k (i + 1) code s
  end.

(** [while (dictionary[ptr].prev != -1) ptr = dictionary[ptr].prev;]
    The walk visits allocated entries only, so one that takes more steps
    than there are entries never ends. *)
Fixpoint walk_to_root (fuel : nat) (d : dictionary_t) (ptr : Z) : result Z :=
  match fuel with
  | O => Undefined endless_loop
  | S k =>
      e ← dict_get d ptr;
      if prev e =? -1 then Ok ptr else walk_to_root k d (prev e)
  end.

(** [while (code != -1)]: copy the entry backwards into [out].  The result
    is the new buffer, or the error code of the self-reference test. *)
Fixpoint copy_entry (fuel : nat) (d : dictionary_t) (code : Z)
    (o : list (option Z)) (base : Z) : result (RetCode_t * list (option Z)) :=
  match fuel with
  | O => Undefined endless_loop
  | S k =>
      if code =? -1 then Ok (noerror, o)
      else
        e ← dict_get d code;
        o ← out_set o (base + (len e - 1)) (byte e);
        if prev e =? code then Ok (not_supported_format, o)
        else copy_entry k d (prev e) o base
  end.

(** How one pass of the [while (input_length)] body ends. *)
Inductive lzw_ctl : Set :=
| Continue (s : lzw_t)
| Break (s : lzw_t)
| Return (r : RetCode_t) (s : lzw_t).

Definition set_dictionary (code_length' : Z) (d : dictionary_t)
    (ind : Z) (p : Z) (s : lzw_t) : lzw_t :=
  mkLzw code_length' d ind p (mask s) (input s) (input_length s)
        (out s) (out_pos s).

(** The part of the body under [if ((prev > -1) && (code_length < 12))]. *)
Definition update_dictionary (code : Z) (s : lzw_t) : result lzw_ctl :=
  if code >? dictionary_ind s then Ok (Return not_supported_format s)
  else
    let d := dictionary s in
    let fuel := S (length d) in
    ptr ← walk_to_root fuel d
            (if code =? dictionary_ind s then prev_code s else code);
    root ← dict_get d ptr;
    before ← dict_get d (prev_code s);
    d ← dict_set d (dictionary_ind s)
          (mkEntry (byte root) (prev_code s) (len before + 1));
    let ind := dictionary_ind s + 1 in
    if (ind =? Z.shiftl 1 (code_length s + 1)) && (code_length s <? 11)
    then
      let cl := code_length s + 1 in
      Ok (Continue (set_dictionary cl (realloc d (Z.shiftl 1 (cl + 1)))
                                   ind (prev_code s) s))
    else Ok (Continue (set_dictionary (code_length s) d ind (prev_code s) s)).

(** One pass of the body of [while (input_length)].  [reset_code_length]
    is the [code_length] the function was called with; [clear_code] and
    [stop_code] are computed from it once, as in the source. *)
Definition lzw_body (reset_code_length : Z) (s : lzw_t) : result lzw_ctl :=
  let clear_code := Z.shiftl 1 reset_code_length in
  let stop_code := clear_code + 1 in
  '(code, s) ← read_code (Z.to_nat (code_length s + 1)) 0 0 s;
  if code =? clear_code then
    let cl := reset_code_length in
    let d := realloc (dictionary s) (Z.shiftl 1 (cl + 1)) in
    let n := Z.shiftl 1 cl in
    let d := init_dictionary (Z.to_nat n) d in
    Ok (Continue (set_dictionary cl d (n + 2) (-1) s))
  else if code =? stop_code then
    if input_length s >? 1 then Ok (Return not_supported_format s)
    else Ok (Break s)
  else
    c ← (if (prev_code s >? -1) && (code_length s <? 12)
         then update_dictionary code s
         else Ok (Continue s));
    match c with
    | Continue s =>
        let s := set_dictionary (code_length s) (dictionary s)
                                (dictionary_ind s) code s in
        e ← dict_get (dictionary s) code;
        let match_len := len e in
        '(r, o) ← copy_entry (S (length (dictionary s))) (dictionary s) code
                             (out s) (out_pos s);
        let s' := mkLzw (code_length s) (dictionary s) (dictionary_ind s)
                        (prev_code s) (mask s) (input s) (input_length s) o
                        (out_pos s) in
        match r with
        | noerror =>
            Ok (Continue
                  (mkLzw (code_length s) (dictionary s) (dictionary_ind s)
                         (prev_code s) (mask s) (input s) (input_length s) o
                         (out_pos s + match_len)))
        | _ => Ok (Return r s')
        end
    | other => Ok other
    end.

(** [while (input_length) { ... }].  Every pass reads at least one bit of
    [input], so [fuel] passes are enough when [fuel] exceeds the number of
    bits at hand. *)
Fixpoint lzw_loop (fuel : nat) (reset_code_length : Z) (s : lzw_t)
  : result (RetCode_t * lzw_t) :=
  match fuel with
  | O => Undefined endless_loop
  | S k =>
      if input_length s =? 0 then Ok (noerror, s)
      else
        c ← lzw_body reset_code_length s;
        match c with
        | Continue s => lzw_loop k reset_code_length s
        | Break s => Ok (noerror, s)
        | Return r s => Ok (r, s)
        end
  end.

(** The state on entry to the [while] loop: a fresh dictionary of
    [1 << (code_length + 1)] entries with the first [1 << code_length]
    initialised. *)
Definition lzw_init (code_length : Z) (input : list Z) (input_length : Z)
    (out : list (option Z)) : lzw_t :=
  let n := Z.shiftl 1 code_length in
  mkLzw code_length
        (init_dictionary (Z.to_nat n)
           (realloc [] (Z.shiftl 1 (code_length + 1))))
        (n + 2) (-1) 0x01 input input_length out 0.

(** [uncompress_gif(code_length, input, input_length, out)]: the return
    code and the contents of [out].  [outbuf] is the buffer [out] points
    to on entry. *)
Definition uncompress_gif (code_length : Z) (input : list Z)
    (input_length : Z) (outbuf : list (option Z))
  : result (RetCode_t * list (option Z)) :=
  '(r, s) ← lzw_loop (S (8 * length input)) code_length
                      (lzw_init code_length input input_length outbuf);
  Ok (r, out s).

(** ** GIF decoder: structure parser *)

Definition EXTENSION_INTRODUCER : Z := 0x21.
Definition IMAGE_DESCRIPTOR : Z := 0x2C.
Definition TRAILER : Z := 0x3B.

Definition GRAPHIC_CONTROL : Z := 0xF9.
Definition APPLICATION_EXTENSION : Z := 0xFF.
Definition COMMENT_EXTENSION : Z := 0xFE.
Definition PLAINTEXT_EXTENSION : Z := 0x01.

Definition extension_size : Z := 2.
Definition graphic_control_extension_size : Z := 4.
Definition application_extension_size : Z := 11.
Definition plaintext_extension_size : Z := 12.
Definition gif_image_descriptor_size : Z := 9.
Definition gif_screen_descriptor_size : Z := 7.

(** An open file: the bytes from the file position on. *)
Abbreviation FILE := (list Z).

(** [read_filesystem_bytes(buffer, numBytes, fh)]: the bytes [fread]
    delivered (their number is the return value) and the file behind
    them. *)
Definition read_filesystem_bytes (numBytes : Z) (fh : FILE) : list Z * FILE :=
  (take (Z.to_nat numBytes) fh, drop (Z.to_nat numBytes) fh).

Definition bytesRead (r : list Z * FILE) : Z := Z.of_nat (length (fst r)).

(** The two descriptors of [GraphicsDisplayGIF.h].  Both have a member
    [fields]; here they are [image_fields] and [screen_fields]. *)
Record gif_image_descriptor_t : Set := mkImageDescriptor {
  image_left_position : Z;
  image_top_position : Z;
  image_width : Z;
  image_height : Z;
  image_fields : Z
}.

Record gif_screen_descriptor_t : Set := mkScreenDescriptor {
  width : Z;
  height : Z;
  screen_fields : Z;
  background_color_index : Z;
  pixel_aspect_ratio : Z
}.

(** A little-endian [uint16_t] at offset [i] of a byte block. *)
Definition le16 (b : list Z) (i : nat) : Z :=
  default 0 (b !! i) + 256 * default 0 (b !! S i).

(** [RGB(r,g,b)] of [DisplayDefs.h], stored in a [color_t]. *)
Definition RGB (r g b : Z) : Z :=
  Z.lor (Z.lor (Z.land (Z.shiftl r 8) 0xF800) (Z.land (Z.shiftl g 3) 0x07E0))
        (Z.shiftr b 3).

(** What the decoder sends to the display: [window(x, y, w, h)],
    [pixelStream(p, count, x, y)] and [window(restore)]. *)
Inductive sink_call : Set :=
| window_call (wx wy ww wh : Z)
| pixelStream_call (p : list Z) (count px py : Z)
| window_restore.

(** The members of [GraphicsDisplay] the GIF code uses; a color table
    pointer is [None] when null.  [sink] collects the calls to the
    display, latest first. *)
Record GraphicsDisplay : Set := mkDisplay {
  screen_descriptor : gif_screen_descriptor_t;
  screen_descriptor_isvalid : bool;
  global_color_table : option (list Z);
  global_color_table_size : Z;
  local_color_table : option (list Z);
  local_color_table_size : Z;
  sink : list sink_call
}.

Definition set_screen_descriptor (v : gif_screen_descriptor_t)
    (g : GraphicsDisplay) : GraphicsDisplay :=
  mkDisplay v true (global_color_table g) (global_color_table_size g)
    (local_color_table g) (local_color_table_size g) (sink g).

Definition set_global_color_table (t : option (list Z)) (n : Z)
    (g : GraphicsDisplay) : GraphicsDisplay :=
  mkDisplay (screen_descriptor g) (screen_descriptor_isvalid g) t n
    (local_color_table g) (local_color_table_size g) (sink g).

Definition set_local_color_table (t : option (list Z)) (n : Z)
    (g : GraphicsDisplay) : GraphicsDisplay :=
  mkDisplay (screen_descriptor g) (screen_descriptor_isvalid g)
    (global_color_table g) (global_color_table_size g) t n (sink g).

Definition add_sink (c : sink_call) (g : GraphicsDisplay) : GraphicsDisplay :=
  mkDisplay (screen_descriptor g) (screen_descriptor_isvalid g)
    (global_color_table g) (global_color_table_size g)
    (local_color_table g) (local_color_table_size g) (c :: sink g).

(** The loop of [read_gif_sub_blocks]; [data] is the block collected so
    far and [data_length] its length.  Every pass takes at least the
    size byte from the file. *)
Fixpoint sub_blocks_loop (fuel : nat) (data : list Z) (data_length : Z)
    (fh : FILE) : result (Z * list Z * FILE) :=
  match fuel with
  | O => Undefined endless_loop
  | S k =>
      let r := read_filesystem_bytes 1 fh in
      if bytesRead r <? 1 then Ok (-1, data, snd r)
      else
        let block_size := default 0 (fst r !! O) in
        if block_size =? 0 then Ok (data_length, data, snd r)
        else
          let data_length := data_length + block_size in
          let r2 := read_filesystem_bytes block_size (snd r) in
          if bytesRead r2 <? block_size
          then Ok (-1, data ++ fst r2, snd r2)
          else sub_blocks_loop k (data ++ fst r2) data_length (snd r2)
  end.

(** [read_gif_sub_blocks(fh, data)]: the return value, the block left in
    [*data] and the file. *)
Definition read_gif_sub_blocks (fh : FILE) : result (Z * list Z * FILE) :=
  sub_blocks_loop (S (length fh)) [] 0 fh.

(** [readColorTable(colorTable, colorTableSize, fh)], [n] entries to go;
    [table] holds the entries stored so far. *)
Fixpoint readColorTable (n : nat) (table : list Z) (fh : FILE)
  : RetCode_t * list Z * FILE :=
  match n with
  | O => (noerror, table, fh)
  | S k =>
      let r := read_filesystem_bytes 3 fh in
      if bytesRead r <? 3 then (not_supported_format, table, snd r)
      else
        match fst r with
        | [cr; cg; cb] => readColorTable k (table ++ [RGB cr cg cb]) (snd r)
        | _ => (not_supported_format, table, snd r)
        end
  end.

(** [readGIFImageDescriptor(fh, imageDescriptor)].  The bytes of a short
    read are not kept. *)
Definition readGIFImageDescriptor (fh : FILE) (g : GraphicsDisplay)
  : RetCode_t * option gif_image_descriptor_t * FILE * GraphicsDisplay :=
  let r := read_filesystem_bytes gif_image_descriptor_size fh in
  if bytesRead r <? gif_image_descriptor_size
  then (not_supported_format, None, snd r, g)
  else
    let b := fst r in
    let d := mkImageDescriptor (le16 b 0) (le16 b 2) (le16 b 4) (le16 b 6)
                               (default 0 (b !! 8%nat)) in
    if negb (Z.land (image_fields d) 0x80 =? 0) then
      let size := Z.shiftl 1 (Z.land (image_fields d) 0x07 + 1) in
      let '(rc, table, fh') := readColorTable (Z.to_nat size) [] (snd r) in
      match rc with
      | noerror => (noerror, Some d, fh', set_local_color_table (Some table) size g)
      | _ => (not_supported_format, Some d, fh', set_local_color_table None size g)
      end
    else (noerror, Some d, snd r, g).

(** [process_gif_image_descriptor(fh, uncompress_gifed_data, width,
    height)]: the return code, the decoded buffer when one was allocated,
    and the file. *)
Definition process_gif_image_descriptor (fh : FILE) (w h : Z)
    (g : GraphicsDisplay)
  : result (RetCode_t * option (list (option Z)) * FILE * GraphicsDisplay) :=
  let g := set_local_color_table (local_color_table g) 0 g in
  let r := read_filesystem_bytes 1 fh in
  if bytesRead r <? 1 then Ok (not_supported_format, None, snd r, g)
  else
    let lzw_code_size := default 0 (fst r !! O) in
    '(compressed_data_length, compressed_data, fh') ← read_gif_sub_blocks (snd r);
    if compressed_data_length >? 0 then
      let buffer := replicate (Z.to_nat (w * h)) None in
      '(rc, decoded) ← uncompress_gif lzw_code_size compressed_data
                                        compressed_data_length buffer;
      Ok (rc, Some decoded, fh', g)
    else Ok (not_supported_format, None, fh', g).

(** One [case] of the [switch] in [process_gif_extension] that reads a
    fixed body of [size] bytes and returns [0] when the read falls short;
    [k] is the code behind the [switch]. *)
Definition extension_body (size : Z) (fh : FILE)
    (k : FILE -> result (Z * FILE)) : result (Z * FILE) :=
  let b := read_filesystem_bytes size fh in
  if bytesRead b <? size then Ok (0, snd b) else k (snd b).

(** The code of [process_gif_extension] behind its [switch]: the data
    sub-blocks are read, their outcome is ignored, and [1] is returned. *)
Definition drain_sub_blocks (fh : FILE) : result (Z * FILE) :=
  '(_, _, fh') ← read_gif_sub_blocks fh;
  Ok (1, fh').

(** [process_gif_extension(fh)]: the return value ([0] for failure, [1]
    for success) and the file. *)
Definition process_gif_extension (fh : FILE) : result (Z * FILE) :=
  let r := read_filesystem_bytes extension_size fh in
  if bytesRead r <? extension_size then Ok (0, snd r)
  else
    let extension_code := default 0 (fst r !! O) in
    if extension_code =? GRAPHIC_CONTROL then
      extension_body graphic_control_extension_size (snd r) drain_sub_blocks
    else if extension_code =? APPLICATION_EXTENSION then
      extension_body application_extension_size (snd r) drain_sub_blocks
    else if extension_code =? COMMENT_EXTENSION then
      drain_sub_blocks (snd r)
    else if extension_code =? PLAINTEXT_EXTENSION then
      extension_body plaintext_extension_size (snd r) drain_sub_blocks
    else Ok (0, snd r).

(** [cbmp[i] = active_color_table[uncompress_gifed_data[i]]] for every
    [i] of the fragment. *)
Fixpoint color_map (active_color_table : option (list Z))
    (data : list (option Z)) (i : Z) : result (list Z) :=
  match data with
  | [] => Ok []
  | c :: rest =>
      match c, active_color_table with
      | None, _ => Undefined (out_read i)
      | Some cIndex, None => Undefined (color_table_read cIndex)
      | Some cIndex, Some t =>
          match t !! Z.to_nat cIndex with
          | None => Undefined (color_table_read cIndex)
          | Some color =>
              tail ← color_map active_color_table rest (i + 1);
              Ok (color :: tail)
          end
      end
  end.

(** The block of [_RenderGIF] under [if (uncompress_gifed_data)]. *)
Definition render_fragment (ScreenX ScreenY : Z) (d : gif_image_descriptor_t)
    (data : list (option Z)) (g : GraphicsDisplay) : result GraphicsDisplay :=
  let active_color_table :=
    match local_color_table g with
    | Some t => Some t
    | None => global_color_table g
    end in
  cbmp ← color_map active_color_table
            (take (Z.to_nat (image_width d * image_height d)) data) 0;
  let px := ScreenX + image_left_position d in
  let py := ScreenY + image_top_position d in
  let g := add_sink (window_call px py (image_width d) (image_height d)) g in
  let g := add_sink
             (pixelStream_call cbmp
                (width (screen_descriptor g) * height (screen_descriptor g))
                px py) g in
  Ok (add_sink window_restore g).

(** [while (block_type != TRAILER)] of [_RenderGIF].  Every pass takes the
    tag byte from the file; the [TRAILER] case ends the loop. *)
Fixpoint block_loop (fuel : nat) (ScreenX ScreenY : Z) (fh : FILE)
    (g : GraphicsDisplay) : result (RetCode_t * FILE * GraphicsDisplay) :=
  match fuel with
  | O => Undefined endless_loop
  | S k =>
      let r := read_filesystem_bytes 1 fh in
      if bytesRead r <? 1 then Ok (not_supported_format, snd r, g)
      else
        let block_type := default 0 (fst r !! O) in
        if block_type =? IMAGE_DESCRIPTOR then
          match readGIFImageDescriptor (snd r) g with
          | (noerror, Some d, fh, g) =>
              '(rc, data, fh, g) ←
                process_gif_image_descriptor fh (image_width d)
                                             (image_height d) g;
              match rc with
              | noerror =>
                  g ← match data with
                      | Some data => render_fragment ScreenX ScreenY d data g
                      | None => Ok g
                      end;
                  let g := set_local_color_table None
                             (local_color_table_size g) g in
                  block_loop k ScreenX ScreenY fh g
              | _ => Ok (not_supported_format, fh, g)
              end
          | (_, _, fh, g) => Ok (not_supported_format, fh, g)
          end
        else if block_type =? EXTENSION_INTRODUCER then
          '(ok, fh) ← process_gif_extension (snd r);
          if ok =? 0 then Ok (not_supported_format, fh, g)
          else block_loop k ScreenX ScreenY fh g
        else if block_type =? TRAILER then Ok (noerror, snd r, g)
        else Ok (not_supported_format, snd r, g)
  end.

(** [GetGIFHeader(fh)].  The bytes of a short read are not kept. *)
Definition GetGIFHeader (fh : FILE) (g : GraphicsDisplay)
  : RetCode_t * FILE * GraphicsDisplay :=
  let r := read_filesystem_bytes gif_screen_descriptor_size fh in
  if bytesRead r <? gif_screen_descriptor_size
  then (not_supported_format, snd r, g)
  else
    let b := fst r in
    let d := mkScreenDescriptor (le16 b 0) (le16 b 2)
               (default 0 (b !! 4%nat)) (default 0 (b !! 5%nat))
               (default 0 (b !! 6%nat)) in
    (noerror, snd r, set_screen_descriptor d g).

(** [_RenderGIF(ScreenX, ScreenY, fh)]. *)
Definition _RenderGIF (ScreenX ScreenY : Z) (fh : FILE) (g : GraphicsDisplay)
  : result (RetCode_t * FILE * GraphicsDisplay) :=
  let g := set_global_color_table (global_color_table g) 0 g in
  let g := set_local_color_table (local_color_table g) 0 g in
  match GetGIFHeader fh g with
  | (noerror, fh, g) =>
      if negb (Z.land (screen_fields (screen_descriptor g)) 0x80 =? 0) then
        let size :=
          Z.shiftl 1 (Z.land (screen_fields (screen_descriptor g)) 0x07 + 1) in
        let '(rc, table, fh) := readColorTable (Z.to_nat size) [] fh in
        let g := set_global_color_table (Some table) size g in
        match rc with
        | noerror => block_loop (S (length fh)) ScreenX ScreenY fh g
        | _ => Ok (not_supported_format, fh, g)
        end
      else block_loop (S (length fh)) ScreenX ScreenY fh g
  | (_, fh, g) => Ok (not_supported_format, fh, g)
  end.

(** [hasGIFHeader(fh)]: the six bytes must spell [GIF89a]. *)
Definition hasGIFHeader (fh : FILE) : bool * FILE :=
  let r := read_filesystem_bytes 6 fh in
  (if bytesRead r =? 6
   then bool_decide (fst r = [0x47; 0x49; 0x46; 0x38; 0x39; 0x61])
   else false,
   snd r).

(** [RenderGIFFile(x, y, Name_GIF)] once [fopen] delivered the contents of
    the file, [None] when there is no such file. *)
Definition RenderGIFFile (px py : Z) (file : option FILE) (g : GraphicsDisplay)
  : result (RetCode_t * GraphicsDisplay) :=
  let g := mkDisplay (screen_descriptor g) false (global_color_table g)
             (global_color_table_size g) (local_color_table g)
             (local_color_table_size g) (sink g) in
  match file with
  | None => Ok (file_not_found, g)
  | Some fh =>
      let '(is_gif, fh) := hasGIFHeader fh in
      if is_gif then
        '(rc, _, g) ← _RenderGIF px py fh g;
        Ok (rc, g)
      else Ok (file_not_found, g)
  end.

(** ** Notions used to state the properties *)

(** The determinant of the three raw-sample points, as an integer without
    bounds: [(Xs0-Xs2)*(Ys1-Ys2) - (Xs1-Xs2)*(Ys0-Ys2)].  It is zero
    exactly when the three points are collinear (or coincide). *)
Definition Divider_exact (screenPtr : points3) : Z :=
  let '(s0, s1, s2) := screenPtr in
  (x s0 - x s2) * (y s1 - y s2) - (x s1 - x s2) * (y s0 - y s2).

(** The display point [d] fits [loc_t], and the products that the runtime
    divides by the determinant [D] fit [int]. *)
Definition fits_display (D : Z) (d : point_t) : Prop :=
  in_int16 (x d) /\ in_int16 (y d) /\
  in_int32 (x d * D) /\ in_int32 (y d * D).


(** The documented range: both coordinates are 10-bit values. *)
Definition ten_bit (p : point_t) : Prop := 0 <= x p <= 1023 /\ 0 <= y p <= 1023.

(** The polls of one gesture, each with the chip as it is at that
    moment; the result is that of the last poll. *)
Fixpoint poll_window (chips : list chip_t)
    (r : TouchCode_t * (Z * Z) * RA8875)
  : option (TouchCode_t * (Z * Z) * RA8875) :=
  match chips with
  | [] => Some r
  | chip :: rest =>
      let '(_, xy, s) := r in
      r' ← TouchPanelA2DFiltered chip xy s;
      poll_window rest r'
  end.

(** The average the specification describes: sort the window, drop the
    four lowest and the four highest samples, divide the sum of the
    remaining eight by eight. *)
Definition trimmed_mean (window : list Z) : Z :=
  Z.quot (foldr Z.add 0 (take 8 (drop 4 (merge_sort Z.le window)))) 8.

(** The return code of a run that stayed within defined behaviour. *)
Definition return_code {A : Type} (r : result (RetCode_t * A))
  : option RetCode_t :=
  match r with
  | Ok (rc, _) => Some rc
  | Undefined _ => None
  end.

(** The bit cursor of a pass is [mask = 2^p] in the byte at the head of
    [input]; [bits_left] counts the bits from the cursor to the end. *)
Definition cursor_ok (s : lzw_t) : Prop :=
  exists p, 0 <= p < 8 /\ mask s = 2 ^ p /\ (input s = [] -> p = 0).

Definition bits_left (s : lzw_t) : Z :=
  8 * Z.of_nat (length (input s)) - Z.log2 (mask s).

(** ** Sample data *)

(** A held touch whose last sample is just older than the timeout, and
    one exactly at the timeout. *)
Definition stale_held : RA8875 :=
  mkRA8875 TP_RES held 7 (mkMatrix 0 0 0 0 0 0 1) [] false 0 100001
           (replicate 16 0) (replicate 16 0) 0 0.

Definition fresh_held : RA8875 :=
  mkRA8875 TP_RES held 7 (mkMatrix 0 0 0 0 0 0 1) [] false 0 100000
           (replicate 16 0) (replicate 16 0) 0 0.

(** A resistive panel: one channel, one entry in [touchInfo]. *)
Definition resistive_panel : RA8875 :=
  mkRA8875 TP_RES no_touch 0 (mkMatrix 1 0 0 0 1 0 1)
           [mkTouchInfo 3 held (mkPoint 120 45)] false 0 0
           (replicate 16 0) (replicate 16 0) 0 0.

(** A panel with a valid matrix stored. *)
Definition calibrated_panel : RA8875 :=
  mkRA8875 TP_RES held 0 (mkMatrix 1 2 3 4 5 6 7)
           [mkTouchInfo 0 no_touch (mkPoint 0 0)] false 0 0
           (replicate 16 0) (replicate 16 0) 0 0.

(** The three targets of the calibration ritual on a 480 by 272 screen,
    raw samples on one line, and raw samples in general position. *)
Definition targets : points3 := (mkPoint 50 50, mkPoint 430 136, mkPoint 240 222).

Definition collinear_samples : points3 :=
  (mkPoint 100 100, mkPoint 200 200, mkPoint 300 300).

Definition good_samples : points3 :=
  (mkPoint 120 130, mkPoint 900 500, mkPoint 510 880).

(** An uncalibrated resistive panel one sample short of a full window. *)
Definition uncalibrated_panel : RA8875 :=
  mkRA8875 TP_RES no_touch 15 (mkMatrix 0 0 0 0 0 0 0)
           [mkTouchInfo 0 no_touch (mkPoint 11 22)] false 0 0
           (replicate 16 800) (replicate 16 400) 0 0.

(** The same panel with a matrix that keeps x and mirrors y. *)
Definition identity_panel : RA8875 :=
  set_tpMatrix (mkMatrix 7 0 0 0 (-7) 0 7) uncalibrated_panel.

(** The chip with a touch pending at raw position (800, 400). *)
Definition pending_chip : chip_t := mkChip 0x04 200 100 0.

(** A panel at rest with an empty window. *)
Definition idle_panel : RA8875 :=
  mkRA8875 TP_RES no_touch 0 (mkMatrix 1 0 0 0 1 0 1)
           [mkTouchInfo 0 no_touch (mkPoint 0 0)] false 0 0
           (replicate 16 0) (replicate 16 0) 0 0.

(** Sixteen pending samples: x varies between 472 and 532, y is 400. *)
Definition noisy_touch : list chip_t :=
  (fun h => mkChip 0x04 h 100 0) <$>
    [130; 120; 125; 128; 122; 127; 121; 129;
     123; 126; 124; 131; 119; 132; 118; 133].


Definition blank_display : GraphicsDisplay :=
  mkDisplay (mkScreenDescriptor 0 0 0 0 0) false None 0 None 0 [].

(** A 1 by 1 GIF89a file without color table whose only block is an
    extension with the unassigned code 0x42 and no data. *)
Definition gif_with_unknown_extension : FILE :=
  [0x47; 0x49; 0x46; 0x38; 0x39; 0x61;
   0x01; 0x00; 0x01; 0x00; 0x00; 0x00; 0x00;
   0x21; 0x42; 0x00; 0x00;
   0x3B].

(** The same file with a comment extension in its place. *)
Definition gif_with_comment_extension : FILE :=
  [0x47; 0x49; 0x46; 0x38; 0x39; 0x61;
   0x01; 0x00; 0x01; 0x00; 0x00; 0x00; 0x00;
   0x21; 0xFE; 0x00; 0x00;
   0x3B].

(** A 1 by 1 GIF89a file whose image data of minimum code size 2 opens
    with the code 7. *)
Definition gif_with_early_code : FILE :=
  [0x47; 0x49; 0x46; 0x38; 0x39; 0x61;
   0x01; 0x00; 0x01; 0x00; 0x00; 0x00; 0x00;
   0x2C; 0x00; 0x00; 0x00; 0x00; 0x01; 0x00; 0x01; 0x00; 0x00;
   0x02; 0x01; 0x07; 0x00;
   0x3B].

(** ** Touch panel: further functions of [RA8875_Touch.cpp] *)

(** [TouchPanelGetMatrix()]: the stored matrix. *)
Definition TouchPanelGetMatrix (s : RA8875) : tpMatrix_t := tpMatrix s.

(** [TouchPanelA2DRaw(&x, &y)]; [xy] is what [*x] and [*y] hold on
    entry. *)
Definition TouchPanelA2DRaw (chip : chip_t) (xy : Z * Z) (s : RA8875)
  : TouchCode_t * (Z * Z) * RA8875 :=
  if negb (Z.land (INTC2 chip) RA8875_INT_TP =? 0) then
    let s := set_timeSinceTouch 0 s in
    (touch, (sample_x chip, sample_y chip), set_touchState touch s)
  else
    (no_touch, xy, set_touchState no_touch s).

(** The values [ReadCommand] delivers are bytes. *)
Definition byte_registers (chip : chip_t) : Prop :=
  0 <= INTC2 chip < 256 /\ 0 <= TPXH chip < 256 /\
  0 <= TPYH chip < 256 /\ 0 <= TPXYL chip < 256.

(** The sample counter is a valid index into the two sample buffers of
    [TPBUFSIZE] entries. *)
Definition buffers_ok (s : RA8875) : Prop :=
  0 <= touchSample s < TPBUFSIZE /\
  length (xbuf s) = Z.to_nat TPBUFSIZE /\
  length (ybuf s) = Z.to_nat TPBUFSIZE.

(** [p z] holds for every [z] of [0 .. n-1]. *)
Fixpoint all_below (n : nat) (p : Z -> bool) : bool :=
  match n with
  | O => true
  | S k => p (Z.of_nat k) && all_below k p
  end.

(** A 10-bit value. *)
Definition ten_bit_value (v : Z) : Prop := 0 <= v <= 1023.



(** ** Capacitive panels ([RA8875_Touch_FT5206.cpp],
    [RA8875_Touch_GSL1680.cpp]) *)

Definition FT5206_GEST_ID : Z := 0x01.
Definition FT5206_TD_STATUS : Z := 0x02.
Definition FT5206_TOUCH1_XH : Z := 0x03.
Definition FT5206_TOUCH1_XL : Z := 0x04.
Definition FT5206_TOUCH1_YH : Z := 0x05.
Definition FT5206_TOUCH1_YL : Z := 0x06.
Definition FT5206_TOUCH2_XH : Z := 0x09.
Definition FT5206_TOUCH2_XL : Z := 0x0a.
Definition FT5206_TOUCH2_YH : Z := 0x0b.
Definition FT5206_TOUCH2_YL : Z := 0x0c.
Definition FT5206_TOUCH3_XH : Z := 0x0f.
Definition FT5206_TOUCH3_XL : Z := 0x10.
Definition FT5206_TOUCH3_YH : Z := 0x11.
Definition FT5206_TOUCH3_YL : Z := 0x12.
Definition FT5206_TOUCH4_XH : Z := 0x15.
Definition FT5206_TOUCH4_XL : Z := 0x16.
Definition FT5206_TOUCH4_YH : Z := 0x17.
Definition FT5206_TOUCH4_YL : Z := 0x18.
Definition FT5206_TOUCH5_XH : Z := 0x1b.
Definition FT5206_TOUCH5_XL : Z := 0x1c.
Definition FT5206_TOUCH5_YH : Z := 0x1d.
Definition FT5206_TOUCH5_YL : Z := 0x1e.
Definition FT5206_GEST_ID_NO_GESTURE : Z := 0x00.

(** [FT5206_ReadRegU8(reg)]: the register file of the controller is a
    function of the register number; the value read is a [uint8_t]. *)
Definition FT5206_ReadRegU8 (regs : Z -> Z) (reg : Z) : Z :=
  to_uint8 (regs reg).

(** The table [FT5206_EventFlagToTouchCode[4]]; its index is a byte
    shifted right by six, so one of 0 to 3. *)
Definition FT5206_EventFlagToTouchCode (flag : Z) : TouchCode_t :=
  match flag with
  | 0 => touch
  | 1 => release
  | 2 => held
  | _ => no_touch
  end.

(** [touchInfo[i] = t]; [None] when the constructor allocated no such
    entry. *)
Definition touchInfo_set (s : RA8875) (i : nat) (t : touchInfo_T)
  : option RA8875 :=
  if decide (i < length (touchInfo s))%nat
  then Some (set_touchInfo (<[i := t]> (touchInfo s)) s)
  else None.

(** The four stores of [FT5206_TouchPositions] for one touch point. *)
Definition FT5206_touch (regs : Z -> Z) (XH XL YH YL : Z) : touchInfo_T :=
  let valXH := FT5206_ReadRegU8 regs XH in
  let valYH := FT5206_ReadRegU8 regs YH in
  mkTouchInfo
    (to_uint8 (Z.shiftr valYH 4))
    (FT5206_EventFlagToTouchCode (Z.shiftr valXH 6))
    (mkPoint
       (to_int16 (Z.land valXH 0x0f * 256 + FT5206_ReadRegU8 regs XL))
       (to_int16 (Z.land valYH 0x0f * 256 + FT5206_ReadRegU8 regs YL))).

(** [FT5206_TouchPositions()]: the return value, the value stored in the
    member [gesture], and the new state. *)
Definition FT5206_TouchPositions (regs : Z -> Z) (s : RA8875)
  : option (Z * Z * RA8875) :=
  let n := Z.land (FT5206_ReadRegU8 regs FT5206_TD_STATUS) 0xF in
  let s := set_numberOfTouchPoints n s in
  let gesture := FT5206_ReadRegU8 regs FT5206_GEST_ID in
  s ← touchInfo_set s 4 (FT5206_touch regs FT5206_TOUCH5_XH FT5206_TOUCH5_XL
                                      FT5206_TOUCH5_YH FT5206_TOUCH5_YL);
  s ← touchInfo_set s 3 (FT5206_touch regs FT5206_TOUCH4_XH FT5206_TOUCH4_XL
                                      FT5206_TOUCH4_YH FT5206_TOUCH4_YL);
  s ← touchInfo_set s 2 (FT5206_touch regs FT5206_TOUCH3_XH FT5206_TOUCH3_XL
                                      FT5206_TOUCH3_YH FT5206_TOUCH3_YL);
  s ← touchInfo_set s 1 (FT5206_touch regs FT5206_TOUCH2_XH FT5206_TOUCH2_XL
                                      FT5206_TOUCH2_YH FT5206_TOUCH2_YL);
  s ← touchInfo_set s 0 (FT5206_touch regs FT5206_TOUCH1_XH FT5206_TOUCH1_XL
                                      FT5206_TOUCH1_YH FT5206_TOUCH1_YL);
  Some (to_uint8 (numberOfTouchPoints s), gesture, s).

Section GSL1680.

(** [GSL1680_TOUCH_POINTS] of the firmware header. *)
Variable GSL1680_TOUCH_POINTS : Z.

(** [TD_SPACE], the size of the local array [touch_data]. *)
Definition TD_SPACE : Z := 4 + 4 * GSL1680_TOUCH_POINTS.

(** The body of the [for] loop of [GSL1680_TouchPositions] for the touch
    point [tNdx], whose four bytes end at [dNdx]. *)
Definition GSL1680_touch (touch_data : list Z) (n : Z) (tNdx dNdx : Z)
  : touchInfo_T :=
  let td (i : Z) := to_uint8 (default 0 (touch_data !! Z.to_nat i)) in
  let fingerAndY := Z.lor (Z.shiftl (td dNdx) 8) (td (dNdx - 1)) in
  let AndX := Z.lor (Z.shiftl (td (dNdx - 2)) 8) (td (dNdx - 3)) in
  mkTouchInfo
    (to_uint8 (Z.shiftr fingerAndY 12))
    (if n >? tNdx then touch else no_touch)
    (mkPoint (to_int16 (Z.land AndX 0x0FFFF))
             (to_int16 (Z.land fingerAndY 0x0FFF))).

(** [for ( ; tNdx >= 0; tNdx--, dNdx -= 4)] with [k = tNdx + 1] passes to
    go. *)
Fixpoint GSL1680_loop (touch_data : list Z) (n : Z) (k : nat) (dNdx : Z)
    (s : RA8875) : option RA8875 :=
  match k with
  | O => Some s
  | S tNdx =>
      s ← touchInfo_set s tNdx
            (GSL1680_touch touch_data n (Z.of_nat tNdx) dNdx);
      GSL1680_loop touch_data n tNdx (dNdx - 4) s
  end.

(** [GSL1680_TouchPositions()].  [irq] is what [m_irq->read()] returns and
    [touch_data] the [TD_SPACE] values the read of register 0x80 delivers
    into the [uint8_t] array.
    The result carries the return value, the value stored in [gesture]
    (if any) and the new state. *)
Definition GSL1680_TouchPositions (irq : Z) (touch_data : list Z)
    (s : RA8875) : option (Z * option Z * RA8875) :=
  if irq =? 0 then
    let n := to_uint8 (default 0 (touch_data !! O)) in
    let s := set_numberOfTouchPoints n s in
    s ← GSL1680_loop touch_data n (Z.to_nat GSL1680_TOUCH_POINTS)
                     (TD_SPACE - 1) s;
    Some (to_uint8 (numberOfTouchPoints s),
          Some FT5206_GEST_ID_NO_GESTURE, s)
  else
    let s := set_numberOfTouchPoints 0 s in
    Some (to_uint8 (numberOfTouchPoints s), None, s).

(** [TouchPanelISR()]: the value stored in [gesture] (if any) and the new
    state. *)
Definition TouchPanelISR (regs : Z -> Z) (irq : Z) (touch_data : list Z)
    (s : RA8875) : option (option Z * RA8875) :=
  match useTouchPanel s with
  | TP_FT5206 =>
      '(n, g, s) ← FT5206_TouchPositions regs s;
      Some (Some g, if negb (n =? 0) then set_panelTouched true s else s)
  | TP_GSL1680 =>
      '(n, g, s) ← GSL1680_TouchPositions irq touch_data s;
      Some (g, if negb (n =? 0) then set_panelTouched true s else s)
  | _ => Some (None, s)
  end.

End GSL1680.

(** A byte. *)
Definition is_byte (v : Z) : Prop := 0 <= v < 256.

(** The byte at index [i] of the array [touch_data] of
    [GSL1680_TouchPositions]. *)
Definition data_byte (touch_data : list Z) (i : Z) : Z :=
  to_uint8 (default 0 (touch_data !! Z.to_nat i)).

(** A capacitive panel with storage for five touch points, and a register
    file of the FT5206 with one touch put down at (300, 200). *)
Definition capacitive_panel : RA8875 :=
  mkRA8875 TP_FT5206 no_touch 0 (mkMatrix 0 0 0 0 0 0 0)
           (replicate 5 (mkTouchInfo 0 no_touch (mkPoint 0 0))) false 0 0
           (replicate 16 0) (replicate 16 0) 0 0.

Definition one_finger (reg : Z) : Z :=
  match reg with
  | 0x02 => 1
  | 0x03 => 0x01
  | 0x04 => 0x2C
  | 0x05 => 0x00
  | 0x06 => 0xC8
  | _ => 0xFF
  end.


(** ** GIF decoder: metrics *)

(** [GetGIFMetrics(imageDescriptor, Name_GIF)] once [fopen] delivered the
    contents of the file, [None] when there is no such file: the return
    code, the descriptor stored through [imageDescriptor] (if any) and the
    display. *)
Definition GetGIFMetrics (file : option FILE) (g : GraphicsDisplay)
  : RetCode_t * option gif_screen_descriptor_t * GraphicsDisplay :=
  let '(ret, g) :=
    if screen_descriptor_isvalid g then (noerror, g)
    else
      match file with
      | Some fh => let '(ret, _, g) := GetGIFHeader fh g in (ret, g)
      | None => (not_supported_format, g)
      end in
  (ret,
   match ret with
   | noerror => Some (screen_descriptor g)
   | _ => None
   end,
   g).

(** ** Notions used to state the properties of the GIF parser *)

(** A chain of data sub-blocks as it lies in a file: every chunk behind
    its size byte.  The chain is closed by a size byte of 0. *)
Definition data_sub_blocks (chunks : list (list Z)) : list Z :=
  concat ((fun c => Z.of_nat (length c) :: c) <$> chunks).

(** The size of the fixed part that [process_gif_extension] reads behind
    the two-byte sub-header of a recognised extension. *)
Definition extension_fixed_size (extension_code : Z) : option Z :=
  if extension_code =? GRAPHIC_CONTROL
  then Some graphic_control_extension_size
  else if extension_code =? APPLICATION_EXTENSION
  then Some application_extension_size
  else if extension_code =? COMMENT_EXTENSION then Some 0
  else if extension_code =? PLAINTEXT_EXTENSION
  then Some plaintext_extension_size
  else None.

(** The calls a run sent to the display, latest first, come in frames:
    a window, one pixel stream at the window's origin, and the restore. *)
Fixpoint well_framed (calls : list sink_call) : bool :=
  match calls with
  | [] => true
  | window_restore :: pixelStream_call _ _ px py
      :: window_call wx wy _ _ :: rest =>
      (px =? wx) && (py =? wy) && well_framed rest
  | _ => false
  end.

(** What a run of the parser leaves of the display [g] in [g']: the
    screen descriptor, its validity flag and the global color table are
    the same, and the calls sent to the display are whole frames put in
    front of the earlier ones. *)
Definition display_extends (g g' : GraphicsDisplay) : Prop :=
  screen_descriptor g' = screen_descriptor g /\
  screen_descriptor_isvalid g' = screen_descriptor_isvalid g /\
  global_color_table g' = global_color_table g /\
  global_color_table_size g' = global_color_table_size g /\
  exists calls, sink g' = calls ++ sink g /\ well_framed calls = true.

(** The color table a fragment is rendered with: [(local_color_table) ?
    local_color_table : global_color_table]. *)
Definition active_color_table (g : GraphicsDisplay) : option (list Z) :=
  match local_color_table g with
  | Some t => Some t
  | None => global_color_table g
  end.


(** The 5-6-5 packing of a 24-bit color. *)
Definition rgb565 (r g b : Z) : Z := 2048 * (r / 8) + 32 * (g / 4) + b / 8.

(** A 1 by 1 GIF89a file with a global color table of two entries whose
    only pixel has index 0. *)
Definition one_pixel_gif : FILE :=
  [0x47; 0x49; 0x46; 0x38; 0x39; 0x61;
   0x01; 0x00; 0x01; 0x00; 0x80; 0x00; 0x00;
   0xFF; 0x80; 0x40;  0x00; 0x00; 0x00;
   0x2C; 0x00; 0x00; 0x00; 0x00; 0x01; 0x00; 0x01; 0x00; 0x00;
   0x02; 0x02; 0x44; 0x01; 0x00;
   0x3B].

(** ** Notions used to state the properties of the decompressor *)

(** The bits of the input as the decoder takes them: byte after byte,
    each from its lowest bit up. *)
Definition byte_bits (b : Z) : list bool :=
  (fun i => Z.testbit b (Z.of_nat i)) <$> seq 0 8.

Definition input_bits (input : list Z) : list bool :=
  mjoin (byte_bits <$> input).

(** The bits the decoder has not taken yet. *)
Definition pending_bits (s : lzw_t) : list bool :=
  drop (Z.to_nat (Z.log2 (mask s))) (input_bits (input s)).

(** A code of [w] bits, lowest bit first, and the number a row of bits
    spells. *)
Definition code_bits (w : nat) (c : Z) : list bool :=
  (fun i => Z.testbit c (Z.of_nat i)) <$> seq 0 w.

Definition bits_value (bs : list bool) : Z :=
  foldr (fun b acc => Z.b2z b + 2 * acc) 0 bs.

(** The codes of an image stored without compression: the clear code in
    front of every pixel, and the stop code at the end. *)
Definition literal_codes (cl : Z) (pixels : list Z) : list Z :=
  mjoin ((fun p => [2 ^ cl; p]) <$> pixels) ++ [2 ^ cl + 1].

(** The first [n] passes of the [while] loop of [uncompress_gif], as long
    as they end in [continue]. *)
Fixpoint lzw_passes (n : nat) (reset_code_length : Z) (s : lzw_t)
  : result lzw_ctl :=
  match n with
  | O => Ok (Continue s)
  | S k =>
      c ← lzw_body reset_code_length s;
      match c with
      | Continue s => lzw_passes k reset_code_length s
      | other => Ok other
      end
  end.



(** A stream whose second clear code is followed by codes that refer to
    entries of the dictionary built before it. *)
Definition stale_code_stream : list Z := [0x84; 0x4F; 0x37].



(** The byte string an entry of the dictionary stands for: the string of
    its predecessor followed by its own byte. *)
Fixpoint entry_string (fuel : nat) (d : dictionary_t) (code : Z) : list Z :=
  match fuel with
  | O => []
  | S k =>
      match dict_get d code with
      | Ok e =>
          (if prev e =? -1 then [] else entry_string k d (prev e)) ++ [byte e]
      | Undefined _ => []
      end
  end.

Definition string_of (d : dictionary_t) (code : Z) : list Z :=
  entry_string (S (Z.to_nat code)) d code.

(** The entries below [ind] are in order: an entry either has no
    predecessor and length 1, or a predecessor at a lower index and one
    more byte than this. *)
Definition entry_ok (d : dictionary_t) (i : Z) (e : dictionary_entry_t)
  : Prop :=
  (prev e = -1 /\ len e = 1) \/
  (0 <= prev e < i /\
   exists e', dict_get d (prev e) = Ok e' /\ len e = len e' + 1).

Definition dictionary_ok (d : dictionary_t) (ind : Z) : Prop :=
  forall i e, 0 <= i < ind -> dict_get d i = Ok e -> entry_ok d i e.

(** The string a code stands for when it is read with [ind] the next free
    index and [p] the previous code: the string of its entry, or, for the
    code of the entry that is only just being added, the string of the
    previous code followed by the first byte of that string. *)
Definition code_string (d : dictionary_t) (ind p code : Z) : list Z :=
  if code =? ind
  then string_of d p ++ [hd 0 (string_of d p)]
  else string_of d code.

(** The decoder of a stream of code size 2 that holds the clear code, the
    code 1, the code 6 and the stop code, after its first two passes:
    the pixel 1 is written, the code 1 is the previous code, and the next
    code is the one of the entry that is about to be added. *)
Definition repeated_pixel_stream : list Z := [0x8C; 0x0B].

Definition repeated_pixel_state : lzw_t :=
  mkLzw 2
    [Some (mkEntry 0 (-1) 1); Some (mkEntry 1 (-1) 1);
     Some (mkEntry 2 (-1) 1); Some (mkEntry 3 (-1) 1);
     None; None; None; None]
    6 1 0x40 repeated_pixel_stream 2 [Some 1; None; None] 1.

(** * Properties *)

(** ** Machine integers *)

Lemma wrap_small (w z : Z) :
  0 < w -> - 2 ^ (w - 1) <= z < 2 ^ (w - 1) -> wrap w z = z.
Proof.
  intros Hw Hz. unfold wrap.
  assert (E : 2 ^ w = 2 * 2 ^ (w - 1)).
  { replace w with (Z.succ (w - 1)) at 1 by lia. apply Z.pow_succ_r. lia. }
  rewrite Z.mod_small; lia.
Qed.

Lemma to_int32_small (z : Z) : in_int32 z -> to_int32 z = z.
Proof. intros H. apply wrap_small; [lia | exact H]. Qed.

Lemma to_int16_small (z : Z) : in_int16 z -> to_int16 z = z.
Proof. intros H. apply wrap_small; [lia | exact H]. Qed.

Lemma wrap_congr (w a b : Z) :
  (a mod 2 ^ w = b mod 2 ^ w) -> wrap w a = wrap w b.
Proof.
  intros H. unfold wrap. f_equal.
  rewrite <- (Zplus_mod_idemp_l a), <- (Zplus_mod_idemp_l b), H. reflexivity.
Qed.

Lemma wrap_mod (w z : Z) : 0 < w -> (wrap w z) mod 2 ^ w = z mod 2 ^ w.
Proof.
  intros Hw. unfold wrap.
  assert (E : 2 ^ w = 2 * 2 ^ (w - 1)).
  { replace w with (Z.succ (w - 1)) at 1 by lia. apply Z.pow_succ_r. lia. }
  assert (P : 0 < 2 ^ (w - 1)) by (apply Z.pow_pos_nonneg; lia).
  rewrite Zminus_mod_idemp_l. f_equal. lia.
Qed.

Lemma wrap_shift (w z : Z) : exists k, wrap w z = z + k * 2 ^ w.
Proof.
  unfold wrap.
  exists (- ((z + 2 ^ (w - 1)) / 2 ^ w)).
  destruct (Z.eq_dec (2 ^ w) 0) as [E | E].
  - rewrite E, Z.mod_0_r. lia.
  - pose proof (Z.div_mod (z + 2 ^ (w - 1)) (2 ^ w) E). lia.
Qed.


Lemma in_int16_int32 (z : Z) : in_int16 z -> in_int32 z.
Proof. unfold in_int16, in_int32. lia. Qed.

(** ** Touch panel: staleness ticker *)

(** C7.  A tick of [_TouchTicker] on any state: when the time since the
    last touch exceeds the 100 ms threshold, the sample counter becomes 0
    and the state becomes [release] if it was [held] and [no_touch]
    otherwise; when the threshold is not exceeded, state and sample
    counter (indeed the whole record) stay as they were. *)
Theorem TouchTicker_staleness (s : RA8875) :
  (timeSinceTouch s > NOTOUCH_TIMEOUT_uS ->
     touchSample (_TouchTicker s) = 0 /\
     (touchState s = held -> touchState (_TouchTicker s) = release) /\
     (touchState s <> held -> touchState (_TouchTicker s) = no_touch)) /\
  (timeSinceTouch s <= NOTOUCH_TIMEOUT_uS -> _TouchTicker s = s).
Proof.
  unfold _TouchTicker. split.
  - intros Hlate.
    destruct (Z.gtb_spec (timeSinceTouch s) NOTOUCH_TIMEOUT_uS) as [_ | Hle];
      [ | lia ].
    repeat split.
    + simpl. destruct (touchState s); reflexivity.
    + intros Hheld. simpl. rewrite Hheld. reflexivity.
    + intros Hother. simpl.
      destruct (touchState s); try reflexivity. contradiction.
  - intros Hfresh.
    destruct (Z.gtb_spec (timeSinceTouch s) NOTOUCH_TIMEOUT_uS) as [Hgt | _];
      [ lia | reflexivity ].
Qed.

Lemma TouchTicker_staleness_witness :
  (touchSample (_TouchTicker stale_held) = 0 /\
   touchState (_TouchTicker stale_held) = release) /\
  _TouchTicker fresh_held = fresh_held.
Proof.
  split.
  - destruct (TouchTicker_staleness stale_held) as [Hlate _].
    destruct Hlate as (Hsample & Hheld & _).
    + unfold stale_held, NOTOUCH_TIMEOUT_uS. simpl. lia.
    + split; [exact Hsample | apply Hheld; reflexivity].
  - destruct (TouchTicker_staleness fresh_held) as [_ Hfresh].
    apply Hfresh. unfold fresh_held, NOTOUCH_TIMEOUT_uS. simpl. lia.
Defined.

(** ** Touch panel: channel accessors *)

Section ChannelAccess.

Variable GSL1680_TOUCH_POINTS : Z.

Abbreviation channels := (TouchChannels GSL1680_TOUCH_POINTS).
Abbreviation index := (channel_index GSL1680_TOUCH_POINTS).

Lemma channel_index_clamped (s : RA8875) (channel : Z) :
  channel >= channels s -> index s channel = 0.
Proof.
  intros H. unfold channel_index.
  destruct (Z.geb_spec channel (channels s)); [reflexivity | lia].
Qed.

Lemma channel_index_kept (s : RA8875) (channel : Z) :
  channel < channels s -> index s channel = channel.
Proof.
  intros H. unfold channel_index.
  destruct (Z.geb_spec channel (channels s)); [lia | reflexivity].
Qed.

Lemma channel_index_range (s : RA8875) (channel : Z) :
  0 <= channel ->
  0 <= index s channel < Z.max 1 (channels s).
Proof.
  intros H. unfold channel_index.
  destruct (Z.geb_spec channel (channels s)); lia.
Qed.

Lemma touchInfo_at_Some (s : RA8875) (i : Z) :
  0 <= i < Z.of_nat (length (touchInfo s)) ->
  exists t, touchInfo_at s i = Some t.
Proof.
  intros H. unfold touchInfo_at.
  destruct (Z.ltb_spec i 0); [lia | ].
  destruct (lookup_lt_is_Some_2 (touchInfo s) (Z.to_nat i)) as [t Ht];
    [lia | ].
  exists t. exact Ht.
Qed.

(** C10.  For every channel argument (a [uint8_t], so not negative) the
    index used to subscript [touchInfo] lies below the number of
    channels, or is 0; an argument at or above [TouchChannels()] is
    clamped to 0 and the three accessors return the data of channel 0.
    With storage for the channels in [touchInfo] (at least one entry),
    each accessor returns a value. *)
Theorem channel_accessors_total (s : RA8875) (channel : Z) :
  0 <= channel ->
  Z.max 1 (channels s) <= Z.of_nat (length (touchInfo s)) ->
  0 <= index s channel < Z.of_nat (length (touchInfo s)) /\
  (index s channel < channels s \/ index s channel = 0) /\
  (channel >= channels s ->
     index s channel = 0 /\
     TouchID GSL1680_TOUCH_POINTS s channel = touchID <$> touchInfo s !! O /\
     TouchCode GSL1680_TOUCH_POINTS s channel = touchCode <$> touchInfo s !! O /\
     TouchCoordinates GSL1680_TOUCH_POINTS s channel
       = coordinates <$> touchInfo s !! O) /\
  (exists id code point,
     TouchID GSL1680_TOUCH_POINTS s channel = Some id /\
     TouchCode GSL1680_TOUCH_POINTS s channel = Some code /\
     TouchCoordinates GSL1680_TOUCH_POINTS s channel = Some point).
Proof.
  intros Hc Hstore.
  pose proof (channel_index_range s channel Hc) as Hrange.
  assert (Hin : 0 <= index s channel < Z.of_nat (length (touchInfo s)))
    by lia.
  split; [exact Hin | ].
  split.
  { destruct (Z_lt_ge_dec channel (channels s)) as [Hlt | Hge].
    - left. rewrite channel_index_kept by exact Hlt. exact Hlt.
    - right. apply channel_index_clamped. exact Hge. }
  split.
  { intros Hge. pose proof (channel_index_clamped s channel Hge) as E.
    split; [exact E | ].
    unfold TouchID, TouchCode, TouchCoordinates. rewrite E.
    unfold touchInfo_at. simpl. auto. }
  destruct (touchInfo_at_Some s (index s channel) Hin) as [t Ht].
  exists (touchID t), (touchCode t), (coordinates t).
  unfold TouchID, TouchCode, TouchCoordinates. rewrite Ht. auto.
Qed.

End ChannelAccess.

Lemma channel_accessors_total_witness :
  TouchID 10 resistive_panel 200 = Some 3 /\
  TouchCode 10 resistive_panel 200 = Some held /\
  TouchCoordinates 10 resistive_panel 200 = Some (mkPoint 120 45).
Proof.
  assert (Hc : 0 <= 200) by lia.
  assert (Hstore : Z.max 1 (TouchChannels 10 resistive_panel)
                   <= Z.of_nat (length (touchInfo resistive_panel)))
    by (unfold TouchChannels, resistive_panel; simpl; lia).
  destruct (channel_accessors_total 10 resistive_panel 200 Hc Hstore)
    as (_ & _ & Hclamp & _).
  destruct Hclamp as (_ & Hid & Hcode & Hpoint);
    [unfold TouchChannels, resistive_panel; simpl; lia | ].
  rewrite Hid, Hcode, Hpoint. repeat split.
Defined.

(** ** Touch panel: calibration solver *)


Lemma ComputeCalibration_failure
    (displayPtr screenPtr : points3) (matrixPtr : option tpMatrix_t)
    (s : RA8875) :
  compute_Divider screenPtr = 0 ->
  TouchPanelComputeCalibration displayPtr screenPtr matrixPtr s
  = (bad_parameter, set_tpMatrix (set_Divider 0 (tpMatrix s)) s, matrixPtr).
Proof.
  intros H. unfold TouchPanelComputeCalibration. simpl. rewrite H. reflexivity.
Qed.


(** C2 (as amended).  When the computed divider is 0,
    [TouchPanelComputeCalibration] returns [bad_parameter], does not write
    the caller's matrix, and leaves the touch state and the six
    coefficients [An] .. [Fn] of the stored matrix as they were; the
    stored [Divider] is overwritten with the computed 0. *)
Theorem failed_calibration_keeps_coefficients
    (displayPtr screenPtr : points3) (matrixPtr : option tpMatrix_t)
    (s : RA8875) :
  compute_Divider screenPtr = 0 ->
  let '(rc, s', m') :=
    TouchPanelComputeCalibration displayPtr screenPtr matrixPtr s in
  rc = bad_parameter /\
  m' = matrixPtr /\
  touchState s' = touchState s /\
  An (tpMatrix s') = An (tpMatrix s) /\
  Bn (tpMatrix s') = Bn (tpMatrix s) /\
  Cn (tpMatrix s') = Cn (tpMatrix s) /\
  Dn (tpMatrix s') = Dn (tpMatrix s) /\
  En (tpMatrix s') = En (tpMatrix s) /\
  Fn (tpMatrix s') = Fn (tpMatrix s) /\
  Divider (tpMatrix s') = 0.
Proof.
  intros H. rewrite ComputeCalibration_failure by exact H.
  simpl. repeat split.
Qed.

Lemma failed_calibration_keeps_coefficients_witness :
  let '(rc, s', m') :=
    TouchPanelComputeCalibration targets collinear_samples None
                                 calibrated_panel in
  rc = bad_parameter /\ m' = None /\ touchState s' = held /\
  An (tpMatrix s') = 1 /\ Fn (tpMatrix s') = 6 /\ Divider (tpMatrix s') = 0.
Proof.
  pose proof (failed_calibration_keeps_coefficients
                targets collinear_samples None calibrated_panel) as H.
  destruct (TouchPanelComputeCalibration targets collinear_samples None
                                         calibrated_panel) as [[rc s'] m'].
  destruct H as (Hrc & Hm & Hst & HA & _ & _ & _ & _ & HF & HD);
    [reflexivity | ].
  repeat split; assumption.
Defined.

(** C2 (as stated) fails: with a valid matrix stored (its [Divider] is 7),
    three collinear sample points make the solver return [bad_parameter]
    and leave 0 in the stored [Divider]. *)
Lemma failed_calibration_clobbers_Divider :
  let '(rc, s', _) :=
    TouchPanelComputeCalibration targets collinear_samples None
                                 calibrated_panel in
  compute_Divider collinear_samples = 0 /\
  rc = bad_parameter /\
  Divider (tpMatrix calibrated_panel) = 7 /\
  Divider (tpMatrix s') = 0 /\
  tpMatrix s' <> tpMatrix calibrated_panel.
Proof.
  vm_compute. repeat split; try reflexivity. discriminate.
Qed.



(** ** Touch panel: solve, then apply *)






Lemma ten_bit_Divider_fits (s0 s1 s2 : point_t) :
  ten_bit s0 -> ten_bit s1 -> ten_bit s2 ->
  - 2093058 <= Divider_exact (s0, s1, s2) <= 2093058.
Proof.
  unfold ten_bit, Divider_exact. intros H0 H1 H2.
  assert (A : - 1046529 <= (x s0 - x s2) * (y s1 - y s2) <= 1046529) by nia.
  assert (B : - 1046529 <= (x s1 - x s2) * (y s0 - y s2) <= 1046529) by nia.
  lia.
Qed.

Lemma ten_bit_fits_display (s0 s1 s2 d : point_t) :
  ten_bit s0 -> ten_bit s1 -> ten_bit s2 -> ten_bit d ->
  in_int32 (Divider_exact (s0, s1, s2)) /\
  fits_display (Divider_exact (s0, s1, s2)) d.
Proof.
  intros H0 H1 H2 [Hx Hy].
  pose proof (ten_bit_Divider_fits s0 s1 s2 H0 H1 H2) as HD.
  unfold fits_display, in_int32, in_int16.
  repeat split; try lia; nia.
Qed.


(** ** Touch panel: runtime *)

(** The filter touches neither the calibration matrix nor [touchInfo],
    the panel selection or the [panelTouched] flag. *)
Lemma A2DFiltered_frame (chip : chip_t) (xy : Z * Z) (s : RA8875)
    (ts : TouchCode_t) (p : Z * Z) (s1 : RA8875) :
  TouchPanelA2DFiltered chip xy s = Some (ts, p, s1) ->
  tpMatrix s1 = tpMatrix s /\ touchInfo s1 = touchInfo s /\
  useTouchPanel s1 = useTouchPanel s /\ panelTouched s1 = panelTouched s.
Proof.
  destruct s as [tp st n m info pt np tm xb0 yb0 lx ly].
  unfold TouchPanelA2DFiltered.
  cbn -[InsertionSort middle_sum average to_int32 array_set Z.eqb Z.land].
  destruct (negb (Z.land (INTC2 chip) RA8875_INT_TP =? 0)).
  - destruct (array_set yb0 n (sample_y chip)) as [yb | ]; [ | discriminate ].
    destruct (array_set xb0 n (sample_x chip)) as [xb | ]; [ | discriminate ].
    cbn -[InsertionSort middle_sum average to_int32 Z.eqb].
    destruct (to_int32 (n + 1) =? TPBUFSIZE);
      destruct st; intros H; injection H as <- <- <-; repeat split.
  - destruct st; intros H; injection H as <- <- <-; repeat split.
Qed.

(** The branch of [TouchPanelReadable] for the resistive panel, once the
    filter has delivered a sample pair. *)
Lemma Readable_resistive (chip : chip_t) (TouchPoint : option point_t)
    (s : RA8875) (t0 : touchInfo_T) (ts : TouchCode_t) (a b : Z)
    (s1 : RA8875) :
  useTouchPanel s = TP_RES ->
  touchInfo s !! O = Some t0 ->
  TouchPanelA2DFiltered chip (0, 0) s = Some (ts, (a, b), s1) ->
  ts <> no_touch ->
  let m := tpMatrix s in
  let t0' :=
    if Divider m =? 0
    then mkTouchInfo 0 no_cal (coordinates t0)
    else mkTouchInfo 0 ts (display_point m a b) in
  exists s2,
    TouchPanelReadable chip TouchPoint s
    = Some (match TouchPoint with
            | Some _ => touchCode t0'
            | None => touch
            end,
            match TouchPoint with
            | Some _ => Some (coordinates t0')
            | None => None
            end, s2) /\
    touchInfo s2 !! O = Some t0' /\
    tpMatrix s2 = m.
Proof.
  intros Hres Ht0 Hfilter Hts m t0'.
  destruct (A2DFiltered_frame chip (0, 0) s ts (a, b) s1 Hfilter)
    as (Hm & Hinfo & _).
  unfold TouchPanelReadable. rewrite Hres, Ht0.
  cbn [mbind option_bind]. rewrite Hfilter. cbn [mbind option_bind].
  assert (Hne : negb (TouchCode_eqb ts no_touch) = true)
    by (destruct ts; try reflexivity; contradiction).
  rewrite Hne.
  cbn [tpMatrix set_numberOfTouchPoints set_panelTouched].
  rewrite Hm. fold m.
  assert (Hlen : (0 < length (touchInfo s1))%nat).
  { rewrite Hinfo. apply lookup_lt_Some in Ht0. exact Ht0. }
  subst t0'.
  destruct (Z.eqb_spec (Divider m) 0) as [Hz | Hnz];
    cbn -[display_point lookup insert];
    destruct TouchPoint; cbn -[display_point lookup insert];
    rewrite ?list_lookup_insert_eq by exact Hlen;
    cbn -[display_point lookup insert];
    eexists; (split; [reflexivity | ]);
    cbn -[display_point lookup insert];
    (split; [apply list_lookup_insert_eq; exact Hlen | exact Hm]).
Qed.

(** C4 (as amended).  On the resistive panel, for every sample pair
    [(a, b)] the filter delivers: while the stored [Divider] is 0,
    [TouchPanelReadable] leaves the coordinates of [touchInfo[0]] as they
    were (nothing is divided), records [no_cal] as its touch code and
    returns [no_cal] when the caller passes a [TouchPoint] ([touch] when
    it passes none); with a [Divider] other than 0 it stores the point
    [display_point], whose coordinates are
    [(An*a + Bn*b + Cn) / Divider] and [(Dn*a + En*b + Fn) / Divider]
    with the quotient truncated toward zero, whenever the numerators fit
    32 bits and the quotients fit [loc_t]. *)
Theorem Readable_uses_calibration (chip : chip_t)
    (TouchPoint : option point_t) (s : RA8875) (t0 : touchInfo_T)
    (ts : TouchCode_t) (a b : Z) (s1 : RA8875) :
  useTouchPanel s = TP_RES ->
  touchInfo s !! O = Some t0 ->
  TouchPanelA2DFiltered chip (0, 0) s = Some (ts, (a, b), s1) ->
  ts <> no_touch ->
  let m := tpMatrix s in
  let numX := An m * a + Bn m * b + Cn m in
  let numY := Dn m * a + En m * b + Fn m in
  exists ret point s2 t0',
    TouchPanelReadable chip TouchPoint s = Some (ret, point, s2) /\
    touchInfo s2 !! O = Some t0' /\
    (Divider m = 0 ->
       coordinates t0' = coordinates t0 /\
       touchCode t0' = no_cal /\
       ret = match TouchPoint with Some _ => no_cal | None => touch end) /\
    (Divider m <> 0 ->
       coordinates t0' = display_point m a b /\
       (in_int32 numX -> in_int16 (Z.quot numX (Divider m)) ->
          x (coordinates t0') = Z.quot numX (Divider m)) /\
       (in_int32 numY -> in_int16 (Z.quot numY (Divider m)) ->
          y (coordinates t0') = Z.quot numY (Divider m))).
Proof.
  intros Hres Ht0 Hfilter Hts m numX numY.
  destruct (Readable_resistive chip TouchPoint s t0 ts a b s1
              Hres Ht0 Hfilter Hts) as (s2 & Hrun & Hinfo & _).
  fold m in Hrun, Hinfo.
  eexists _, _, s2, _. split; [exact Hrun | ].
  split; [exact Hinfo | ].
  split.
  - intros Hz. rewrite Hz. simpl. repeat split.
  - intros Hnz.
    destruct (Z.eqb_spec (Divider m) 0) as [Hz | _]; [contradiction | ].
    cbn [coordinates]. split; [reflexivity | ].
    unfold display_point. cbn [x y]. fold numX numY.
    split; intros Hnum Hq.
    + rewrite (to_int32_small numX) by exact Hnum.
      rewrite to_int32_small by (apply in_int16_int32; exact Hq).
      apply to_int16_small. exact Hq.
    + rewrite (to_int32_small numY) by exact Hnum.
      rewrite to_int32_small by (apply in_int16_int32; exact Hq).
      apply to_int16_small. exact Hq.
Qed.

Lemma Readable_uses_calibration_witness :
  (exists s2,
     TouchPanelReadable pending_chip (Some (mkPoint 0 0)) uncalibrated_panel
     = Some (no_cal, Some (mkPoint 11 22), s2)) /\
  (exists s2,
     TouchPanelReadable pending_chip (Some (mkPoint 0 0)) identity_panel
     = Some (touch, Some (mkPoint 900 (-450)), s2)).
Proof.
  split.
  - destruct (Readable_uses_calibration pending_chip (Some (mkPoint 0 0))
                uncalibrated_panel (mkTouchInfo 0 no_touch (mkPoint 11 22))
                touch 900 450
                (set_touchSample 0
                   (set_touchState touch
                      (set_last 900 450 uncalibrated_panel))))
      as (ret & point & s2 & t0' & Hrun & _);
      [reflexivity | reflexivity | reflexivity | discriminate | ].
    exists s2. rewrite Hrun. vm_compute in Hrun.
    injection Hrun as <- <- _. reflexivity.
  - destruct (Readable_uses_calibration pending_chip (Some (mkPoint 0 0))
                identity_panel (mkTouchInfo 0 no_touch (mkPoint 11 22))
                touch 900 450
                (set_touchSample 0
                   (set_touchState touch
                      (set_last 900 450 identity_panel))))
      as (ret & point & s2 & t0' & Hrun & _);
      [reflexivity | reflexivity | reflexivity | discriminate | ].
    exists s2. rewrite Hrun. vm_compute in Hrun.
    injection Hrun as <- <- _. reflexivity.
Defined.

(** C4 (as stated) fails: with [Divider == 0] and a sample pair delivered
    by the filter (here: the sample that completes the window), a call
    without a [TouchPoint] returns [touch], not [no_cal]. *)
Lemma Readable_without_point_reports_touch :
  Divider (tpMatrix uncalibrated_panel) = 0 /\
  (exists s1,
     TouchPanelA2DFiltered pending_chip (0, 0) uncalibrated_panel
     = Some (touch, (900, 450), s1)) /\
  (exists s2,
     TouchPanelReadable pending_chip None uncalibrated_panel
     = Some (touch, None, s2)) /\
  touch <> no_cal.
Proof.
  split; [reflexivity | ].
  split; [eexists; vm_compute; reflexivity | ].
  split; [eexists; vm_compute; reflexivity | discriminate].
Qed.

(** ** Touch panel: sample filter *)

Lemma buf_get_middle (pre post : list Z) (a : Z) (j : nat) :
  length pre = j -> buf_get (pre ++ a :: post) j = a.
Proof.
  intros H. unfold buf_get.
  rewrite list_lookup_middle by (symmetry; exact H). reflexivity.
Qed.

Lemma insert_middle (pre post : list Z) (a v : Z) (j : nat) :
  length pre = j -> <[j := v]> (pre ++ a :: post) = pre ++ v :: post.
Proof.
  intros <-. rewrite insert_app_r_alt by lia.
  rewrite Nat.sub_diag. reflexivity.
Qed.

Lemma insert_after (pre post : list Z) (a slot v : Z) (j : nat) :
  length pre = j ->
  <[S j := v]> (pre ++ a :: slot :: post) = pre ++ a :: v :: post.
Proof.
  intros <-. rewrite insert_app_r_alt by lia.
  replace (S (length pre) - length pre)%nat with 1%nat by lia. reflexivity.
Qed.

(** The inner loop inserts [temp] into the sorted prefix that precedes the
    free slot and leaves the rest of the array alone. *)
Lemma insertion_inner_spec (j : nat) :
  forall (pre : list Z) (slot : Z) (post : list Z) (temp : Z),
    length pre = j ->
    StronglySorted Z.le pre ->
    exists l,
      insertion_inner (pre ++ slot :: post) temp j = l ++ post /\
      l ≡ₚ temp :: pre /\
      StronglySorted Z.le l.
Proof.
  induction j as [ | j IH]; intros pre slot post temp Hlen Hsorted.
  - destruct pre; [ | discriminate]. exists [temp].
    repeat split; [reflexivity | repeat constructor].
  - destruct (exists_last (l := pre)) as (pre' & a & ->).
    { intros ->. discriminate. }
    rewrite length_app in Hlen. simpl in Hlen.
    assert (Hj : length pre' = j) by lia.
    assert (Hbelow : forall v, v ∈ pre' -> v <= a).
    { intros v Hv.
      apply (StronglySorted_app_1_elem_of Z.le pre' [a] v a Hsorted Hv).
      apply list_elem_of_singleton. reflexivity. }
    pose proof (StronglySorted_app_1_l _ _ _ Hsorted) as Hpre'.
    cbn [insertion_inner].
    rewrite <- (app_assoc pre' [a]). cbn [app].
    rewrite (buf_get_middle pre' (slot :: post) a j Hj).
    rewrite !(insert_after pre' post a slot _ j Hj).
    destruct (Z.gtb_spec a temp) as [Hgt | Hle].
    +
      destruct (IH pre' a (a :: post) temp Hj Hpre')
        as (l0 & Hrun & Hperm & Hs0).
      exists (l0 ++ [a]). rewrite Hrun, <- app_assoc. split; [reflexivity | ].
      split.
      * rewrite Hperm. cbn [app]. reflexivity.
      * apply StronglySorted_app_2; [ | exact Hs0 | repeat constructor].
        intros v1 v2 H1 H2. apply list_elem_of_singleton in H2. subst v2.
        rewrite Hperm in H1. apply elem_of_cons in H1.
        destruct H1 as [-> | H1]; [lia | apply Hbelow; exact H1].
    + exists ((pre' ++ [a]) ++ [temp]).
      split; [rewrite <- !app_assoc; reflexivity | ].
      split.
      * symmetry. apply Permutation_cons_append.
      * apply StronglySorted_app_2; [ | exact Hsorted | repeat constructor].
        intros v1 v2 H1 H2. apply list_elem_of_singleton in H2. subst v2.
        apply elem_of_app in H1. destruct H1 as [H1 | H1].
        -- specialize (Hbelow v1 H1). lia.
        -- apply list_elem_of_singleton in H1. subst v1. lia.
Qed.

(** After the passes [i = 1 .. k] the first [k + 1] entries are the
    sorted rearrangement of the first [k + 1] entries of the input. *)
Lemma InsertionSort_passes (orig : list Z) (k : nat) :
  (k < length orig)%nat ->
  exists l,
    fold_left (fun b i => insertion_inner b (buf_get b i) i) (seq 1 k) orig
    = l ++ drop (S k) orig /\
    l ≡ₚ take (S k) orig /\
    StronglySorted Z.le l.
Proof.
  induction k as [ | k IH]; intros Hk.
  - destruct orig as [ | a rest]; [simpl in Hk; lia | ].
    exists [a]. repeat split; [reflexivity | repeat constructor].
  - destruct IH as (l & Hrun & Hperm & Hs); [lia | ].
    rewrite seq_S, fold_left_app, Hrun. cbn [fold_left Nat.add].
    assert (Hl : length l = S k).
    { rewrite Hperm, length_take. lia. }
    destruct (lookup_lt_is_Some_2 orig (S k) Hk) as [v Hv].
    rewrite (drop_S orig v (S k) Hv).
    rewrite (buf_get_middle l (drop (S (S k)) orig) v (S k) Hl).
    destruct (insertion_inner_spec (S k) l v (drop (S (S k)) orig) v Hl Hs)
      as (l' & Hrun' & Hperm' & Hs').
    exists l'. split; [exact Hrun' | ]. split; [ | exact Hs'].
    rewrite Hperm', Hperm, (take_S_r orig (S k) v Hv).
    apply Permutation_cons_append.
Qed.

(** [InsertionSort] sorts: applied to a whole array it returns the
    ascending rearrangement of its contents. *)
Lemma InsertionSort_sorts (buf : list Z) :
  InsertionSort buf (Z.of_nat (length buf)) ≡ₚ buf /\
  StronglySorted Z.le (InsertionSort buf (Z.of_nat (length buf))).
Proof.
  unfold InsertionSort. rewrite Nat2Z.id.
  destruct buf as [ | a rest]; [split; [reflexivity | constructor] | ].
  cbn [length]. rewrite Nat.sub_1_r. cbn [Nat.pred].
  destruct (InsertionSort_passes (a :: rest) (length rest)) as (l & -> & Hp & Hs);
    [simpl; lia | ].
  rewrite drop_ge by (simpl; lia). rewrite app_nil_r.
  rewrite take_ge in Hp by (simpl; lia).
  split; assumption.
Qed.

Lemma to_int32_add_l (a b : Z) : to_int32 (to_int32 a + b) = to_int32 (a + b).
Proof.
  unfold to_int32. apply wrap_congr.
  destruct (wrap_shift 32 a) as [k ->].
  replace (a + k * 2 ^ 32 + b) with (a + b + k * 2 ^ 32) by ring.
  apply Z_mod_plus_full.
Qed.

(** The summation loop of the filter runs over the nine entries at the
    indices 3 to 11 of the sorted window. *)
Lemma middle_sum_nine (b0 b1 b2 b3 b4 b5 b6 b7 b8 b9 b10 b11 b12 b13 b14 b15 : Z) :
  middle_sum [b0; b1; b2; b3; b4; b5; b6; b7; b8; b9; b10; b11; b12; b13;
              b14; b15]
  = to_int32 (b3 + b4 + b5 + b6 + b7 + b8 + b9 + b10 + b11).
Proof.
  unfold middle_sum.
  change (Z.to_nat (TPBUFSIZE / 4 - 1)) with 3%nat.
  change (Z.to_nat (TPBUFSIZE - TPBUFSIZE / 4)) with 12%nat.
  cbn [Nat.sub seq fold_left buf_get lookup list_lookup default from_option
       id].
  rewrite (to_int32_add_l (0 + b3) b4).
  rewrite (to_int32_add_l (0 + b3 + b4) b5).
  rewrite (to_int32_add_l (0 + b3 + b4 + b5) b6).
  rewrite (to_int32_add_l (0 + b3 + b4 + b5 + b6) b7).
  rewrite (to_int32_add_l (0 + b3 + b4 + b5 + b6 + b7) b8).
  rewrite (to_int32_add_l (0 + b3 + b4 + b5 + b6 + b7 + b8) b9).
  rewrite (to_int32_add_l (0 + b3 + b4 + b5 + b6 + b7 + b8 + b9) b10).
  rewrite (to_int32_add_l (0 + b3 + b4 + b5 + b6 + b7 + b8 + b9 + b10) b11).
  rewrite Z.add_0_l. reflexivity.
Qed.

Lemma array_set_inside (buf : list Z) (i v : Z) :
  0 <= i < Z.of_nat (length buf) ->
  array_set buf i v = Some (<[Z.to_nat i := v]> buf).
Proof.
  intros H. unfold array_set.
  destruct (Z.leb_spec 0 i); [ | lia].
  destruct (Z.ltb_spec i (Z.of_nat (length buf))); [reflexivity | lia].
Qed.

(** The poll that completes a window of [TPBUFSIZE] samples reports, per
    axis, the sum of nine sorted samples divided by eight. *)
Lemma A2DFiltered_full_window (chip : chip_t) (xy : Z * Z) (s : RA8875) :
  Z.land (INTC2 chip) RA8875_INT_TP <> 0 ->
  touchSample s = TPBUFSIZE - 1 ->
  length (xbuf s) = Z.to_nat TPBUFSIZE ->
  length (ybuf s) = Z.to_nat TPBUFSIZE ->
  let xw := InsertionSort (<[15%nat := sample_x chip]> (xbuf s)) TPBUFSIZE in
  let yw := InsertionSort (<[15%nat := sample_y chip]> (ybuf s)) TPBUFSIZE in
  exists ret s',
    TouchPanelA2DFiltered chip xy s
    = Some (ret, (average (middle_sum xw), average (middle_sum yw)), s') /\
    xbuf s' = xw /\ ybuf s' = yw /\ touchSample s' = 0 /\
    xw ≡ₚ <[15%nat := sample_x chip]> (xbuf s) /\ StronglySorted Z.le xw /\
    yw ≡ₚ <[15%nat := sample_y chip]> (ybuf s) /\ StronglySorted Z.le yw.
Proof.
  intros Hpending Hsample Hx Hy xw yw.
  destruct s as [tp st n m info pt np tm xb0 yb0 lx ly].
  cbn [touchSample xbuf ybuf] in *. subst n.
  unfold TouchPanelA2DFiltered.
  destruct (Z.eqb_spec (Z.land (INTC2 chip) RA8875_INT_TP) 0) as [E | _];
    [contradiction | ].
  cbn -[InsertionSort middle_sum average to_int32 array_set Z.eqb Z.land
        TPBUFSIZE].
  rewrite (array_set_inside yb0 (TPBUFSIZE - 1) (sample_y chip))
    by (rewrite Hy; vm_compute; split; congruence).
  rewrite (array_set_inside xb0 (TPBUFSIZE - 1) (sample_x chip))
    by (rewrite Hx; vm_compute; split; congruence).
  cbn [mbind option_bind].
  change (to_int32 (TPBUFSIZE - 1 + 1) =? TPBUFSIZE) with true.
  cbv iota.
  change (Z.to_nat (TPBUFSIZE - 1)) with 15%nat.
  fold xw yw.
  assert (Hxs := InsertionSort_sorts (<[15%nat := sample_x chip]> xb0)).
  assert (Hys := InsertionSort_sorts (<[15%nat := sample_y chip]> yb0)).
  rewrite length_insert, Hx in Hxs. rewrite length_insert, Hy in Hys.
  rewrite Z2Nat.id in Hxs, Hys by (vm_compute; congruence).
  fold xw in Hxs. fold yw in Hys.
  destruct Hxs, Hys.
  destruct st; eexists _, _; (split; [reflexivity | ]);
    cbn [xbuf ybuf touchSample set_touchSample set_touchState set_last
         set_xbuf set_ybuf]; repeat split; assumption.
Qed.

(** C8, at the failing input.  Sixteen pending samples with x between
    472 and 532 and y constantly 400 fill the window.  The poll that
    completes it sorts both buffers ascending, but sums the nine samples
    at the sorted indices 3 to 11 and divides by eight: it reports
    (562, 450), where the mean of the middle eight samples is
    (502, 400). *)
Theorem filter_averages_nine_samples :
  sample_x <$> noisy_touch
    = [520; 480; 500; 512; 488; 508; 484; 516;
       492; 504; 496; 524; 476; 528; 472; 532] /\
  sample_y <$> noisy_touch = replicate 16 400 /\
  (exists s',
     poll_window noisy_touch (no_touch, (0, 0), idle_panel)
     = Some (touch, (562, 450), s') /\
     xbuf s' = [472; 476; 480; 484; 488; 492; 496; 500;
                504; 508; 512; 516; 520; 524; 528; 532]) /\
  trimmed_mean (sample_x <$> noisy_touch) = 502 /\
  trimmed_mean (sample_y <$> noisy_touch) = 400.
Proof.
  split; [reflexivity | ].
  split; [reflexivity | ].
  split; [eexists; split; vm_compute; reflexivity | ].
  split; vm_compute; reflexivity.
Qed.

(** ** GIF decoder: clear code *)

Lemma init_dictionary_length (n : nat) (d : dictionary_t) :
  length (init_dictionary n d) = length d.
Proof.
  induction n as [ | n IH]; cbn [init_dictionary]; [reflexivity | ].
  rewrite length_insert. exact IH.
Qed.

Lemma init_dictionary_lookup (n : nat) (d : dictionary_t) (i : nat) :
  (i < n)%nat -> (n <= length d)%nat ->
  init_dictionary n d !! i
  = Some (Some (mkEntry (to_uint8 (Z.of_nat i)) (-1) 1)).
Proof.
  induction n as [ | n IH]; intros Hi Hn; [lia | ].
  cbn [init_dictionary]. destruct (Nat.eq_dec i n) as [-> | Hne].
  - apply list_lookup_insert_eq. rewrite init_dictionary_length. lia.
  - rewrite list_lookup_insert_ne by congruence. apply IH; lia.
Qed.

Lemma init_dictionary_lookup_above (n : nat) (d : dictionary_t) (i : nat) :
  (n <= i)%nat -> init_dictionary n d !! i = d !! i.
Proof.
  induction n as [ | n IH]; intros Hi; [reflexivity | ].
  cbn [init_dictionary]. rewrite list_lookup_insert_ne by lia. apply IH. lia.
Qed.

Lemma shiftl_1_pow (n : Z) : 0 <= n -> Z.shiftl 1 n = 2 ^ n.
Proof. intros H. rewrite Z.shiftl_1_l. reflexivity. Qed.

(** The dictionary right behind a clear code: [2^(cl+1)] cells, the
    first [2^cl] of them holding single-byte entries. *)
Lemma cleared_dictionary_get (cl : Z) (d : dictionary_t) (i : Z) :
  0 <= cl -> 0 <= i < 2 ^ cl ->
  dict_get (init_dictionary (Z.to_nat (Z.shiftl 1 cl))
              (realloc d (Z.shiftl 1 (cl + 1)))) i
  = Ok (mkEntry (to_uint8 i) (-1) 1).
Proof.
  intros Hcl Hi. unfold dict_get, realloc.
  destruct (Z.ltb_spec i 0) as [Hneg | _]; [lia | ].
  rewrite !shiftl_1_pow by lia.
  assert (Hpow : 2 ^ (cl + 1) = 2 * 2 ^ cl) by (rewrite Z.pow_add_r; lia).
  rewrite init_dictionary_lookup.
  - rewrite Z2Nat.id by lia. reflexivity.
  - lia.
  - rewrite length_resize. lia.
Qed.

(** Reading a code moves the input cursor only. *)
Lemma read_bit_frame (i code : Z) (s : lzw_t) (code' : Z) (s' : lzw_t) :
  read_bit i code s = Ok (code', s') ->
  code_length s' = code_length s /\ dictionary s' = dictionary s /\
  dictionary_ind s' = dictionary_ind s /\ prev_code s' = prev_code s /\
  out s' = out s /\ out_pos s' = out_pos s.
Proof.
  unfold read_bit. destruct (input s) as [ | b rest]; [discriminate | ].
  destruct (Z.shiftl (mask s) 1 =? 256); intros H; injection H as <- <-;
    repeat split.
Qed.

Lemma read_code_frame (n : nat) (i code : Z) (s : lzw_t)
    (code' : Z) (s' : lzw_t) :
  read_code n i code s = Ok (code', s') ->
  code_length s' = code_length s /\ dictionary s' = dictionary s /\
  dictionary_ind s' = dictionary_ind s /\ prev_code s' = prev_code s /\
  out s' = out s /\ out_pos s' = out_pos s.
Proof.
  revert i code s. induction n as [ | n IH]; intros i code s; simpl.
  - intros H. injection H as <- <-. repeat split.
  - destruct (read_bit i code s) as [[c1 s1] | f] eqn:E; [ | discriminate].
    simpl. intros H.
    destruct (read_bit_frame _ _ _ _ _ E) as (A1 & A2 & A3 & A4 & A5 & A6).
    destruct (IH _ _ _ H) as (B1 & B2 & B3 & B4 & B5 & B6).
    repeat split; congruence.
Qed.




(** ** GIF decoder: the loops end *)

Lemma read_bit_cursor (i code : Z) (s : lzw_t) (code' : Z) (s' : lzw_t) :
  cursor_ok s ->
  read_bit i code s = Ok (code', s') ->
  cursor_ok s' /\ bits_left s' = bits_left s - 1.
Proof.
  intros (p & Hp & Hm & Hnil). unfold read_bit, bits_left.
  destruct (input s) as [ | b rest] eqn:Ein; [discriminate | ].
  rewrite Hm. rewrite (Z.shiftl_mul_pow2 (2 ^ p) 1) by lia.
  replace (2 ^ p * 2 ^ 1) with (2 ^ (p + 1))
    by (rewrite Z.pow_add_r by lia; reflexivity).
  destruct (Z.eqb_spec (2 ^ (p + 1)) 256) as [E | E];
    intros H; injection H as <- <-; cbn [mask input].
  - assert (p = 7).
    { change 256 with (2 ^ 8) in E. apply Z.pow_inj_r in E; lia. }
    subst p. split.
    + exists 0. repeat split; lia.
    + cbn [length]. rewrite Z.log2_pow2 by lia.
      change (Z.log2 1) with 0. lia.
  - assert (p <> 7) by (intros ->; apply E; reflexivity).
    split.
    + exists (p + 1). repeat split; try lia. discriminate.
    + rewrite !Z.log2_pow2 by lia. lia.
Qed.

Lemma read_code_cursor (n : nat) (i code : Z) (s : lzw_t)
    (code' : Z) (s' : lzw_t) :
  cursor_ok s ->
  read_code n i code s = Ok (code', s') ->
  cursor_ok s' /\ bits_left s' = bits_left s - Z.of_nat n.
Proof.
  revert i code s. induction n as [ | n IH]; intros i code s Hc.
  - intros H. injection H as <- <-. split; [exact Hc | lia].
  - cbn [read_code].
    destruct (read_bit i code s) as [[c1 s1] | f] eqn:E; [ | discriminate].
    cbn [mbind result_bind]. intros H.
    destruct (read_bit_cursor _ _ _ _ _ Hc E) as [Hc1 Hb1].
    destruct (IH _ _ _ Hc1 H) as [Hc' Hb'].
    split; [exact Hc' | lia].
Qed.

Lemma cursor_ok_bits (s : lzw_t) : cursor_ok s -> 0 <= bits_left s.
Proof.
  intros (p & Hp & Hm & Hnil). unfold bits_left. rewrite Hm.
  rewrite Z.log2_pow2 by lia.
  destruct (input s); [rewrite Hnil by reflexivity; simpl; lia | ].
  cbn [length]. lia.
Qed.

(** A pass that ends with [continue] has consumed at least one bit. *)
Lemma lzw_body_progress (reset_code_length : Z) (s s' : lzw_t) :
  0 <= reset_code_length -> 0 <= code_length s -> cursor_ok s ->
  lzw_body reset_code_length s = Ok (Continue s') ->
  0 <= code_length s' /\ cursor_ok s' /\ bits_left s' < bits_left s.
Proof.
  intros Hr Hcl Hc. unfold lzw_body.
  destruct (read_code (Z.to_nat (code_length s + 1)) 0 0 s)
    as [[code s1] | f] eqn:Eread; [ | discriminate].
  cbn [mbind result_bind].
  destruct (read_code_cursor _ _ _ _ _ _ Hc Eread) as [Hc1 Hb1].
  destruct (read_code_frame _ _ _ _ _ _ Eread) as (Hcl1 & _).
  rewrite Z2Nat.id in Hb1 by lia.
  assert (Hkeep : forall cl d ind p,
            cursor_ok (set_dictionary cl d ind p s1) /\
            bits_left (set_dictionary cl d ind p s1) = bits_left s1).
  { intros. split; [exact Hc1 | reflexivity]. }
  destruct (code =? Z.shiftl 1 reset_code_length).
  { intros H. injection H as <-.
    destruct (Hkeep reset_code_length
                (init_dictionary (Z.to_nat (Z.shiftl 1 reset_code_length))
                   (realloc (dictionary s1)
                      (Z.shiftl 1 (reset_code_length + 1))))
                (Z.shiftl 1 reset_code_length + 2) (-1)) as [K1 K2].
    split; [exact Hr | ]. split; [exact K1 | ]. rewrite K2. lia. }
  destruct (code =? Z.shiftl 1 reset_code_length + 1).
  { destruct (input_length s1 >? 1); discriminate. }
  assert (Hupd : forall c,
            (if (prev_code s1 >? -1) && (code_length s1 <? 12)
             then update_dictionary code s1 else Ok (Continue s1))
            = Ok (Continue c) ->
            0 <= code_length c /\ cursor_ok c /\ bits_left c = bits_left s1).
  { intros c.
    destruct ((prev_code s1 >? -1) && (code_length s1 <? 12)).
    - unfold update_dictionary.
      destruct (code >? dictionary_ind s1); [discriminate | ].
      destruct (walk_to_root _ _ _) as [ptr | ]; [ | discriminate].
      cbn [mbind result_bind].
      destruct (dict_get (dictionary s1) ptr) as [root | ]; [ | discriminate].
      cbn [mbind result_bind].
      destruct (dict_get (dictionary s1) (prev_code s1)) as [before | ];
        [ | discriminate].
      cbn [mbind result_bind].
      destruct (dict_set _ _ _) as [d | ]; [ | discriminate].
      cbn [mbind result_bind].
      destruct ((dictionary_ind s1 + 1 =? Z.shiftl 1 (code_length s1 + 1))
                && (code_length s1 <? 11));
        intros H; injection H as <-;
        (split; [cbn [set_dictionary code_length]; lia | apply Hkeep]).
    - intros H. injection H as <-.
      split; [lia | ]. split; [exact Hc1 | reflexivity]. }
  destruct (if (prev_code s1 >? -1) && (code_length s1 <? 12)
            then update_dictionary code s1 else Ok (Continue s1))
    as [[c | c | r c] | f] eqn:Eupd; cbn [mbind result_bind];
    try discriminate.
  destruct (Hupd c eq_refl) as (U1 & U2 & U3).
  destruct (dict_get _ code) as [e | ]; [ | discriminate].
  cbn [mbind result_bind].
  destruct (copy_entry _ _ _ _ _) as [[r o] | ]; [ | discriminate].
  cbn [mbind result_bind].
  destruct r; try discriminate.
  intros H. injection H as <-.
  cbn [code_length]. split; [exact U1 | ].
  split; [exact U2 | ].
  change (bits_left c < bits_left s). lia.
Qed.

(** Beyond the number of bits at hand, more fuel does not change what the
    decoding loop returns. *)
Lemma lzw_loop_fuel (reset_code_length : Z) (k k' : nat) :
  forall s,
    0 <= reset_code_length -> 0 <= code_length s -> cursor_ok s ->
    bits_left s < Z.of_nat k -> bits_left s < Z.of_nat k' ->
    lzw_loop k reset_code_length s = lzw_loop k' reset_code_length s.
Proof.
  revert k'. induction k as [ | k IH]; intros k' s Hr Hcl Hc Hk Hk'.
  - pose proof (cursor_ok_bits s Hc). lia.
  - destruct k' as [ | k']; [pose proof (cursor_ok_bits s Hc); lia | ].
    cbn [lzw_loop]. destruct (input_length s =? 0); [reflexivity | ].
    destruct (lzw_body reset_code_length s) as [[s' | s' | r s'] | f] eqn:E;
      cbn [mbind result_bind]; try reflexivity.
    destruct (lzw_body_progress _ _ _ Hr Hcl Hc E) as (P1 & P2 & P3).
    apply IH; try assumption; lia.
Qed.

(** [uncompress_gif] is given enough fuel: any larger amount yields the
    same outcome. *)
Lemma uncompress_gif_fuel (cl : Z) (data : list Z) (n : Z)
    (outbuf : list (option Z)) (k : nat) :
  0 <= cl -> (8 * length data < k)%nat ->
  lzw_loop k cl (lzw_init cl data n outbuf)
  = lzw_loop (S (8 * length data)) cl (lzw_init cl data n outbuf).
Proof.
  intros Hcl Hk.
  assert (Hc : cursor_ok (lzw_init cl data n outbuf)).
  { exists 0. repeat split; lia. }
  assert (Hb : bits_left (lzw_init cl data n outbuf)
               = 8 * Z.of_nat (length data)) by (unfold bits_left; simpl; lia).
  apply lzw_loop_fuel; try assumption; rewrite Hb; lia.
Qed.

(** The file only moves forward. *)
Lemma read_bytes_shrinks (n : Z) (fh : FILE) :
  (length (snd (read_filesystem_bytes n fh)) <= length fh)%nat.
Proof. unfold read_filesystem_bytes. cbn [snd]. rewrite length_drop. lia. Qed.

Lemma read_byte_shrinks (fh : FILE) :
  (bytesRead (read_filesystem_bytes 1 fh) <? 1) = false ->
  (length (snd (read_filesystem_bytes 1 fh)) < length fh)%nat.
Proof.
  unfold read_filesystem_bytes, bytesRead. cbn [fst snd].
  destruct fh as [ | b rest]; [discriminate | ].
  intros _. simpl. rewrite drop_0. lia.
Qed.

Lemma sub_blocks_loop_total (k : nat) :
  forall (data : list Z) (n : Z) (fh : FILE),
    (length fh < k)%nat ->
    exists r d fh',
      sub_blocks_loop k data n fh = Ok (r, d, fh') /\
      (length fh' <= length fh)%nat.
Proof.
  induction k as [ | k IH]; intros data n fh Hk; [lia | ].
  cbn [sub_blocks_loop].
  destruct (bytesRead (read_filesystem_bytes 1 fh) <? 1) eqn:E1.
  { eexists _, _, _. split; [reflexivity | apply read_bytes_shrinks]. }
  pose proof (read_byte_shrinks fh E1) as H1.
  destruct (default 0 (fst (read_filesystem_bytes 1 fh) !! 0%nat) =? 0).
  { eexists _, _, _. split; [reflexivity | lia]. }
  set (r2 := read_filesystem_bytes _ (snd (read_filesystem_bytes 1 fh))).
  pose proof (read_bytes_shrinks
                (default 0 (fst (read_filesystem_bytes 1 fh) !! 0%nat))
                (snd (read_filesystem_bytes 1 fh))) as H2.
  fold r2 in H2.
  destruct (bytesRead r2 <? _).
  { eexists _, _, _. split; [reflexivity | lia]. }
  destruct (IH (data ++ fst r2)
               (n + default 0 (fst (read_filesystem_bytes 1 fh) !! 0%nat))
               (snd r2)) as (r & d & fh' & Hrun & Hlen); [lia | ].
  exists r, d, fh'. split; [exact Hrun | lia].
Qed.

(** [read_gif_sub_blocks] always returns. *)
Lemma read_gif_sub_blocks_total (fh : FILE) :
  exists r d fh',
    read_gif_sub_blocks fh = Ok (r, d, fh') /\
    (length fh' <= length fh)%nat.
Proof. apply sub_blocks_loop_total. lia. Qed.

Lemma readColorTable_shrinks (n : nat) :
  forall (table : list Z) (fh : FILE),
    (length (snd (readColorTable n table fh)) <= length fh)%nat.
Proof.
  induction n as [ | n IH]; intros table fh; [simpl; lia | ].
  cbn [readColorTable].
  pose proof (read_bytes_shrinks 3 fh) as H3.
  destruct (bytesRead (read_filesystem_bytes 3 fh) <? 3); [exact H3 | ].
  destruct (fst (read_filesystem_bytes 3 fh)) as [ | cr [ | cg [ | cb [ | ]]]];
    try exact H3.
  specialize (IH (table ++ [RGB cr cg cb]) (snd (read_filesystem_bytes 3 fh))).
  lia.
Qed.

Lemma readGIFImageDescriptor_shrinks (fh : FILE) (g : GraphicsDisplay) :
  (length (snd (fst (readGIFImageDescriptor fh g))) <= length fh)%nat.
Proof.
  unfold readGIFImageDescriptor.
  pose proof (read_bytes_shrinks gif_image_descriptor_size fh) as H9.
  destruct (bytesRead _ <? gif_image_descriptor_size); [exact H9 | ].
  cbv zeta. destruct (negb _); [ | exact H9].
  match goal with
  | |- context [readColorTable ?n ?t ?f] =>
      pose proof (readColorTable_shrinks n t f) as Ht;
      destruct (readColorTable n t f) as [[rc table] fh']
  end.
  cbn [snd] in Ht. destruct rc; cbn [fst snd]; lia.
Qed.

Lemma process_gif_extension_shrinks (fh : FILE) :
  exists ok fh',
    process_gif_extension fh = Ok (ok, fh') /\ (length fh' <= length fh)%nat.
Proof.
  unfold process_gif_extension.
  pose proof (read_bytes_shrinks extension_size fh) as H2.
  set (r := read_filesystem_bytes extension_size fh) in *.
  destruct (bytesRead r <? extension_size).
  { eexists _, _. split; [reflexivity | exact H2]. }
  assert (Hdrain : forall f, (length f <= length fh)%nat ->
            exists ok fh', drain_sub_blocks f = Ok (ok, fh') /\
                           (length fh' <= length fh)%nat).
  { intros f Hf. unfold drain_sub_blocks.
    destruct (read_gif_sub_blocks_total f) as (r0 & d & fh' & -> & Hlen).
    eexists _, _. split; [reflexivity | lia]. }
  assert (Hbody : forall size,
            exists ok fh',
              extension_body size (snd r) drain_sub_blocks = Ok (ok, fh') /\
              (length fh' <= length fh)%nat).
  { intros size. unfold extension_body.
    pose proof (read_bytes_shrinks size (snd r)) as Hb.
    destruct (bytesRead _ <? size).
    - eexists _, _. split; [reflexivity | lia].
    - apply Hdrain. lia. }
  destruct (_ =? GRAPHIC_CONTROL); [apply Hbody | ].
  destruct (_ =? APPLICATION_EXTENSION); [apply Hbody | ].
  destruct (_ =? COMMENT_EXTENSION); [apply Hdrain; exact H2 | ].
  destruct (_ =? PLAINTEXT_EXTENSION); [apply Hbody | ].
  eexists _, _. split; [reflexivity | exact H2].
Qed.

Lemma process_gif_image_descriptor_shrinks (fh : FILE) (w h : Z)
    (g : GraphicsDisplay) (rc : RetCode_t) (data : option (list (option Z)))
    (fh' : FILE) (g' : GraphicsDisplay) :
  process_gif_image_descriptor fh w h g = Ok (rc, data, fh', g') ->
  (length fh' <= length fh)%nat.
Proof.
  unfold process_gif_image_descriptor.
  pose proof (read_bytes_shrinks 1 fh) as H1.
  destruct (bytesRead _ <? 1).
  { intros H. injection H as <- <- <- <-. exact H1. }
  destruct (read_gif_sub_blocks_total (snd (read_filesystem_bytes 1 fh)))
    as (n & d & f & -> & Hlen).
  cbn [mbind result_bind].
  destruct (n >? 0).
  - destruct (uncompress_gif _ _ _ _) as [[rc0 decoded] | ];
      [ | discriminate].
    cbn [mbind result_bind]. intros H. injection H as <- <- <- <-. lia.
  - intros H. injection H as <- <- <- <-. lia.
Qed.

(** Beyond the number of bytes in the file, more fuel does not change
    what the block loop returns. *)
Lemma block_loop_fuel (ScreenX ScreenY : Z) (k k' : nat) :
  forall (fh : FILE) (g : GraphicsDisplay),
    (length fh < k)%nat -> (length fh < k')%nat ->
    block_loop k ScreenX ScreenY fh g = block_loop k' ScreenX ScreenY fh g.
Proof.
  revert k'. induction k as [ | k IH]; intros k' fh g Hk Hk'; [lia | ].
  destruct k' as [ | k']; [lia | ].
  cbn [block_loop].
  destruct (bytesRead (read_filesystem_bytes 1 fh) <? 1) eqn:E1;
    [reflexivity | ].
  pose proof (read_byte_shrinks fh E1) as H1.
  set (rest := snd (read_filesystem_bytes 1 fh)) in *.
  destruct (_ =? IMAGE_DESCRIPTOR).
  { pose proof (readGIFImageDescriptor_shrinks rest g) as Hd.
    destruct (readGIFImageDescriptor rest g) as [[[rc d] f] g1].
    cbn [fst snd] in Hd.
    destruct rc; try reflexivity. destruct d as [d | ]; [ | reflexivity].
    destruct (process_gif_image_descriptor f (image_width d)
                (image_height d) g1) as [[[[rc2 data] f2] g2] | ] eqn:Ep;
      [ | reflexivity].
    pose proof (process_gif_image_descriptor_shrinks _ _ _ _ _ _ _ _ Ep).
    cbn [mbind result_bind].
    destruct rc2; try reflexivity.
    destruct (match data with
              | Some data0 => render_fragment ScreenX ScreenY d data0 g2
              | None => Ok g2
              end) as [g3 | ]; [ | reflexivity].
    cbn [mbind result_bind]. apply IH; lia. }
  destruct (_ =? EXTENSION_INTRODUCER); [ | reflexivity].
  destruct (process_gif_extension_shrinks rest) as (ok & f & -> & Hlen).
  cbn [mbind result_bind].
  destruct (ok =? 0); [reflexivity | ]. apply IH; lia.
Qed.

(** ** GIF decoder: extensions *)

Lemma read_two_bytes (a b : Z) (rest : FILE) :
  read_filesystem_bytes extension_size (a :: b :: rest) = ([a; b], rest).
Proof. reflexivity. Qed.

(** C1 (as amended).  When the block loop reads the extension introducer
    0x21 followed by a sub-header whose extension code is none of
    graphic-control, application, comment and plain-text,
    [process_gif_extension] returns 0 right behind the two bytes of the
    sub-header, without reading any sub-block, and [_RenderGIF]'s loop
    returns [not_supported_format]. *)
Theorem unrecognized_extension_is_rejected
    (fuel : nat) (ScreenX ScreenY : Z) (code size : Z) (rest : FILE)
    (g : GraphicsDisplay) :
  code <> GRAPHIC_CONTROL -> code <> APPLICATION_EXTENSION ->
  code <> COMMENT_EXTENSION -> code <> PLAINTEXT_EXTENSION ->
  process_gif_extension (code :: size :: rest) = Ok (0, rest) /\
  block_loop (S fuel) ScreenX ScreenY
             (EXTENSION_INTRODUCER :: code :: size :: rest) g
  = Ok (not_supported_format, rest, g).
Proof.
  intros Hg Ha Hc Hp.
  assert (Hext : process_gif_extension (code :: size :: rest) = Ok (0, rest)).
  { unfold process_gif_extension, read_filesystem_bytes, bytesRead,
      extension_size. simpl.
    destruct (Z.eqb_spec code GRAPHIC_CONTROL); [contradiction | ].
    destruct (Z.eqb_spec code APPLICATION_EXTENSION); [contradiction | ].
    destruct (Z.eqb_spec code COMMENT_EXTENSION); [contradiction | ].
    destruct (Z.eqb_spec code PLAINTEXT_EXTENSION); [contradiction | ].
    reflexivity. }
  split; [exact Hext | ].
  cbn [block_loop].
  unfold read_filesystem_bytes, bytesRead. simpl.
  rewrite Hext. reflexivity.
Qed.

Lemma unrecognized_extension_is_rejected_witness :
  process_gif_extension [0x42; 0x00; 0x00; 0x3B] = Ok (0, [0x00; 0x3B]) /\
  block_loop 5 0 0 [0x21; 0x42; 0x00; 0x00; 0x3B] blank_display
  = Ok (not_supported_format, [0x00; 0x3B], blank_display).
Proof.
  apply (unrecognized_extension_is_rejected 4 0 0 0x42 0x00 [0x00; 0x3B]
           blank_display); discriminate.
Defined.

(** C1 (as stated) fails: a file whose only block is an extension with
    the unassigned code 0x42 is refused, while the same file with a
    comment extension renders without error. *)
Lemma unrecognized_extension_fails_the_parse :
  process_gif_extension [0x42; 0x00; 0x00; 0x3B] = Ok (0, [0x00; 0x3B]) /\
  return_code (RenderGIFFile 0 0 (Some gif_with_unknown_extension)
                             blank_display)
  = Some not_supported_format /\
  return_code (RenderGIFFile 0 0 (Some gif_with_comment_extension)
                             blank_display)
  = Some noerror.
Proof.
  split; [vm_compute; reflexivity | ].
  split; vm_compute; reflexivity.
Qed.

(** ** GIF decoder: codes beyond the dictionary *)

Lemma body_rejects_code_beyond_dictionary
    (reset_code_length : Z) (s : lzw_t) (code : Z) (s1 : lzw_t) :
  read_code (Z.to_nat (code_length s + 1)) 0 0 s = Ok (code, s1) ->
  code <> Z.shiftl 1 reset_code_length ->
  code <> Z.shiftl 1 reset_code_length + 1 ->
  prev_code s > -1 -> code_length s < 12 ->
  code > dictionary_ind s ->
  lzw_body reset_code_length s = Ok (Return not_supported_format s1).
Proof.
  intros Hread Hclear Hstop Hprev Hlen Hcode.
  destruct (read_code_frame _ _ _ _ _ _ Hread)
    as (Hcl & _ & Hind & Hp & _ & _).
  unfold lzw_body. rewrite Hread. cbn [mbind result_bind].
  destruct (Z.eqb_spec code (Z.shiftl 1 reset_code_length));
    [contradiction | ].
  destruct (Z.eqb_spec code (Z.shiftl 1 reset_code_length + 1));
    [contradiction | ].
  rewrite Hp, Hcl.
  destruct (Z.gtb_spec (prev_code s) (-1)); [ | lia].
  destruct (Z.ltb_spec (code_length s) 12); [ | lia].
  cbn [andb]. unfold update_dictionary. rewrite Hind.
  destruct (Z.gtb_spec code (dictionary_ind s)); [ | lia].
  reflexivity.
Qed.

Lemma body_reads_beyond_dictionary
    (reset_code_length : Z) (s : lzw_t) (code : Z) (s1 : lzw_t) :
  read_code (Z.to_nat (code_length s + 1)) 0 0 s = Ok (code, s1) ->
  code <> Z.shiftl 1 reset_code_length ->
  code <> Z.shiftl 1 reset_code_length + 1 ->
  prev_code s = -1 \/ code_length s >= 12 ->
  dict_get (dictionary s) code = Undefined (dictionary_read code) ->
  lzw_body reset_code_length s = Undefined (dictionary_read code).
Proof.
  intros Hread Hclear Hstop Hguard Hcell.
  destruct (read_code_frame _ _ _ _ _ _ Hread)
    as (Hcl & Hd & Hind & Hp & _ & _).
  unfold lzw_body. rewrite Hread. cbn [mbind result_bind].
  destruct (Z.eqb_spec code (Z.shiftl 1 reset_code_length));
    [contradiction | ].
  destruct (Z.eqb_spec code (Z.shiftl 1 reset_code_length + 1));
    [contradiction | ].
  rewrite Hp, Hcl.
  assert (G : (prev_code s >? -1) && (code_length s <? 12) = false).
  { destruct Hguard as [-> | H]; [reflexivity | ].
    destruct (Z.ltb_spec (code_length s) 12); [lia | ].
    apply andb_false_r. }
  rewrite G. cbn [mbind result_bind set_dictionary dictionary].
  rewrite Hd, Hcell. reflexivity.
Qed.

(** C3, at the failing input.  With a minimum code size of 2 the first
    free dictionary index is 6.  A stream whose first code is 7 has no
    previous code, so the test [code > dictionary_ind] is skipped and the
    decoder reads [dictionary[7]], an entry that was never stored; no
    format error is returned.  The same happens through [RenderGIFFile]
    for a file with that image data, and, with a previous code at hand,
    for a code length of 12: behind the code 0 the 13-bit code 8000 is
    looked up although the first free index is 4098. *)
Theorem first_code_beyond_dictionary_is_read :
  dictionary_ind (lzw_init 2 [0x07] 1 [None]) = 6 /\
  read_code 3 0 0 (lzw_init 2 [0x07] 1 [None])
  = Ok (7, mkLzw 2 (dictionary (lzw_init 2 [0x07] 1 [None])) 6 (-1) 0x08
                 [0x07] 1 [None] 0) /\
  uncompress_gif 2 [0x07] 1 [None] = Undefined (dictionary_read 7) /\
  RenderGIFFile 0 0 (Some gif_with_early_code) blank_display
  = Undefined (dictionary_read 7) /\
  uncompress_gif 12 [0x00; 0x00; 0xE8; 0x03] 4 [None]
  = Undefined (dictionary_read 8000).
Proof.
  split; [vm_compute; reflexivity | ].
  split; [vm_compute; reflexivity | ].
  split; [vm_compute; reflexivity | ].
  split; vm_compute; reflexivity.
Qed.

(** ** Bounded quantification by evaluation *)

Lemma all_below_spec (n : nat) (p : Z -> bool) :
  all_below n p = true -> forall z, 0 <= z < Z.of_nat n -> p z = true.
Proof.
  induction n as [ | n IH]; intros H z Hz; [lia | ].
  cbn [all_below] in H. apply andb_true_iff in H. destruct H as [Hn Hrest].
  destruct (Z.eq_dec z (Z.of_nat n)) as [-> | Hne]; [exact Hn | ].
  apply IH; [exact Hrest | lia].
Qed.

(** ** Touch panel: raw samples *)

Lemma sample_x_range (chip : chip_t) :
  byte_registers chip -> 0 <= sample_x chip <= 1023.
Proof.
  intros (_ & Hx & _ & Hl). unfold sample_x.
  assert (E : all_below 256 (fun h =>
            all_below 256 (fun l =>
              let v := Z.lor (Z.shiftl h 2) (Z.land l 3) in
              (0 <=? v) && (v <=? 1023))) = true) by (vm_compute; reflexivity).
  pose proof (all_below_spec _ _ (all_below_spec _ _ E (TPXH chip) Hx)
                (TPXYL chip) Hl) as H.
  cbv zeta in H. apply andb_true_iff in H. lia.
Qed.

Lemma sample_y_range (chip : chip_t) :
  byte_registers chip -> 0 <= sample_y chip <= 1023.
Proof.
  intros (_ & _ & Hy & Hl). unfold sample_y.
  assert (E : all_below 256 (fun h =>
            all_below 256 (fun l =>
              let v := Z.lor (Z.shiftl h 2) (Z.shiftr (Z.land l 12) 2) in
              (0 <=? v) && (v <=? 1023))) = true) by (vm_compute; reflexivity).
  pose proof (all_below_spec _ _ (all_below_spec _ _ E (TPYH chip) Hy)
                (TPXYL chip) Hl) as H.
  cbv zeta in H. apply andb_true_iff in H. lia.
Qed.

(** X1.  [TouchPanelA2DRaw] reports [touch] exactly when the touch
    interrupt is pending, then with both raw coordinates in the 10-bit
    range 0 .. 1023 and the timer reset; otherwise it reports [no_touch]
    and leaves the coordinates alone.  In both cases the touch state is
    overwritten with the value returned, whatever it was. *)
Theorem A2DRaw_reports_pending_sample (chip : chip_t) (xy : Z * Z)
    (s : RA8875) :
  byte_registers chip ->
  let '(ret, (vx, vy), s') := TouchPanelA2DRaw chip xy s in
  touchState s' = ret /\
  (Z.land (INTC2 chip) RA8875_INT_TP <> 0 ->
     ret = touch /\ 0 <= vx <= 1023 /\ 0 <= vy <= 1023 /\
     timeSinceTouch s' = 0) /\
  (Z.land (INTC2 chip) RA8875_INT_TP = 0 ->
     ret = no_touch /\ (vx, vy) = xy /\
     timeSinceTouch s' = timeSinceTouch s).
Proof.
  intros Hb. unfold TouchPanelA2DRaw. destruct xy as [x0 y0].
  pose proof (sample_x_range chip Hb) as Hx.
  pose proof (sample_y_range chip Hb) as Hy.
  destruct (Z.eqb_spec (Z.land (INTC2 chip) RA8875_INT_TP) 0) as [E | E];
    cbn [negb]; (split; [reflexivity | split]); intros Hz;
    try contradiction; repeat split; lia.
Qed.

Lemma A2DRaw_reports_pending_sample_witness :
  TouchPanelA2DRaw pending_chip (0, 0) calibrated_panel
  = (touch, (800, 400),
     set_touchState touch (set_timeSinceTouch 0 calibrated_panel)).
Proof.
  pose proof (A2DRaw_reports_pending_sample pending_chip (0, 0)
                calibrated_panel) as H.
  destruct (TouchPanelA2DRaw pending_chip (0, 0) calibrated_panel)
    as [[ret [vx vy]] s'] eqn:E.
  destruct H as (_ & Hp & _);
    [unfold byte_registers, pending_chip; simpl; lia | ].
  rewrite <- E. reflexivity.
Defined.

(** ** Touch panel: sorting a prefix *)

(** X2.  [InsertionSort(buf, bufsize)] with [bufsize] within the
    array rearranges the first [bufsize] entries into ascending order
    (every entry is at most every later one) and leaves the entries behind
    them where they are. *)
Theorem InsertionSort_sorts_prefix (buf : list Z) (bufsize : nat) :
  (bufsize <= length buf)%nat ->
  exists l,
    InsertionSort buf (Z.of_nat bufsize) = l ++ drop bufsize buf /\
    l ≡ₚ take bufsize buf /\
    StronglySorted Z.le l.
Proof.
  intros Hn. unfold InsertionSort. rewrite Nat2Z.id.
  destruct bufsize as [ | k].
  - exists []. cbn. rewrite drop_0. repeat split; constructor.
  - cbn [Nat.sub]. rewrite Nat.sub_0_r.
    apply InsertionSort_passes. lia.
Qed.

Lemma InsertionSort_sorts_prefix_witness :
  exists l,
    InsertionSort [5; 3; 9; 1; 7; 2] 4 = l ++ [7; 2] /\
    l ≡ₚ [5; 3; 9; 1] /\ StronglySorted Z.le l.
Proof.
  apply (InsertionSort_sorts_prefix [5; 3; 9; 1; 7; 2] 4). simpl. lia.
Defined.

(** ** Touch panel: the filter keeps its buffers *)

Lemma InsertionSort_length (buf : list Z) :
  length (InsertionSort buf (Z.of_nat (length buf))) = length buf.
Proof.
  destruct (InsertionSort_sorts buf) as [Hp _]. rewrite Hp. reflexivity.
Qed.

Lemma array_set_length (buf : list Z) (i v : Z) (buf' : list Z) :
  array_set buf i v = Some buf' -> length buf' = length buf.
Proof.
  unfold array_set. destruct ((0 <=? i) && (i <? Z.of_nat (length buf)));
    [ | discriminate].
  intros H. injection H as <-. apply length_insert.
Qed.

(** X3.  As long as the sample counter is a valid index and the two
    buffers have [TPBUFSIZE] entries, every poll of
    [TouchPanelA2DFiltered] stores inside the buffers and leaves the
    counter a valid index and the buffers their size; so does
    [_TouchTicker]. *)
Theorem filter_keeps_buffers_in_bounds (chip : chip_t) (xy : Z * Z)
    (s : RA8875) :
  buffers_ok s ->
  buffers_ok (_TouchTicker s) /\
  exists ret xy' s',
    TouchPanelA2DFiltered chip xy s = Some (ret, xy', s') /\
    buffers_ok s'.
Proof.
  intros (Hn & Hx & Hy). split.
  { unfold _TouchTicker, buffers_ok.
    destruct (timeSinceTouch s >? NOTOUCH_TIMEOUT_uS);
      [ | repeat split; assumption || lia].
    destruct s as [tp st n m info pt np tm xb0 yb0 lx ly].
    cbn in *. destruct st; cbn; repeat split; assumption || (unfold TPBUFSIZE; lia). }
  destruct s as [tp st n m info pt np tm xb0 yb0 lx ly].
  cbn [touchSample xbuf ybuf] in *.
  unfold TouchPanelA2DFiltered.
  cbn -[InsertionSort middle_sum average to_int32 array_set Z.eqb Z.land
        TPBUFSIZE].
  destruct (negb (Z.land (INTC2 chip) RA8875_INT_TP =? 0)).
  - rewrite (array_set_inside yb0 n (sample_y chip))
      by (rewrite Hy; unfold TPBUFSIZE in *; lia).
    rewrite (array_set_inside xb0 n (sample_x chip))
      by (rewrite Hx; unfold TPBUFSIZE in *; lia).
    cbn [mbind option_bind].
    rewrite to_int32_small by (unfold in_int32, TPBUFSIZE in *; lia).
    assert (Lx : length (<[Z.to_nat n := sample_x chip]> xb0)
                 = Z.to_nat TPBUFSIZE) by (rewrite length_insert; exact Hx).
    assert (Ly : length (<[Z.to_nat n := sample_y chip]> yb0)
                 = Z.to_nat TPBUFSIZE) by (rewrite length_insert; exact Hy).
    pose proof (InsertionSort_length (<[Z.to_nat n := sample_x chip]> xb0))
      as Sx.
    pose proof (InsertionSort_length (<[Z.to_nat n := sample_y chip]> yb0))
      as Sy.
    rewrite Lx in Sx. rewrite Ly in Sy.
    change (Z.of_nat (Z.to_nat TPBUFSIZE)) with TPBUFSIZE in Sx, Sy.
    destruct (Z.eqb_spec (n + 1) TPBUFSIZE) as [E | E].
    + destruct st; eexists _, _, _; (split; [reflexivity | ]);
        unfold buffers_ok; cbn [touchSample xbuf ybuf set_touchSample
          set_touchState set_last set_xbuf set_ybuf];
        (split; [unfold TPBUFSIZE; lia | split; assumption]).
    + destruct st; eexists _, _, _; (split; [reflexivity | ]);
        unfold buffers_ok; cbn [touchSample xbuf ybuf set_touchSample
          set_touchState set_last set_xbuf set_ybuf];
        (split; [lia | split; assumption]).
  - destruct st; eexists _, _, _; (split; [reflexivity | ]);
      unfold buffers_ok; cbn [touchSample xbuf ybuf set_touchState];
      (split; [lia | split; assumption]).
Qed.

Lemma filter_keeps_buffers_in_bounds_witness :
  buffers_ok (_TouchTicker uncalibrated_panel) /\
  exists ret xy' s',
    TouchPanelA2DFiltered pending_chip (0, 0) uncalibrated_panel
    = Some (ret, xy', s') /\ buffers_ok s'.
Proof.
  apply (filter_keeps_buffers_in_bounds pending_chip (0, 0)
           uncalibrated_panel).
  unfold buffers_ok, uncalibrated_panel, TPBUFSIZE. simpl. lia.
Defined.

(** ** Touch panel: what a completed window reports *)

Lemma average_eighth (j : Z) : average j = Z.quot j 8.
Proof.
  unfold average, TPBUFSIZE. change 16 with (8 * 2).
  apply Z.quot_mul_cancel_r; lia.
Qed.

Lemma middle_sum_window (l : list Z) :
  length l = 16%nat -> Forall ten_bit_value l ->
  middle_sum l = foldr Z.add 0 (take 9 (drop 3 l)) /\
  0 <= middle_sum l <= 9207.
Proof.
  intros Hlen Hall.
  do 16 (destruct l as [ | ? l]; [discriminate | ]).
  destruct l; [ | discriminate].
  rewrite middle_sum_nine. cbn [drop take foldr].
  repeat match goal with
         | H : Forall _ (_ :: _) |- _ =>
             apply Forall_cons in H; destruct H as [? H]
         end.
  unfold ten_bit_value in *.
  rewrite to_int32_small by (unfold in_int32; lia).
  split; lia.
Qed.

(** X4.  With 10-bit samples in the buffers, the poll that stores
    the sixteenth sample sorts each buffer and reports, per axis, the sum
    of the nine sorted samples at the indices 3 to 11 divided by eight
    (truncated): a value between 0 and 1150.  It stores that pair as the
    last average, empties the window and moves the state to [held] if it
    was [touch] or [held], to [touch] otherwise. *)
Theorem full_window_report (chip : chip_t) (xy : Z * Z) (s : RA8875) :
  Z.land (INTC2 chip) RA8875_INT_TP <> 0 ->
  byte_registers chip ->
  touchSample s = TPBUFSIZE - 1 ->
  length (xbuf s) = Z.to_nat TPBUFSIZE ->
  length (ybuf s) = Z.to_nat TPBUFSIZE ->
  Forall ten_bit_value (xbuf s) -> Forall ten_bit_value (ybuf s) ->
  exists xs ys vx vy s',
    xs ≡ₚ <[15%nat := sample_x chip]> (xbuf s) /\ StronglySorted Z.le xs /\
    ys ≡ₚ <[15%nat := sample_y chip]> (ybuf s) /\ StronglySorted Z.le ys /\
    vx = Z.quot (foldr Z.add 0 (take 9 (drop 3 xs))) 8 /\
    vy = Z.quot (foldr Z.add 0 (take 9 (drop 3 ys))) 8 /\
    0 <= vx <= 1150 /\ 0 <= vy <= 1150 /\
    TouchPanelA2DFiltered chip xy s
    = Some (touchState s', (vx, vy), s') /\
    touchState s' = match touchState s with
                    | touch | held => held
                    | _ => touch
                    end /\
    touchSample s' = 0 /\ lastX s' = vx /\ lastY s' = vy /\
    xbuf s' = xs /\ ybuf s' = ys.
Proof.
  intros Hpending Hbytes Hsample Hx Hy Hxs Hys.
  pose proof (sample_x_range chip Hbytes) as Rx.
  pose proof (sample_y_range chip Hbytes) as Ry.
  destruct s as [tp st n m info pt np tm xb0 yb0 lx ly].
  cbn [touchSample xbuf ybuf touchState] in *. subst n.
  set (xs := InsertionSort (<[15%nat := sample_x chip]> xb0) TPBUFSIZE).
  set (ys := InsertionSort (<[15%nat := sample_y chip]> yb0) TPBUFSIZE).
  assert (Hsx := InsertionSort_sorts (<[15%nat := sample_x chip]> xb0)).
  assert (Hsy := InsertionSort_sorts (<[15%nat := sample_y chip]> yb0)).
  rewrite length_insert, Hx in Hsx. rewrite length_insert, Hy in Hsy.
  change (Z.of_nat (Z.to_nat TPBUFSIZE)) with TPBUFSIZE in Hsx, Hsy.
  fold xs in Hsx. fold ys in Hsy.
  destruct Hsx as [Px Sx], Hsy as [Py Sy].
  assert (Wx : Forall ten_bit_value xs).
  { rewrite Px. apply Forall_insert; [exact Hxs | exact Rx]. }
  assert (Wy : Forall ten_bit_value ys).
  { rewrite Py. apply Forall_insert; [exact Hys | exact Ry]. }
  assert (Lx : length xs = 16%nat)
    by (rewrite Px, length_insert, Hx; reflexivity).
  assert (Ly : length ys = 16%nat)
    by (rewrite Py, length_insert, Hy; reflexivity).
  destruct (middle_sum_window xs Lx Wx) as [Ex Bx].
  destruct (middle_sum_window ys Ly Wy) as [Ey By].
  exists xs, ys, (average (middle_sum xs)), (average (middle_sum ys)).
  unfold TouchPanelA2DFiltered.
  destruct (Z.eqb_spec (Z.land (INTC2 chip) RA8875_INT_TP) 0) as [E | _];
    [contradiction | ].
  cbn -[InsertionSort middle_sum average to_int32 array_set Z.eqb Z.land
        TPBUFSIZE].
  rewrite (array_set_inside yb0 (TPBUFSIZE - 1) (sample_y chip))
    by (rewrite Hy; vm_compute; split; congruence).
  rewrite (array_set_inside xb0 (TPBUFSIZE - 1) (sample_x chip))
    by (rewrite Hx; vm_compute; split; congruence).
  cbn [mbind option_bind].
  change (to_int32 (TPBUFSIZE - 1 + 1) =? TPBUFSIZE) with true.
  cbv iota.
  change (Z.to_nat (TPBUFSIZE - 1)) with 15%nat.
  fold xs ys.
  assert (Qx : 0 <= Z.quot (middle_sum xs) 8 <= 1150).
  { split; [apply Z.quot_pos; lia | ].
    change 1150 with (Z.quot 9207 8). apply Z.quot_le_mono; lia. }
  assert (Qy : 0 <= Z.quot (middle_sum ys) 8 <= 1150).
  { split; [apply Z.quot_pos; lia | ].
    change 1150 with (Z.quot 9207 8). apply Z.quot_le_mono; lia. }
  match goal with
  | |- context [Some (_, _, ?final) = _] => exists final
  end.
  split; [exact Px | ]. split; [exact Sx | ].
  split; [exact Py | ]. split; [exact Sy | ].
  rewrite !average_eighth, <- Ex, <- Ey.
  split; [reflexivity | ]. split; [reflexivity | ].
  split; [exact Qx | ]. split; [exact Qy | ].
  split; [destruct st; reflexivity | ].
  cbn [touchState touchSample lastX lastY xbuf ybuf set_touchSample
       set_touchState set_last set_xbuf set_ybuf].
  repeat split; destruct st; reflexivity.
Qed.

Lemma full_window_report_witness :
  exists s',
    TouchPanelA2DFiltered pending_chip (0, 0) uncalibrated_panel
    = Some (touch, (900, 450), s') /\
    touchSample s' = 0 /\ lastX s' = 900 /\ lastY s' = 450.
Proof.
  destruct (full_window_report pending_chip (0, 0) uncalibrated_panel)
    as (xs & ys & vx & vy & s' & _ & _ & _ & _ & _ & _ & _ & _ & Hrun
        & Hst & Hn & Hlx & Hly & _).
  - vm_compute. discriminate.
  - unfold byte_registers, pending_chip. simpl. lia.
  - reflexivity.
  - reflexivity.
  - reflexivity.
  - unfold uncalibrated_panel. cbn [xbuf].
    apply Forall_replicate. unfold ten_bit_value. lia.
  - unfold uncalibrated_panel. cbn [ybuf].
    apply Forall_replicate. unfold ten_bit_value. lia.
  - assert (C : exists c,
              TouchPanelA2DFiltered pending_chip (0, 0) uncalibrated_panel
              = Some (touch, (900, 450), c))
      by (eexists; vm_compute; reflexivity).
    destruct C as [c C]. rewrite C in Hrun.
    injection Hrun as E1 E2 E3 E4. subst c vx vy.
    exists s'. rewrite C. repeat split; assumption.
Defined.

(** ** Touch panel: the course of a gesture *)

(** X5.  While a touch is in progress (state [touch] or [held]) every
    poll of [TouchPanelA2DFiltered], with or without a pending sample,
    reports [held] and leaves the state [held]; the coordinates it hands
    out are the stored last average, never a raw sample. *)
Theorem touch_in_progress_reports_last_average (chip : chip_t)
    (xy : Z * Z) (s : RA8875) :
  touchState s = touch \/ touchState s = held ->
  buffers_ok s ->
  exists s',
    TouchPanelA2DFiltered chip xy s = Some (held, (lastX s', lastY s'), s') /\
    touchState s' = held /\
    (touchSample s <> TPBUFSIZE - 1 \/
     Z.land (INTC2 chip) RA8875_INT_TP = 0 ->
     lastX s' = lastX s /\ lastY s' = lastY s).
Proof.
  intros Hst (Hn & Hx & Hy).
  destruct s as [tp st n m info pt np tm xb0 yb0 lx ly].
  cbn [touchSample xbuf ybuf touchState lastX lastY] in *.
  unfold TouchPanelA2DFiltered.
  cbn -[InsertionSort middle_sum average to_int32 array_set Z.eqb Z.land
        TPBUFSIZE].
  destruct (Z.eqb_spec (Z.land (INTC2 chip) RA8875_INT_TP) 0) as [E | E];
    cbn [negb].
  - destruct Hst as [-> | ->];
      match goal with
      | |- context [Some (_, _, ?final) = _] => exists final
      end; (split; [reflexivity | ]);
      split; reflexivity || (intros _; split; reflexivity).
  - rewrite (array_set_inside yb0 n (sample_y chip))
      by (rewrite Hy; unfold TPBUFSIZE in *; lia).
    rewrite (array_set_inside xb0 n (sample_x chip))
      by (rewrite Hx; unfold TPBUFSIZE in *; lia).
    cbn [mbind option_bind].
    rewrite to_int32_small by (unfold in_int32, TPBUFSIZE in *; lia).
    destruct (Z.eqb_spec (n + 1) TPBUFSIZE) as [F | F];
      destruct Hst as [-> | ->];
      match goal with
      | |- context [Some (_, _, ?final) = _] => exists final
      end;
      cbn [lastX lastY touchState set_touchSample set_touchState set_last
           set_xbuf set_ybuf];
      (split; [reflexivity | ]);
      (split; [reflexivity | ]);
      intros [G | G]; try contradiction; try lia; split; reflexivity.
Qed.

Lemma touch_in_progress_reports_last_average_witness :
  exists s',
    TouchPanelA2DFiltered pending_chip (0, 0) calibrated_panel
    = Some (held, (lastX s', lastY s'), s') /\ touchState s' = held.
Proof.
  destruct (touch_in_progress_reports_last_average pending_chip (0, 0)
              calibrated_panel) as (s' & Hrun & Hst & _).
  - right. reflexivity.
  - unfold buffers_ok, calibrated_panel, TPBUFSIZE. simpl. lia.
  - exists s'. split; assumption.
Defined.

(** X6.  A held touch whose last sample is older than the timeout
    is released by the ticker: the next poll without a pending sample
    reports [release] with the last average and moves to [no_touch], and
    the poll after that reports [no_touch] and leaves the caller's
    coordinates untouched.  The release is reported once. *)
Theorem stale_touch_is_released_once (chip1 chip2 : chip_t)
    (xy xy' : Z * Z) (s : RA8875) :
  touchState s = held ->
  timeSinceTouch s > NOTOUCH_TIMEOUT_uS ->
  Z.land (INTC2 chip1) RA8875_INT_TP = 0 ->
  Z.land (INTC2 chip2) RA8875_INT_TP = 0 ->
  exists s',
    TouchPanelA2DFiltered chip1 xy (_TouchTicker s)
    = Some (release, (lastX s, lastY s), s') /\
    touchState s' = no_touch /\
    TouchPanelA2DFiltered chip2 xy' s' = Some (no_touch, xy', s').
Proof.
  intros Hst Hstale H1 H2.
  destruct s as [tp st n m info pt np tm xb0 yb0 lx ly].
  cbn [touchState timeSinceTouch lastX lastY] in *. subst st.
  unfold _TouchTicker. cbn [timeSinceTouch].
  destruct (Z.gtb_spec tm NOTOUCH_TIMEOUT_uS) as [_ | Hle]; [ | lia].
  unfold TouchPanelA2DFiltered. rewrite H1, H2.
  cbn. eexists. split; [reflexivity | ]. split; reflexivity.
Qed.

Lemma stale_touch_is_released_once_witness :
  exists s',
    TouchPanelA2DFiltered (mkChip 0 0 0 0) (1, 2) (_TouchTicker stale_held)
    = Some (release, (0, 0), s') /\
    touchState s' = no_touch /\
    TouchPanelA2DFiltered (mkChip 0 0 0 0) (3, 4) s'
    = Some (no_touch, (3, 4), s').
Proof.
  apply (stale_touch_is_released_once (mkChip 0 0 0 0) (mkChip 0 0 0 0)
           (1, 2) (3, 4) stale_held).
  - reflexivity.
  - unfold stale_held, NOTOUCH_TIMEOUT_uS. simpl. lia.
  - reflexivity.
  - reflexivity.
Defined.

(** ** Touch panel: a calibrated panel stays calibrated *)




(** X8.  The matrix a successful calibration hands to its caller
    can be stored away and installed later: [TouchPanelSetMatrix] accepts
    it on any state, after which [TouchPanelGetMatrix] returns the very
    matrix the calibration stored, and the state is [no_touch]. *)
Theorem calibration_matrix_can_be_restored
    (displayPtr screenPtr : points3) (m0 m : tpMatrix_t) (s s1 s2 : RA8875) :
  TouchPanelComputeCalibration displayPtr screenPtr (Some m0) s
  = (noerror, s1, Some m) ->
  exists s2',
    TouchPanelSetMatrix (Some m) s2 = (noerror, s2') /\
    TouchPanelGetMatrix s2' = TouchPanelGetMatrix s1 /\
    TouchPanelGetMatrix s2' = m /\
    touchState s2' = no_touch.
Proof.
  unfold TouchPanelComputeCalibration, TouchPanelSetMatrix,
    TouchPanelGetMatrix.
  cbn [tpMatrix set_tpMatrix Divider set_Divider].
  destruct (Z.eqb_spec (compute_Divider screenPtr) 0) as [E | E];
    [discriminate | ].
  intros H. injection H as <- <-. cbn [Divider].
  destruct (Z.eqb_spec (compute_Divider screenPtr) 0) as [E' | _];
    [contradiction | ].
  eexists. split; [reflexivity | ]. repeat split.
Qed.

Lemma calibration_matrix_can_be_restored_witness :
  exists m s2',
    TouchPanelSetMatrix (Some m) uncalibrated_panel = (noerror, s2') /\
    TouchPanelGetMatrix s2' = m /\ Divider m = 440700.
Proof.
  destruct (TouchPanelComputeCalibration targets good_samples
              (Some (mkMatrix 0 0 0 0 0 0 0)) calibrated_panel)
    as [[rc s1] m'] eqn:E.
  assert (C : exists c1 mm, (rc, s1, m') = (noerror, c1, Some mm) /\
                            Divider mm = 440700).
  { rewrite <- E. eexists _, _. vm_compute. split; reflexivity. }
  destruct C as (c1 & mm & C & HD). injection C as -> -> ->.
  destruct (calibration_matrix_can_be_restored targets good_samples
              (mkMatrix 0 0 0 0 0 0 0) mm calibrated_panel c1
              uncalibrated_panel E) as (s2' & Hset & _ & Hget & _).
  exists mm, s2'. repeat split; assumption.
Defined.

(** X9.  Whatever the panel type and the caller's argument, a call
    of [TouchPanelReadable] that returns leaves the [panelTouched] flag
    cleared: a touch event is handed out once. *)
Theorem Readable_clears_panelTouched (chip : chip_t)
    (TouchPoint : option point_t) (s : RA8875) (ts : TouchCode_t)
    (p : option point_t) (s' : RA8875) :
  TouchPanelReadable chip TouchPoint s = Some (ts, p, s') ->
  panelTouched s' = false.
Proof.
  unfold TouchPanelReadable.
  assert (Hend : forall r s0,
            (if panelTouched s0
             then match TouchPoint with
                  | Some _ =>
                      touchInfo (set_panelTouched false s0) !! 0%nat
                      ≫= λ t0, Some (touchCode t0, Some (coordinates t0),
                                     set_panelTouched false s0)
                  | None => Some (touch, None, set_panelTouched false s0)
                  end
             else Some (r, TouchPoint, s0)) = Some (ts, p, s') ->
            panelTouched s' = false).
  { intros r s0. destruct (panelTouched s0) eqn:F.
    - destruct TouchPoint.
      + destruct (touchInfo (set_panelTouched false s0) !! 0%nat);
          [ | discriminate].
        cbn [mbind option_bind]. intros H. injection H as <- <- <-.
        reflexivity.
      + intros H. injection H as <- <- <-. reflexivity.
    - intros H. injection H as <- <- <-. exact F. }
  destruct (useTouchPanel s); cbn [mbind option_bind];
    try (apply Hend).
  destruct (touchInfo s !! 0%nat) as [t0 | ]; [ | discriminate].
  cbn [mbind option_bind].
  destruct (TouchPanelA2DFiltered chip (0, 0) s) as [[[fs [a b]] s1] | ];
    [ | discriminate].
  cbn [mbind option_bind].
  destruct (negb (TouchCode_eqb fs no_touch));
    [destruct (negb (Divider (tpMatrix _) =? 0)) | ];
    cbn [mbind option_bind]; apply Hend.
Qed.

Lemma Readable_clears_panelTouched_witness :
  exists ts p s',
    TouchPanelReadable pending_chip None uncalibrated_panel
    = Some (ts, p, s') /\ panelTouched s' = false.
Proof.
  assert (C : exists ts p s',
            TouchPanelReadable pending_chip None uncalibrated_panel
            = Some (ts, p, s'))
    by (eexists _, _, _; vm_compute; reflexivity).
  destruct C as (ts & p & s' & C). exists ts, p, s'.
  split; [exact C | ].
  exact (Readable_clears_panelTouched _ _ _ _ _ _ C).
Defined.

(** ** Capacitive panels *)

Lemma land_low_bits (v : Z) (n : Z) :
  0 <= n -> 0 <= Z.land v (Z.ones n) < 2 ^ n.
Proof.
  intros Hn. rewrite Z.land_ones by exact Hn.
  apply Z.mod_pos_bound. apply Z.pow_pos_nonneg; lia.
Qed.

Lemma to_uint8_byte (v : Z) : is_byte (to_uint8 v).
Proof. unfold is_byte, to_uint8. apply Z.mod_pos_bound. lia. Qed.



Lemma touchInfo_set_inside (s : RA8875) (i : nat) (t : touchInfo_T) :
  (i < length (touchInfo s))%nat ->
  touchInfo_set s i t = Some (set_touchInfo (<[i := t]> (touchInfo s)) s).
Proof.
  intros H. unfold touchInfo_set.
  destruct (decide (i < length (touchInfo s))%nat); [reflexivity | lia].
Qed.

(** What [FT5206_TouchPositions] leaves in the state. *)
Lemma FT5206_TouchPositions_run (regs : Z -> Z) (s : RA8875) :
  (5 <= length (touchInfo s))%nat ->
  FT5206_TouchPositions regs s
  = Some (Z.land (FT5206_ReadRegU8 regs FT5206_TD_STATUS) 15,
          FT5206_ReadRegU8 regs FT5206_GEST_ID,
          set_touchInfo
            (<[0%nat := FT5206_touch regs FT5206_TOUCH1_XH FT5206_TOUCH1_XL
                                     FT5206_TOUCH1_YH FT5206_TOUCH1_YL]>
            (<[1%nat := FT5206_touch regs FT5206_TOUCH2_XH FT5206_TOUCH2_XL
                                     FT5206_TOUCH2_YH FT5206_TOUCH2_YL]>
            (<[2%nat := FT5206_touch regs FT5206_TOUCH3_XH FT5206_TOUCH3_XL
                                     FT5206_TOUCH3_YH FT5206_TOUCH3_YL]>
            (<[3%nat := FT5206_touch regs FT5206_TOUCH4_XH FT5206_TOUCH4_XL
                                     FT5206_TOUCH4_YH FT5206_TOUCH4_YL]>
            (<[4%nat := FT5206_touch regs FT5206_TOUCH5_XH FT5206_TOUCH5_XL
                                     FT5206_TOUCH5_YH FT5206_TOUCH5_YL]>
               (touchInfo s))))))
            (set_numberOfTouchPoints
               (Z.land (FT5206_ReadRegU8 regs FT5206_TD_STATUS) 15) s)).
Proof.
  intros Hlen. unfold FT5206_TouchPositions. cbv zeta.
  rewrite touchInfo_set_inside by (cbn [touchInfo set_numberOfTouchPoints]; lia).
  cbn [mbind option_bind].
  rewrite touchInfo_set_inside
    by (cbn [touchInfo set_touchInfo]; rewrite !length_insert; cbn; lia).
  cbn [mbind option_bind].
  rewrite touchInfo_set_inside
    by (cbn [touchInfo set_touchInfo]; rewrite !length_insert; cbn; lia).
  cbn [mbind option_bind].
  rewrite touchInfo_set_inside
    by (cbn [touchInfo set_touchInfo]; rewrite !length_insert; cbn; lia).
  cbn [mbind option_bind].
  rewrite touchInfo_set_inside
    by (cbn [touchInfo set_touchInfo]; rewrite !length_insert; cbn; lia).
  cbn [mbind option_bind].
  cbn [numberOfTouchPoints set_touchInfo set_numberOfTouchPoints touchInfo
       useTouchPanel touchState touchSample tpMatrix panelTouched
       timeSinceTouch xbuf ybuf lastX lastY].
  pose proof (land_low_bits (FT5206_ReadRegU8 regs FT5206_TD_STATUS) 4) as L.
  change (Z.ones 4) with 15 in L. change (2 ^ 4) with 16 in L.
  unfold to_uint8 at 1. rewrite Z.mod_small by lia. reflexivity.
Qed.



Section CapacitiveEvents.

Variable GSL1680_TOUCH_POINTS : Z.

(** X11.  On an FT5206 panel with no event waiting, [TouchPanelISR]
    followed by [TouchPanelReadable] hands a touch out once: when the
    controller reports at least one touch point, the first poll returns
    the event code and the coordinates of touch point 1 and the second
    poll returns [no_touch] and leaves the caller's point alone; when it
    reports none, already the first poll does so. *)
Theorem capacitive_touch_is_delivered_once (regs : Z -> Z) (irq : Z)
    (touch_data : list Z) (chip : chip_t) (p0 : point_t) (s : RA8875) :
  useTouchPanel s = TP_FT5206 ->
  (5 <= length (touchInfo s))%nat ->
  panelTouched s = false ->
  let n := Z.land (FT5206_ReadRegU8 regs FT5206_TD_STATUS) 15 in
  let t1 := FT5206_touch regs FT5206_TOUCH1_XH FT5206_TOUCH1_XL
                         FT5206_TOUCH1_YH FT5206_TOUCH1_YL in
  exists g s1,
    TouchPanelISR GSL1680_TOUCH_POINTS regs irq touch_data s
    = Some (Some g, s1) /\
    (n <> 0 ->
       exists s2,
         TouchPanelReadable chip (Some p0) s1
         = Some (touchCode t1, Some (coordinates t1), s2) /\
         TouchPanelReadable chip (Some p0) s2
         = Some (no_touch, Some p0, s2)) /\
    (n = 0 ->
       TouchPanelReadable chip (Some p0) s1 = Some (no_touch, Some p0, s1)).
Proof.
  intros Htp Hlen Hflag n t1.
  unfold TouchPanelISR. rewrite Htp.
  rewrite FT5206_TouchPositions_run by exact Hlen.
  cbn [mbind option_bind]. fold n. fold t1.
  set (info := <[0%nat := t1]> _).
  assert (H0 : info !! 0%nat = Some t1).
  { subst info. apply list_lookup_insert_eq. rewrite !length_insert. lia. }
  eexists _, _. split; [reflexivity | ].
  destruct s as [tp st k m inf pt np tm xb0 yb0 lx ly].
  cbn [useTouchPanel panelTouched touchInfo] in *. subst tp pt.
  split.
  - intros Hn. destruct (Z.eqb_spec n 0) as [E | _]; [contradiction | ].
    cbn [negb]. unfold TouchPanelReadable.
    cbn [set_panelTouched set_touchInfo set_numberOfTouchPoints
         useTouchPanel panelTouched touchInfo mbind option_bind].
    rewrite H0. cbn [mbind option_bind].
    eexists. split; [reflexivity | ].
    cbn [useTouchPanel panelTouched mbind option_bind]. reflexivity.
  - intros Hn. destruct (Z.eqb_spec n 0) as [_ | E]; [ | contradiction].
    cbn [negb]. unfold TouchPanelReadable.
    cbn [set_panelTouched set_touchInfo set_numberOfTouchPoints
         useTouchPanel panelTouched touchInfo mbind option_bind].
    reflexivity.
Qed.

End CapacitiveEvents.

Lemma capacitive_touch_is_delivered_once_witness :
  exists g s1 s2,
    TouchPanelISR 10 one_finger 1 [] capacitive_panel = Some (Some g, s1) /\
    TouchPanelReadable pending_chip (Some (mkPoint 7 7)) s1
    = Some (touch, Some (mkPoint 300 200), s2) /\
    TouchPanelReadable pending_chip (Some (mkPoint 7 7)) s2
    = Some (no_touch, Some (mkPoint 7 7), s2).
Proof.
  destruct (capacitive_touch_is_delivered_once 10 one_finger 1 []
              pending_chip (mkPoint 7 7) capacitive_panel)
    as (g & s1 & Hisr & Hsome & _).
  - reflexivity.
  - unfold capacitive_panel. cbn [touchInfo]. rewrite length_replicate. lia.
  - reflexivity.
  - destruct Hsome as (s2 & H1 & H2); [vm_compute; discriminate | ].
    exists g, s1, s2. split; [exact Hisr | ]. split; [ | exact H2].
    rewrite H1. reflexivity.
Defined.

Lemma little_endian_word (hi lo : Z) :
  is_byte hi -> is_byte lo ->
  Z.lor (Z.shiftl hi 8) lo = 256 * hi + lo /\
  Z.shiftr (256 * hi + lo) 12 = hi / 16 /\
  Z.land (256 * hi + lo) 0x0FFF = (256 * hi + lo) mod 4096 /\
  Z.land (256 * hi + lo) 0x0FFFF = 256 * hi + lo.
Proof.
  intros Hhi Hlo.
  assert (E : all_below 256 (fun a =>
            all_below 256 (fun b =>
              (Z.lor (Z.shiftl a 8) b =? 256 * a + b) &&
              (Z.shiftr (256 * a + b) 12 =? a / 16) &&
              (Z.land (256 * a + b) 0x0FFF =? (256 * a + b) mod 4096) &&
              (Z.land (256 * a + b) 0x0FFFF =? 256 * a + b))) = true)
    by (vm_compute; reflexivity).
  pose proof (all_below_spec _ _ (all_below_spec _ _ E hi Hhi) lo Hlo) as H.
  cbv beta in H.
  repeat (apply andb_true_iff in H; destruct H as [H ?]).
  repeat split; apply Z.eqb_eq; assumption.
Qed.

Section GSL1680_properties.

Variable GSL1680_TOUCH_POINTS : Z.

Lemma GSL1680_loop_spec (touch_data : list Z) (n : Z) (k : nat) :
  forall (dNdx : Z) (s : RA8875),
    dNdx = 4 * Z.of_nat k + 3 ->
    (k <= length (touchInfo s))%nat ->
    exists s',
      GSL1680_loop touch_data n k dNdx s = Some s' /\
      (forall t, (t < k)%nat ->
         touchInfo s' !! t
         = Some (GSL1680_touch touch_data n (Z.of_nat t)
                               (4 * Z.of_nat t + 7))) /\
      (forall i, (k <= i)%nat -> touchInfo s' !! i = touchInfo s !! i) /\
      numberOfTouchPoints s' = numberOfTouchPoints s /\
      tpMatrix s' = tpMatrix s /\ touchState s' = touchState s /\
      panelTouched s' = panelTouched s.
Proof.
  induction k as [ | k IH]; intros dNdx s Hd Hlen.
  - exists s. split; [reflexivity | ].
    split; [intros t Ht; lia | ]. repeat split.
  - cbn [GSL1680_loop].
    rewrite touchInfo_set_inside by lia. cbn [mbind option_bind].
    set (t := GSL1680_touch touch_data n (Z.of_nat k) dNdx).
    destruct (IH (dNdx - 4) (set_touchInfo (<[k := t]> (touchInfo s)) s))
      as (s' & Hrun & Hlow & Hhigh & Hn & Hm & Hst & Hp).
    + lia.
    + cbn [touchInfo set_touchInfo]. rewrite length_insert. lia.
    + exists s'. split; [exact Hrun | ].
      cbn [touchInfo set_touchInfo numberOfTouchPoints tpMatrix touchState
           panelTouched] in *.
      split.
      { intros i Hi. destruct (Nat.eq_dec i k) as [-> | Hne].
        - rewrite Hhigh by lia. rewrite list_lookup_insert_eq by lia.
          subst t. do 3 f_equal. lia.
        - apply Hlow. lia. }
      split.
      { intros i Hi. rewrite Hhigh by lia.
        apply list_lookup_insert_ne. lia. }
      repeat split; assumption.
Qed.

(** X12.  With storage for [GSL1680_TOUCH_POINTS] touch points and
    the interrupt line low, [GSL1680_TouchPositions] returns the first
    byte read as the number of touches and stores, for every channel [t],
    the code [touch] exactly when [t] is below that number, the y
    coordinate as the low 12 bits and the touch ID as the high 4 bits of
    the little-endian word at bytes [4t+6], [4t+7], and the x coordinate
    as the whole 16-bit word at bytes [4t+4], [4t+5] converted to
    [loc_t].  With the line high it only sets the number of touches to
    0. *)
Theorem GSL1680_fills_touch_points (irq : Z) (touch_data : list Z)
    (s : RA8875) :
  0 <= GSL1680_TOUCH_POINTS ->
  (Z.to_nat GSL1680_TOUCH_POINTS <= length (touchInfo s))%nat ->
  let n := data_byte touch_data 0 in
  (irq = 0 ->
   exists s',
     GSL1680_TouchPositions GSL1680_TOUCH_POINTS irq touch_data s
     = Some (n, Some 0, s') /\
     numberOfTouchPoints s' = n /\
     forall t, 0 <= t < GSL1680_TOUCH_POINTS ->
       exists info,
         touchInfo s' !! Z.to_nat t = Some info /\
         (touchCode info = touch <-> t < n) /\
         (touchCode info = no_touch <-> n <= t) /\
         y (coordinates info)
           = (256 * data_byte touch_data (4 * t + 7)
              + data_byte touch_data (4 * t + 6)) mod 4096 /\
         touchID info = data_byte touch_data (4 * t + 7) / 16 /\
         x (coordinates info)
           = to_int16 (256 * data_byte touch_data (4 * t + 5)
                       + data_byte touch_data (4 * t + 4))) /\
  (irq <> 0 ->
   GSL1680_TouchPositions GSL1680_TOUCH_POINTS irq touch_data s
   = Some (0, None, set_numberOfTouchPoints 0 s)).
Proof.
  intros HN Hlen n. split.
  - intros ->. unfold GSL1680_TouchPositions. cbn [Z.eqb].
    assert (En : to_uint8 (default 0 (touch_data !! O)) = n) by reflexivity.
    rewrite En.
    destruct (GSL1680_loop_spec touch_data n (Z.to_nat GSL1680_TOUCH_POINTS)
                (TD_SPACE GSL1680_TOUCH_POINTS - 1)
                (set_numberOfTouchPoints n s))
      as (s' & Hrun & Hlow & _ & Hn & _).
    + unfold TD_SPACE. lia.
    + exact Hlen.
    + rewrite Hrun. cbn [mbind option_bind]. exists s'.
      cbn [numberOfTouchPoints set_numberOfTouchPoints] in Hn.
      pose proof (to_uint8_byte (default 0 (touch_data !! O))) as Bn.
      rewrite En in Bn.
      rewrite Hn. unfold to_uint8 at 1.
      rewrite Z.mod_small by exact Bn.
      split; [reflexivity | ]. split; [reflexivity | ].
      intros t Ht. eexists. split; [apply Hlow; lia | ].
      rewrite Z2Nat.id by lia.
      unfold GSL1680_touch. cbn [touchCode coordinates touchID x y].
      replace (4 * t + 7 - 1) with (4 * t + 6) by lia.
      replace (4 * t + 7 - 2) with (4 * t + 5) by lia.
      replace (4 * t + 7 - 3) with (4 * t + 4) by lia.
      fold (data_byte touch_data (4 * t + 7)).
      fold (data_byte touch_data (4 * t + 6)).
      fold (data_byte touch_data (4 * t + 5)).
      fold (data_byte touch_data (4 * t + 4)).
      pose proof (to_uint8_byte (default 0 (touch_data !! Z.to_nat (4 * t + 7))))
        as B7.
      pose proof (to_uint8_byte (default 0 (touch_data !! Z.to_nat (4 * t + 6))))
        as B6.
      pose proof (to_uint8_byte (default 0 (touch_data !! Z.to_nat (4 * t + 5))))
        as B5.
      pose proof (to_uint8_byte (default 0 (touch_data !! Z.to_nat (4 * t + 4))))
        as B4.
      fold (data_byte touch_data (4 * t + 7)) in B7.
      fold (data_byte touch_data (4 * t + 6)) in B6.
      fold (data_byte touch_data (4 * t + 5)) in B5.
      fold (data_byte touch_data (4 * t + 4)) in B4.
      destruct (little_endian_word _ _ B7 B6) as (Ey & Eid & Emask & _).
      destruct (little_endian_word _ _ B5 B4) as (Ex & _ & _ & Ekeep).
      rewrite Ey, Ex, Eid, Emask, Ekeep.
      assert (Hy : 0 <= (256 * data_byte touch_data (4 * t + 7)
                         + data_byte touch_data (4 * t + 6)) mod 4096 < 4096)
        by (apply Z.mod_pos_bound; lia).
      assert (Hid : 0 <= data_byte touch_data (4 * t + 7) / 16 < 16).
      { unfold is_byte in B7. split.
        - apply Z.div_pos; lia.
        - apply Z.div_lt_upper_bound; lia. }
      rewrite (to_int16_small ((_ + _) mod 4096))
        by (unfold in_int16; lia).
      unfold to_uint8 at 1. rewrite (Z.mod_small (_ / 16)) by lia.
      destruct (Z.gtb_spec n t) as [G | G];
        repeat split; try reflexivity; try lia; try discriminate;
        intros; lia.
  - intros Hirq. unfold GSL1680_TouchPositions.
    destruct (Z.eqb_spec irq 0) as [E | _]; [contradiction | ].
    reflexivity.
Qed.

End GSL1680_properties.

Lemma GSL1680_fills_touch_points_witness :
  exists s',
    GSL1680_TouchPositions 5 0
      [1; 0; 0; 0; 0x2C; 0x81; 0xC8; 0x10] capacitive_panel
    = Some (1, Some 0, s') /\
    touchInfo s' !! 0%nat = Some (mkTouchInfo 1 touch (mkPoint (-32468) 200)) /\
    touchInfo s' !! 1%nat = Some (mkTouchInfo 0 no_touch (mkPoint 0 0)).
Proof.
  destruct (GSL1680_fills_touch_points 5 0
              [1; 0; 0; 0; 0x2C; 0x81; 0xC8; 0x10] capacitive_panel)
    as [H _].
  - lia.
  - unfold capacitive_panel. cbn [touchInfo]. rewrite length_replicate. lia.
  - destruct H as (s' & Hrun & _); [reflexivity | ].
    exists s'.
    assert (C : exists c,
              GSL1680_TouchPositions 5 0
                [1; 0; 0; 0; 0x2C; 0x81; 0xC8; 0x10] capacitive_panel
              = Some (1, Some 0, c) /\
              touchInfo c !! 0%nat
              = Some (mkTouchInfo 1 touch (mkPoint (-32468) 200)) /\
              touchInfo c !! 1%nat
              = Some (mkTouchInfo 0 no_touch (mkPoint 0 0)))
      by (eexists; vm_compute; repeat split; reflexivity).
    destruct C as (c & C & C0 & C1). rewrite C in Hrun.
    injection Hrun as <-. rewrite C. repeat split; assumption.
Defined.

(** ** GIF decoder: color conversion *)

Lemma RGB_fields (r g b : Z) :
  is_byte r -> is_byte g -> is_byte b ->
  Z.land (Z.shiftl r 8) 0xF800 = 2048 * (r / 8) /\
  Z.land (Z.shiftl g 3) 0x07E0 = 32 * (g / 4) /\
  Z.shiftr b 3 = b / 8.
Proof.
  intros Hr Hg Hb.
  assert (E : all_below 256 (fun v =>
            (Z.land (Z.shiftl v 8) 0xF800 =? 2048 * (v / 8)) &&
            (Z.land (Z.shiftl v 3) 0x07E0 =? 32 * (v / 4)) &&
            (Z.shiftr v 3 =? v / 8)) = true)
    by (vm_compute; reflexivity).
  pose proof (all_below_spec _ _ E r Hr) as Er.
  pose proof (all_below_spec _ _ E g Hg) as Eg.
  pose proof (all_below_spec _ _ E b Hb) as Eb.
  cbv beta in Er, Eg, Eb.
  apply andb_true_iff in Er. destruct Er as [Er _].
  apply andb_true_iff in Er. destruct Er as [Er _].
  apply andb_true_iff in Eg. destruct Eg as [Eg _].
  apply andb_true_iff in Eg. destruct Eg as [_ Eg].
  apply andb_true_iff in Eb. destruct Eb as [_ Eb].
  repeat split; apply Z.eqb_eq; assumption.
Qed.

Lemma lor_565 (a b c : Z) :
  0 <= a < 32 -> 0 <= b < 64 -> 0 <= c < 32 ->
  Z.lor (Z.lor (2048 * a) (32 * b)) c = 2048 * a + 32 * b + c.
Proof.
  intros Ha Hb Hc.
  assert (E : all_below 32 (fun a =>
            all_below 64 (fun b =>
              all_below 32 (fun c =>
                Z.lor (Z.lor (2048 * a) (32 * b)) c
                =? 2048 * a + 32 * b + c))) = true)
    by (vm_compute; reflexivity).
  apply Z.eqb_eq.
  exact (all_below_spec _ _
           (all_below_spec _ _ (all_below_spec _ _ E a Ha) b Hb) c Hc).
Qed.

(** X13.  For color components that are bytes, [RGB] packs the upper
    five bits of red, the upper six bits of green and the upper five bits
    of blue into a 16-bit value, so two colors get the same value exactly
    when they agree on these bits. *)
Theorem RGB_packs_565 (r g b : Z) :
  is_byte r -> is_byte g -> is_byte b ->
  RGB r g b = rgb565 r g b /\
  0 <= RGB r g b < 65536 /\
  forall r' g' b',
    is_byte r' -> is_byte g' -> is_byte b' ->
    (RGB r' g' b' = RGB r g b
     <-> r' / 8 = r / 8 /\ g' / 4 = g / 4 /\ b' / 8 = b / 8).
Proof.
  assert (P : forall r g b, is_byte r -> is_byte g -> is_byte b ->
            RGB r g b = rgb565 r g b /\
            0 <= r / 8 < 32 /\ 0 <= g / 4 < 64 /\ 0 <= b / 8 < 32).
  { clear. intros r g b Hr Hg Hb.
    destruct (RGB_fields r g b Hr Hg Hb) as (Er & Eg & Eb).
    unfold is_byte in *.
    assert (0 <= r / 8 < 32)
      by (split; [apply Z.div_pos | apply Z.div_lt_upper_bound]; lia).
    assert (0 <= g / 4 < 64)
      by (split; [apply Z.div_pos | apply Z.div_lt_upper_bound]; lia).
    assert (0 <= b / 8 < 32)
      by (split; [apply Z.div_pos | apply Z.div_lt_upper_bound]; lia).
    split; [ | tauto].
    unfold RGB, rgb565. rewrite Er, Eg, Eb. apply lor_565; assumption. }
  intros Hr Hg Hb.
  destruct (P r g b Hr Hg Hb) as (E & Br & Bg & Bb).
  split; [exact E | ]. split; [rewrite E; unfold rgb565; lia | ].
  intros r' g' b' Hr' Hg' Hb'.
  destruct (P r' g' b' Hr' Hg' Hb') as (E' & Br' & Bg' & Bb').
  rewrite E, E'. unfold rgb565. split.
  - intros H. lia.
  - intros (-> & -> & ->). reflexivity.
Qed.

Lemma RGB_packs_565_witness :
  RGB 0xFF 0x80 0x40 = 0xFC08 /\ RGB 0xF8 0x83 0x47 = RGB 0xFF 0x80 0x40.
Proof.
  destruct (RGB_packs_565 0xFF 0x80 0x40) as (E & _ & Q);
    try (unfold is_byte; lia).
  split.
  - rewrite E. reflexivity.
  - apply Q; try (unfold is_byte; lia). repeat split.
Defined.

(** ** GIF decoder: color tables *)

Lemma read_three_bytes (a b c : Z) (rest : FILE) :
  read_filesystem_bytes 3 (a :: b :: c :: rest) = ([a; b; c], rest).
Proof. reflexivity. Qed.

Lemma readColorTable_complete (n : nat) :
  forall (table : list Z) (fh : FILE),
    (3 * n <= length fh)%nat ->
    exists colors,
      readColorTable n table fh = (noerror, table ++ colors, drop (3 * n) fh) /\
      length colors = n /\
      forall i, (i < n)%nat ->
        colors !! i
        = Some (RGB (default 0 (fh !! (3 * i)%nat))
                    (default 0 (fh !! (3 * i + 1)%nat))
                    (default 0 (fh !! (3 * i + 2)%nat))).
Proof.
  induction n as [ | n IH]; intros table fh Hlen.
  - exists []. rewrite app_nil_r. repeat split. intros i Hi. lia.
  - destruct fh as [ | a [ | b [ | c rest]]]; cbn [length] in Hlen; try lia.
    cbn [readColorTable]. rewrite read_three_bytes. cbn [fst snd bytesRead length].
    change (Z.of_nat 3 <? 3) with false. cbv iota.
    destruct (IH (table ++ [RGB a b c]) rest) as (colors & Hrun & Hn & Hi);
      [lia | ].
    exists (RGB a b c :: colors). split; [ | split].
    + rewrite Hrun. rewrite <- app_assoc.
      replace (3 * S n)%nat with (S (S (S (3 * n)))) by lia. reflexivity.
    + cbn [length]. lia.
    + intros [ | i] Hlt; [reflexivity | ].
      replace (3 * S i)%nat with (S (S (S (3 * i)))) by lia.
      cbn [lookup list_lookup Nat.add]. apply Hi. lia.
Qed.

(** X14.  [readColorTable] succeeds exactly when the file still holds
    three bytes for each of the [n] entries.  It then appends [n] colors,
    entry [i] being the [RGB] value of the bytes [3i], [3i+1], [3i+2], and
    leaves the file behind the [3n] bytes.  Otherwise it returns
    [not_supported_format] with the file at its end, having stored the
    entries that were complete. *)
Theorem readColorTable_reads_triples (n : nat) (table : list Z) (fh : FILE) :
  ((3 * n <= length fh)%nat ->
   exists colors,
     readColorTable n table fh = (noerror, table ++ colors, drop (3 * n) fh) /\
     length colors = n /\
     forall i, (i < n)%nat ->
       colors !! i
       = Some (RGB (default 0 (fh !! (3 * i)%nat))
                   (default 0 (fh !! (3 * i + 1)%nat))
                   (default 0 (fh !! (3 * i + 2)%nat)))) /\
  ((length fh < 3 * n)%nat ->
   exists colors,
     readColorTable n table fh = (not_supported_format, table ++ colors, []) /\
     length colors = (length fh / 3)%nat).
Proof.
  split; [apply readColorTable_complete | ].
  revert table fh.
  induction n as [ | n IH]; intros table fh Hlen; [lia | ].
  cbn [readColorTable].
  destruct fh as [ | a [ | b [ | c rest]]].
  - exists []. rewrite app_nil_r. split; reflexivity.
  - exists []. rewrite app_nil_r. split; reflexivity.
  - exists []. rewrite app_nil_r. split; reflexivity.
  - rewrite read_three_bytes. cbn [fst snd bytesRead length].
    change (Z.of_nat 3 <? 3) with false. cbv iota.
    cbn [length] in Hlen.
    destruct (IH (table ++ [RGB a b c]) rest) as (colors & Hrun & Hn);
      [lia | ].
    exists (RGB a b c :: colors). split.
    + rewrite Hrun. rewrite <- app_assoc. reflexivity.
    + cbn [length]. rewrite Hn.
      change (S (S (S (length rest)))) with (3 + length rest)%nat.
      replace (3 + length rest)%nat with (length rest + 1 * 3)%nat by lia.
      rewrite Nat.div_add by lia. lia.
Qed.

Lemma readColorTable_reads_triples_witness :
  readColorTable 2 [] [0xFF; 0x80; 0x40; 0; 0; 0; 0x2C]
  = (noerror, [0xFC08; 0], [0x2C]) /\
  readColorTable 2 [] [0xFF; 0x80; 0x40; 0; 0]
  = (not_supported_format, [0xFC08], []).
Proof.
  split.
  - destruct (readColorTable_reads_triples 2 []
                [0xFF; 0x80; 0x40; 0; 0; 0; 0x2C]) as [H _].
    destruct H as (colors & Hrun & _); [cbn [length]; lia | ].
    rewrite Hrun. vm_compute in Hrun. injection Hrun as <-. reflexivity.
  - destruct (readColorTable_reads_triples 2 []
                [0xFF; 0x80; 0x40; 0; 0]) as [_ H].
    destruct H as (colors & Hrun & _); [cbn [length]; lia | ].
    rewrite Hrun. vm_compute in Hrun. injection Hrun as <-. reflexivity.
Defined.

(** ** GIF decoder: data sub-blocks *)

Lemma read_one_byte (a : Z) (rest : FILE) :
  read_filesystem_bytes 1 (a :: rest) = ([a], rest).
Proof. unfold read_filesystem_bytes. simpl. rewrite drop_0. reflexivity. Qed.

Lemma read_chunk (c rest : list Z) :
  read_filesystem_bytes (Z.of_nat (length c)) (c ++ rest) = (c, rest).
Proof.
  unfold read_filesystem_bytes. rewrite Nat2Z.id.
  rewrite take_app_length, drop_app_length. reflexivity.
Qed.

Lemma sub_blocks_loop_chain (chunks : list (list Z)) :
  forall (k : nat) (data : list Z) (n : Z) (tail : FILE),
    Forall (fun c => (1 <= length c <= 255)%nat) chunks ->
    (length chunks < k)%nat ->
    sub_blocks_loop k data n (data_sub_blocks chunks ++ tail)
    = sub_blocks_loop (k - length chunks) (data ++ concat chunks)
        (n + Z.of_nat (length (concat chunks))) tail.
Proof.
  induction chunks as [ | c chunks IH]; intros k data n tail Hc Hk.
  - cbn [data_sub_blocks fmap list_fmap concat length app].
    rewrite app_nil_r, Z.add_0_r, Nat.sub_0_r. reflexivity.
  - destruct k as [ | k]; [cbn [length] in Hk; lia | ].
    apply Forall_cons in Hc. destruct Hc as [Hc1 Hc].
    unfold data_sub_blocks. cbn [fmap list_fmap concat].
    fold (data_sub_blocks chunks).
    cbn [sub_blocks_loop length app]. rewrite <- !app_assoc.
    cbn [app]. rewrite read_one_byte. unfold bytesRead.
    cbn [fst snd length lookup list_lookup default from_option id].
    change (Z.of_nat 1 <? 1) with false. cbv iota.
    destruct (Z.eqb_spec (Z.of_nat (length c)) 0) as [E | _]; [lia | ].
    rewrite read_chunk. cbn [fst snd].
    rewrite Z.ltb_irrefl.
    rewrite IH by (try assumption; cbn [length] in Hk; lia).
    rewrite length_app, <- app_assoc. cbn [Nat.sub length].
    f_equal; lia.
Qed.

Lemma data_sub_blocks_fuel (chunks : list (list Z)) (tail : FILE) :
  Forall (fun c => (1 <= length c <= 255)%nat) chunks ->
  (length chunks < S (length (data_sub_blocks chunks ++ tail)))%nat.
Proof.
  intros Hc. rewrite length_app.
  assert (length chunks <= length (data_sub_blocks chunks))%nat; [ | lia].
  induction Hc as [ | c chunks H1 _ IH]; [simpl; lia | ].
  unfold data_sub_blocks in *. cbn [fmap list_fmap concat length app].
  rewrite length_app. cbn [length]. lia.
Qed.

(** The loop on a chain that is closed by a size byte of 0, and on one
    that the end of the file cuts short. *)
Lemma sub_blocks_loop_closed (chunks : list (list Z)) (rest : FILE)
    (k : nat) (data : list Z) (n : Z) :
  Forall (fun c => (1 <= length c <= 255)%nat) chunks ->
  (length chunks < k)%nat ->
  sub_blocks_loop k data n (data_sub_blocks chunks ++ 0 :: rest)
  = Ok (n + Z.of_nat (length (concat chunks)), data ++ concat chunks, rest).
Proof.
  intros Hc Hk. rewrite sub_blocks_loop_chain by assumption.
  destruct (k - length chunks)%nat as [ | k'] eqn:Ek; [lia | ].
  cbn [sub_blocks_loop]. rewrite read_one_byte. reflexivity.
Qed.

Lemma sub_blocks_loop_cut (chunks : list (list Z)) (k : nat)
    (data : list Z) (n : Z) :
  Forall (fun c => (1 <= length c <= 255)%nat) chunks ->
  (length chunks < k)%nat ->
  sub_blocks_loop k data n (data_sub_blocks chunks)
  = Ok (-1, data ++ concat chunks, []).
Proof.
  intros Hc Hk. rewrite <- (app_nil_r (data_sub_blocks chunks)).
  rewrite sub_blocks_loop_chain by assumption.
  destruct (k - length chunks)%nat as [ | k'] eqn:Ek; [lia | ].
  reflexivity.
Qed.

(** X15.  [read_gif_sub_blocks] undoes the sub-block framing: a
    chain of non-empty chunks, each behind its size byte, closed by a
    size byte of 0, yields the concatenation of the chunks, its length as
    the return value, and the file right behind the closing byte.  When
    the file ends where the closing byte should be, the return value is
    -1. *)
Theorem sub_blocks_round_trip (chunks : list (list Z)) (rest : FILE) :
  Forall (fun c => (1 <= length c <= 255)%nat) chunks ->
  read_gif_sub_blocks (data_sub_blocks chunks ++ 0 :: rest)
  = Ok (Z.of_nat (length (concat chunks)), concat chunks, rest) /\
  read_gif_sub_blocks (data_sub_blocks chunks)
  = Ok (-1, concat chunks, []).
Proof.
  intros Hc. unfold read_gif_sub_blocks. split.
  - rewrite sub_blocks_loop_closed
      by (try assumption; apply data_sub_blocks_fuel; assumption).
    reflexivity.
  - rewrite sub_blocks_loop_cut; [reflexivity | exact Hc | ].
    pose proof (data_sub_blocks_fuel chunks [] Hc) as Hk.
    rewrite app_nil_r in Hk. exact Hk.
Qed.

Lemma sub_blocks_round_trip_witness :
  read_gif_sub_blocks [2; 0x44; 0x01; 1; 0x07; 0; 0x3B]
  = Ok (3, [0x44; 0x01; 0x07], [0x3B]) /\
  read_gif_sub_blocks [2; 0x44; 0x01; 1; 0x07]
  = Ok (-1, [0x44; 0x01; 0x07], []).
Proof.
  apply (sub_blocks_round_trip [[0x44; 0x01]; [0x07]] [0x3B]).
  repeat constructor.
Defined.

(** ** GIF decoder: recognised extensions *)

Lemma extension_body_fixed (body tail : list Z)
    (k : FILE -> result (Z * FILE)) :
  extension_body (Z.of_nat (length body)) (body ++ tail) k = k tail.
Proof.
  unfold extension_body. rewrite read_chunk. unfold bytesRead.
  cbn [fst snd]. rewrite Z.ltb_irrefl. reflexivity.
Qed.

Lemma process_recognised_extension (code size n : Z) (body : list Z)
    (tail : FILE) :
  extension_fixed_size code = Some n ->
  Z.of_nat (length body) = n ->
  process_gif_extension (code :: size :: body ++ tail) = drain_sub_blocks tail.
Proof.
  intros Hn Hbody. unfold process_gif_extension, extension_fixed_size in *.
  rewrite read_two_bytes. unfold bytesRead.
  cbn [fst snd length lookup list_lookup default from_option id].
  change (Z.of_nat 2 <? extension_size) with false. cbv iota.
  destruct (code =? GRAPHIC_CONTROL).
  { injection Hn as <-. rewrite <- Hbody. apply extension_body_fixed. }
  destruct (code =? APPLICATION_EXTENSION).
  { injection Hn as <-. rewrite <- Hbody. apply extension_body_fixed. }
  destruct (code =? COMMENT_EXTENSION).
  { injection Hn as <-. destruct body; [reflexivity | discriminate]. }
  destruct (code =? PLAINTEXT_EXTENSION); [ | discriminate].
  injection Hn as <-. rewrite <- Hbody. apply extension_body_fixed.
Qed.

(** X16.  A graphic-control, application, comment or plain-text
    extension is skipped: behind the two-byte sub-header
    [process_gif_extension] reads the fixed part of that extension (4, 11,
    0 and 12 bytes; the size byte of the sub-header is not used) and the
    chain of data sub-blocks, returns 1 with the file right behind the
    closing size byte, and the block loop of [_RenderGIF] goes on with
    the next block without touching the display.  A chain that the end of
    the file cuts short makes no difference to the return value. *)
Theorem recognised_extension_is_skipped (code size n : Z) (body : list Z)
    (chunks : list (list Z)) (rest : FILE) :
  extension_fixed_size code = Some n ->
  Z.of_nat (length body) = n ->
  Forall (fun c => (1 <= length c <= 255)%nat) chunks ->
  process_gif_extension
    (code :: size :: body ++ data_sub_blocks chunks ++ 0 :: rest)
  = Ok (1, rest) /\
  process_gif_extension (code :: size :: body ++ data_sub_blocks chunks)
  = Ok (1, []) /\
  forall (fuel : nat) (ScreenX ScreenY : Z) (g : GraphicsDisplay),
    block_loop (S fuel) ScreenX ScreenY
      (EXTENSION_INTRODUCER :: code :: size :: body
         ++ data_sub_blocks chunks ++ 0 :: rest) g
    = block_loop fuel ScreenX ScreenY rest g.
Proof.
  intros Hn Hbody Hc.
  assert (Hfull : read_gif_sub_blocks (data_sub_blocks chunks ++ 0 :: rest)
                  = Ok (Z.of_nat (length (concat chunks)), concat chunks,
                        rest)).
  { unfold read_gif_sub_blocks.
    rewrite sub_blocks_loop_closed
      by (try assumption; apply data_sub_blocks_fuel; assumption).
    reflexivity. }
  assert (Hcut : read_gif_sub_blocks (data_sub_blocks chunks)
                 = Ok (-1, concat chunks, [])).
  { unfold read_gif_sub_blocks.
    rewrite sub_blocks_loop_cut; [reflexivity | exact Hc | ].
    pose proof (data_sub_blocks_fuel chunks [] Hc) as Hk.
    rewrite app_nil_r in Hk. exact Hk. }
  assert (E1 : process_gif_extension
                 (code :: size :: body ++ data_sub_blocks chunks ++ 0 :: rest)
               = Ok (1, rest)).
  { rewrite (process_recognised_extension code size n) by assumption.
    unfold drain_sub_blocks. rewrite Hfull. reflexivity. }
  split; [exact E1 | ]. split.
  - rewrite (process_recognised_extension code size n) by assumption.
    unfold drain_sub_blocks. rewrite Hcut. reflexivity.
  - intros fuel ScreenX ScreenY g. cbn [block_loop].
    rewrite read_one_byte. unfold bytesRead.
    cbn [fst snd length lookup list_lookup default from_option id].
    change (Z.of_nat 1 <? 1) with false.
    change (EXTENSION_INTRODUCER =? IMAGE_DESCRIPTOR) with false.
    change (EXTENSION_INTRODUCER =? EXTENSION_INTRODUCER) with true.
    cbv iota. rewrite E1. reflexivity.
Qed.

Lemma recognised_extension_is_skipped_witness :
  process_gif_extension
    [0xF9; 0x04; 0x00; 0x0A; 0x00; 0x00; 0x00; 0x3B] = Ok (1, [0x3B]) /\
  process_gif_extension
    [0xFE; 0x00; 0x02; 0x68; 0x69; 0x00; 0x3B] = Ok (1, [0x3B]).
Proof.
  split.
  - apply (recognised_extension_is_skipped 0xF9 0x04 4
             [0x00; 0x0A; 0x00; 0x00] [] [0x3B]); try reflexivity.
    constructor.
  - apply (recognised_extension_is_skipped 0xFE 0x00 0
             [] [[0x68; 0x69]] [0x3B]); try reflexivity.
    repeat constructor.
Defined.

(** ** GIF decoder: metrics *)

(** X17.  With a cached screen descriptor [GetGIFMetrics] returns
    the cache and does not look at the file it is given.  Without one it
    reads the descriptor from the very start of the file, where the
    signature lies: for every file that opens with [GIF89a] and has a
    seventh byte it returns [noerror] with width 18759, height 14406,
    fields 0x39 and background color index 0x61, whatever the logical
    screen descriptor of the file says, and caches this.  A file that
    cannot be opened gives [not_supported_format] and stores nothing. *)
Theorem GetGIFMetrics_reads_from_file_start (g : GraphicsDisplay) :
  (screen_descriptor_isvalid g = true ->
   forall file,
     GetGIFMetrics file g = (noerror, Some (screen_descriptor g), g)) /\
  (screen_descriptor_isvalid g = false ->
   (forall b rest,
      let d := mkScreenDescriptor 18759 14406 0x39 0x61 b in
      GetGIFMetrics
        (Some ([0x47; 0x49; 0x46; 0x38; 0x39; 0x61] ++ b :: rest)) g
      = (noerror, Some d, set_screen_descriptor d g)) /\
   GetGIFMetrics None g = (not_supported_format, None, g)).
Proof.
  split.
  - intros Hv file. unfold GetGIFMetrics. rewrite Hv. reflexivity.
  - intros Hv. split.
    + intros b rest d. unfold GetGIFMetrics. rewrite Hv. reflexivity.
    + unfold GetGIFMetrics. rewrite Hv. reflexivity.
Qed.

Lemma GetGIFMetrics_reads_from_file_start_witness :
  fst (fst (GetGIFMetrics (Some one_pixel_gif) blank_display)) = noerror /\
  width <$> snd (fst (GetGIFMetrics (Some one_pixel_gif) blank_display))
  = Some 18759 /\
  GetGIFMetrics None
    (set_screen_descriptor (mkScreenDescriptor 1 1 0x80 0 0) blank_display)
  = (noerror, Some (mkScreenDescriptor 1 1 0x80 0 0),
     set_screen_descriptor (mkScreenDescriptor 1 1 0x80 0 0) blank_display).
Proof.
  destruct (GetGIFMetrics_reads_from_file_start blank_display) as [_ H].
  destruct H as [H _]; [reflexivity | ].
  specialize (H 0x01 (drop 7 one_pixel_gif)).
  change ([71; 73; 70; 56; 57; 97] ++ 1 :: drop 7 one_pixel_gif)
    with one_pixel_gif in H.
  rewrite H. split; [reflexivity | ]. split; [reflexivity | ].
  destruct (GetGIFMetrics_reads_from_file_start
              (set_screen_descriptor (mkScreenDescriptor 1 1 0x80 0 0)
                 blank_display)) as [H' _].
  apply H'. reflexivity.
Defined.

(** ** GIF decoder: rendering a fragment *)






(** ** GIF decoder: what a run leaves of the display *)

Lemma well_framed_app (a b : list sink_call) :
  well_framed a = true -> well_framed b = true -> well_framed (a ++ b) = true.
Proof.
  intros Ha Hb.
  assert (H : forall n a, (length a <= n)%nat -> well_framed a = true ->
              well_framed (a ++ b) = true).
  { clear a Ha. induction n as [ | n IH]; intros a Hn Ha.
    - destruct a; [exact Hb | cbn [length] in Hn; lia].
    - destruct a as [ | [ | | ] [ | [ | | ] [ | [ | | ] a]]];
        try discriminate; [exact Hb | ].
      cbn [well_framed app] in *.
      apply andb_true_iff in Ha. destruct Ha as [Ha1 Ha].
      rewrite Ha1. cbn [andb]. apply IH; [cbn [length] in Hn; lia | exact Ha]. }
  apply (H (length a)); [lia | exact Ha].
Qed.

Lemma display_extends_refl (g : GraphicsDisplay) : display_extends g g.
Proof. repeat split. exists []. split; reflexivity. Qed.

Lemma display_extends_trans (g1 g2 g3 : GraphicsDisplay) :
  display_extends g1 g2 -> display_extends g2 g3 -> display_extends g1 g3.
Proof.
  intros (A1 & A2 & A3 & A4 & ca & Ea & Fa) (B1 & B2 & B3 & B4 & cb & Eb & Fb).
  repeat split; try congruence.
  exists (cb ++ ca). split.
  - rewrite Eb, Ea, app_assoc. reflexivity.
  - apply well_framed_app; assumption.
Qed.

Lemma display_extends_local (t : option (list Z)) (n : Z)
    (g : GraphicsDisplay) :
  display_extends g (set_local_color_table t n g).
Proof. repeat split. exists []. split; reflexivity. Qed.

Lemma readGIFImageDescriptor_display (fh : FILE) (g : GraphicsDisplay) :
  display_extends g (snd (readGIFImageDescriptor fh g)).
Proof.
  unfold readGIFImageDescriptor.
  destruct (bytesRead _ <? _); [apply display_extends_refl | ].
  destruct (negb _); [ | apply display_extends_refl].
  destruct (readColorTable _ _ _) as [[rc table] fh'].
  destruct rc; apply display_extends_local.
Qed.

Lemma process_gif_image_descriptor_display (fh : FILE) (w h : Z)
    (g : GraphicsDisplay) (rc : RetCode_t) (data : option (list (option Z)))
    (fh' : FILE) (g' : GraphicsDisplay) :
  process_gif_image_descriptor fh w h g = Ok (rc, data, fh', g') ->
  display_extends g g'.
Proof.
  unfold process_gif_image_descriptor.
  destruct (bytesRead _ <? 1).
  { intros H. injection H as <- <- <- <-. apply display_extends_local. }
  destruct (read_gif_sub_blocks _) as [[[n cd] f] | ]; [ | discriminate].
  cbn [mbind result_bind].
  destruct (n >? 0).
  - destruct (uncompress_gif _ _ _ _) as [[r o] | ]; [ | discriminate].
    cbn [mbind result_bind]. intros H. injection H as <- <- <- <-.
    apply display_extends_local.
  - intros H. injection H as <- <- <- <-. apply display_extends_local.
Qed.

Lemma render_fragment_display (ScreenX ScreenY : Z)
    (d : gif_image_descriptor_t) (data : list (option Z))
    (g g' : GraphicsDisplay) :
  render_fragment ScreenX ScreenY d data g = Ok g' -> display_extends g g'.
Proof.
  unfold render_fragment.
  destruct (color_map _ _ _) as [cbmp | ]; [ | discriminate].
  cbn [mbind result_bind]. intros H. injection H as <-.
  repeat split. eexists [_; _; _]. split; [reflexivity | ].
  cbn [well_framed]. rewrite !Z.eqb_refl. reflexivity.
Qed.

Lemma block_loop_display (ScreenX ScreenY : Z) (fuel : nat) :
  forall (fh : FILE) (g : GraphicsDisplay) (rc : RetCode_t) (fh' : FILE)
         (g' : GraphicsDisplay),
    block_loop fuel ScreenX ScreenY fh g = Ok (rc, fh', g') ->
    display_extends g g'.
Proof.
  induction fuel as [ | fuel IH]; intros fh g rc fh' g'; [discriminate | ].
  cbn [block_loop].
  destruct (bytesRead _ <? 1).
  { intros H. injection H as <- <- <-. apply display_extends_refl. }
  destruct (_ =? IMAGE_DESCRIPTOR).
  { pose proof (readGIFImageDescriptor_display
                  (snd (read_filesystem_bytes 1 fh)) g) as Hd.
    destruct (readGIFImageDescriptor _ g) as [[[rc1 d] f1] g1].
    cbn [snd] in Hd.
    assert (Hfail : Ok (not_supported_format, f1, g1) = Ok (rc, fh', g') ->
                    display_extends g g').
    { intros H. injection H as <- <- <-. exact Hd. }
    destruct rc1; try exact Hfail.
    destruct d as [d | ]; [ | exact Hfail].
    destruct (process_gif_image_descriptor f1 _ _ g1)
      as [[[[rc2 data] f2] g2] | ] eqn:Ep; [ | discriminate].
    pose proof (process_gif_image_descriptor_display _ _ _ _ _ _ _ _ Ep) as Hp.
    cbn [mbind result_bind].
    assert (Hfail2 : Ok (not_supported_format, f2, g2) = Ok (rc, fh', g') ->
                     display_extends g g').
    { intros H. injection H as <- <- <-.
      exact (display_extends_trans _ _ _ Hd Hp). }
    destruct rc2; try exact Hfail2.
    destruct (match data with
              | Some data0 => render_fragment ScreenX ScreenY d data0 g2
              | None => Ok g2
              end) as [g3 | ] eqn:Er; [ | discriminate].
    cbn [mbind result_bind]. intros H. apply IH in H.
    assert (Hr : display_extends g2 g3).
    { destruct data as [data | ].
      - exact (render_fragment_display _ _ _ _ _ _ Er).
      - injection Er as <-. apply display_extends_refl. }
    eapply display_extends_trans; [exact Hd | ].
    eapply display_extends_trans; [exact Hp | ].
    eapply display_extends_trans; [exact Hr | ].
    eapply display_extends_trans; [ | exact H].
    apply display_extends_local. }
  destruct (_ =? EXTENSION_INTRODUCER).
  { destruct (process_gif_extension _) as [[ok f] | ]; [ | discriminate].
    cbn [mbind result_bind]. destruct (ok =? 0).
    - intros H. injection H as <- <- <-. apply display_extends_refl.
    - apply IH. }
  destruct (_ =? TRAILER); intros H; injection H as <- <- <-;
    apply display_extends_refl.
Qed.

Lemma RenderGIF_display (ScreenX ScreenY : Z) (fh : FILE)
    (g : GraphicsDisplay) (rc : RetCode_t) (fh' : FILE)
    (g' : GraphicsDisplay) :
  _RenderGIF ScreenX ScreenY fh g = Ok (rc, fh', g') ->
  exists calls, sink g' = calls ++ sink g /\ well_framed calls = true.
Proof.
  unfold _RenderGIF.
  set (g0 := set_local_color_table _ 0 (set_global_color_table _ 0 g)).
  assert (Hs0 : sink g0 = sink g) by reflexivity.
  assert (Hh : sink (snd (GetGIFHeader fh g0)) = sink g0).
  { unfold GetGIFHeader. destruct (bytesRead _ <? _); reflexivity. }
  destruct (GetGIFHeader fh g0) as [[rc1 f1] g1]. cbn [snd] in Hh.
  assert (Hfail : forall f, Ok (not_supported_format, f, g1) = Ok (rc, fh', g')
                  -> exists calls, sink g' = calls ++ sink g /\
                                   well_framed calls = true).
  { intros f H. injection H as <- <- <-. exists []. split; [ | reflexivity].
    cbn [app]. congruence. }
  destruct rc1; try apply Hfail.
  destruct (negb _).
  - destruct (readColorTable _ _ _) as [[rc2 table] f2].
    destruct rc2;
      try (intros H; injection H as <- <- <-; exists [];
           split; [cbn [app sink set_global_color_table]; congruence
                  | reflexivity]).
    intros H. apply block_loop_display in H.
    destruct H as (_ & _ & _ & _ & calls & E & F).
    exists calls. split; [ | exact F]. rewrite E.
    cbn [sink set_global_color_table]. congruence.
  - intros H. apply block_loop_display in H.
    destruct H as (_ & _ & _ & _ & calls & E & F).
    exists calls. split; [ | exact F]. congruence.
Qed.

(** X19.  Whatever the file holds, the calls that a returning
    [RenderGIFFile] has sent to the display come in whole frames put in
    front of the earlier calls: a [window] call, one [pixelStream] at that
    window's origin, and the [window] call that restores the previous
    window.  A run that fails half way has therefore restored the window
    after the last fragment it drew.  When the file cannot be opened or
    does not open with [GIF89a], the return code is [file_not_found] and
    no call is sent. *)
Theorem RenderGIFFile_sends_whole_frames (px py : Z) (file : option FILE)
    (g : GraphicsDisplay) (rc : RetCode_t) (g' : GraphicsDisplay) :
  RenderGIFFile px py file g = Ok (rc, g') ->
  (exists calls, sink g' = calls ++ sink g /\ well_framed calls = true) /\
  ((forall fh, file = Some fh ->
      take 6 fh <> [0x47; 0x49; 0x46; 0x38; 0x39; 0x61]) ->
   rc = file_not_found /\ sink g' = sink g).
Proof.
  unfold RenderGIFFile.
  set (g0 := mkDisplay _ false _ _ _ _ _).
  assert (Hs0 : sink g0 = sink g) by reflexivity.
  destruct file as [fh | ].
  - assert (Hsig : fst (hasGIFHeader fh) = true ->
                   take 6 fh = [0x47; 0x49; 0x46; 0x38; 0x39; 0x61]).
    { unfold hasGIFHeader, read_filesystem_bytes. cbn [fst snd].
      destruct (bytesRead _ =? 6); [ | discriminate].
      intros H. apply bool_decide_eq_true in H. exact H. }
    destruct (hasGIFHeader fh) as [is_gif f1]. cbn [fst] in Hsig.
    destruct is_gif.
    + destruct (_RenderGIF px py f1 g0) as [[[rc1 f2] g2] | ] eqn:Er;
        [ | discriminate].
      cbn [mbind result_bind]. intros H. injection H as <- <-.
      apply RenderGIF_display in Er. split.
      * destruct Er as (calls & E & F). exists calls.
        split; [congruence | exact F].
      * intros Hno. exfalso. apply (Hno fh eq_refl). apply Hsig. reflexivity.
    + intros H. injection H as <- <-. split.
      * exists []. split; reflexivity.
      * intros _. split; reflexivity.
  - intros H. injection H as <- <-. split.
    + exists []. split; reflexivity.
    + intros _. split; reflexivity.
Qed.

Lemma RenderGIFFile_sends_whole_frames_witness :
  exists g',
    RenderGIFFile 10 20 (Some one_pixel_gif) blank_display = Ok (noerror, g') /\
    sink g' = [window_restore; pixelStream_call [0xFC08] 1 10 20;
               window_call 10 20 1 1] /\
    well_framed (sink g') = true.
Proof.
  assert (C : exists c,
            RenderGIFFile 10 20 (Some one_pixel_gif) blank_display
            = Ok (noerror, c) /\
            sink c = [window_restore; pixelStream_call [0xFC08] 1 10 20;
                      window_call 10 20 1 1])
    by (eexists; split; vm_compute; reflexivity).
  destruct C as (c & C & Cs). exists c.
  split; [exact C | ]. split; [exact Cs | ].
  destruct (RenderGIFFile_sends_whole_frames 10 20 (Some one_pixel_gif)
              blank_display noerror c C) as [(calls & E & F) _].
  cbn [sink blank_display] in E. rewrite app_nil_r in E.
  rewrite E. exact F.
Defined.

Lemma RenderGIF_descriptor (ScreenX ScreenY : Z) (w0 w1 h0 h1 f b a : Z)
    (rest : FILE) (g : GraphicsDisplay) (rc : RetCode_t) (fh' : FILE)
    (g' : GraphicsDisplay) :
  _RenderGIF ScreenX ScreenY (w0 :: w1 :: h0 :: h1 :: f :: b :: a :: rest) g
  = Ok (rc, fh', g') ->
  screen_descriptor_isvalid g' = true /\
  screen_descriptor g'
  = mkScreenDescriptor (w0 + 256 * w1) (h0 + 256 * h1) f b a.
Proof.
  unfold _RenderGIF.
  set (g0 := set_local_color_table _ 0 (set_global_color_table _ 0 g)).
  change (GetGIFHeader (w0 :: w1 :: h0 :: h1 :: f :: b :: a :: rest) g0)
    with (noerror, drop 0 rest,
          set_screen_descriptor
            (mkScreenDescriptor (w0 + 256 * w1) (h0 + 256 * h1) f b a) g0).
  cbv iota beta. rewrite drop_0.
  set (g1 := set_screen_descriptor _ g0).
  destruct (negb _).
  - destruct (readColorTable _ _ _) as [[rc2 table] f2].
    destruct rc2;
      try (intros H; injection H as <- <- <-; split; reflexivity).
    intros H. apply block_loop_display in H.
    destruct H as (E1 & E2 & _). rewrite E1, E2. split; reflexivity.
  - intros H. apply block_loop_display in H.
    destruct H as (E1 & E2 & _). rewrite E1, E2. split; reflexivity.
Qed.

(** X20.  Once [RenderGIFFile] has returned for a file that opens
    with [GIF89a] and holds the seven bytes of a logical screen
    descriptor, with whatever return code, the descriptor is cached: a
    following [GetGIFMetrics] returns [noerror] with the width and height
    that file gives in little-endian order, its fields byte, background
    color index and pixel aspect ratio, and does so for any file it is
    asked about. *)
Theorem GetGIFMetrics_after_render (px py : Z) (w0 w1 h0 h1 f b a : Z)
    (rest : FILE) (g : GraphicsDisplay) (rc : RetCode_t)
    (g' : GraphicsDisplay) :
  RenderGIFFile px py
    (Some ([0x47; 0x49; 0x46; 0x38; 0x39; 0x61]
             ++ [w0; w1; h0; h1; f; b; a] ++ rest)) g
  = Ok (rc, g') ->
  forall other,
    GetGIFMetrics other g'
    = (noerror,
       Some (mkScreenDescriptor (w0 + 256 * w1) (h0 + 256 * h1) f b a), g').
Proof.
  unfold RenderGIFFile.
  set (g0 := mkDisplay _ false _ _ _ _ _).
  change (hasGIFHeader
            ([0x47; 0x49; 0x46; 0x38; 0x39; 0x61]
               ++ [w0; w1; h0; h1; f; b; a] ++ rest))
    with (true, w0 :: w1 :: h0 :: h1 :: f :: b :: a :: rest).
  cbv iota beta.
  destruct (_RenderGIF _ _ _ g0) as [[[rc1 f2] g2] | ] eqn:Er;
    [ | discriminate].
  cbn [mbind result_bind]. intros H. injection H as <- <-.
  destruct (RenderGIF_descriptor _ _ _ _ _ _ _ _ _ _ _ _ _ _ Er) as [Hv Hd].
  intros other. unfold GetGIFMetrics. rewrite Hv, Hd. reflexivity.
Qed.

Lemma GetGIFMetrics_after_render_witness :
  exists g',
    RenderGIFFile 10 20 (Some one_pixel_gif) blank_display = Ok (noerror, g') /\
    GetGIFMetrics None g'
    = (noerror, Some (mkScreenDescriptor 1 1 0x80 0 0), g').
Proof.
  assert (C : exists c,
            RenderGIFFile 10 20 (Some one_pixel_gif) blank_display
            = Ok (noerror, c))
    by (eexists; vm_compute; reflexivity).
  destruct C as (c & C). exists c. split; [exact C | ].
  exact (GetGIFMetrics_after_render 10 20 1 0 1 0 0x80 0 0
           (drop 13 one_pixel_gif) blank_display noerror c C None).
Defined.

(** ** GIF decoder: reading codes *)

Lemma land_pow2 (b p : Z) :
  0 <= p -> Z.land b (2 ^ p) = Z.b2z (Z.testbit b p) * 2 ^ p.
Proof.
  intros Hp. apply Z.bits_inj'. intros n Hn.
  rewrite Z.land_spec, Z.pow2_bits_eqb by lia.
  destruct (Z.testbit b p) eqn:Eb; cbn [Z.b2z].
  - rewrite Z.mul_1_l, Z.pow2_bits_eqb by lia.
    destruct (Z.eqb_spec p n) as [<- | _]; [rewrite Eb | rewrite andb_false_r];
      reflexivity.
  - rewrite Z.mul_0_l, Z.bits_0.
    destruct (Z.eqb_spec p n) as [<- | _]; [rewrite Eb | rewrite andb_false_r];
      reflexivity.
Qed.

Lemma lor_shifted_bit (code i : Z) (b : bool) :
  0 <= i -> 0 <= code < 2 ^ i ->
  Z.lor code (Z.shiftl (Z.b2z b) i) = code + 2 ^ i * Z.b2z b.
Proof.
  intros Hi Hc. rewrite Z.shiftl_mul_pow2 by lia.
  rewrite (Z.mul_comm (2 ^ i)).
  assert (Hland : Z.land code (Z.b2z b * 2 ^ i) = 0).
  { apply Z.bits_inj'. intros n Hn. rewrite Z.land_spec, Z.bits_0.
    destruct (Z.ltb_spec n i) as [Hlt | Hge].
    - rewrite Z.mul_pow2_bits_low by lia. apply andb_false_r.
    - destruct (Z.eq_dec code 0) as [-> | Hne]; [rewrite Z.bits_0; reflexivity | ].
      rewrite (Z.bits_above_log2 code n); [reflexivity | lia | ].
      apply Z.log2_lt_pow2; [lia | ].
      apply Z.lt_le_trans with (2 ^ i); [lia | ].
      apply Z.pow_le_mono_r; lia. }
  rewrite <- Z.lxor_lor by exact Hland.
  symmetry. apply Z.add_nocarry_lxor. exact Hland.
Qed.

Lemma byte_bits_length (b : Z) : length (byte_bits b) = 8%nat.
Proof. reflexivity. Qed.

Lemma byte_bits_drop (b : Z) (p : nat) :
  (p < 8)%nat ->
  drop p (byte_bits b) = Z.testbit b (Z.of_nat p) :: drop (S p) (byte_bits b).
Proof.
  intros Hp. do 8 (destruct p as [ | p]; [reflexivity | ]). lia.
Qed.

(** One pass of the bit loop takes the next pending bit. *)
Lemma read_bit_pending (i code : Z) (s : lzw_t) (b : bool) (bs : list bool) :
  cursor_ok s ->
  input_length s = Z.of_nat (length (input s)) ->
  pending_bits s = b :: bs ->
  exists s',
    read_bit i code s = Ok (Z.lor code (Z.shiftl (Z.b2z b) i), s') /\
    cursor_ok s' /\
    input_length s' = Z.of_nat (length (input s')) /\
    pending_bits s' = bs.
Proof.
  intros (p & Hp & Hm & Hnil) Hlen Hpend.
  unfold pending_bits, read_bit in *. rewrite Hm in *.
  rewrite Z.log2_pow2 in Hpend by lia.
  destruct (input s) as [ | byte rest] eqn:Ein.
  { unfold input_bits in Hpend. cbn [fmap list_fmap mjoin list_join] in Hpend.
    rewrite drop_nil in Hpend. discriminate. }
  unfold input_bits in Hpend. cbn [fmap list_fmap mjoin list_join] in Hpend.
  rewrite drop_app_le in Hpend by (rewrite byte_bits_length; lia).
  rewrite byte_bits_drop in Hpend by lia.
  rewrite Z2Nat.id in Hpend by lia.
  cbn [app] in Hpend. injection Hpend as Hb Hbs.
  rewrite land_pow2 by lia. rewrite Hb.
  assert (Ebit : (if Z.b2z b * 2 ^ p =? 0 then 0 else 1) = Z.b2z b).
  { destruct b; cbn [Z.b2z].
    - destruct (Z.eqb_spec (1 * 2 ^ p) 0) as [E | _]; [ | reflexivity].
      assert (0 < 2 ^ p) by (apply Z.pow_pos_nonneg; lia). lia.
    - reflexivity. }
  rewrite Ebit.
  rewrite (Z.shiftl_mul_pow2 (2 ^ p) 1) by lia.
  replace (2 ^ p * 2 ^ 1) with (2 ^ (p + 1))
    by (rewrite Z.pow_add_r by lia; reflexivity).
  destruct (Z.eqb_spec (2 ^ (p + 1)) 256) as [E | E].
  - assert (p = 7).
    { change 256 with (2 ^ 8) in E. apply Z.pow_inj_r in E; lia. }
    subst p. eexists. split; [reflexivity | ]. cbn [mask input input_length].
    split; [exists 0; repeat split; lia | ].
    split; [cbn [length] in Hlen; lia | ].
    change (Z.to_nat (Z.log2 1)) with 0%nat. rewrite drop_0.
    rewrite <- Hbs. reflexivity.
  - assert (p <> 7) by (intros ->; apply E; reflexivity).
    eexists. split; [reflexivity | ]. cbn [mask input input_length].
    split; [exists (p + 1); repeat split; try lia; discriminate | ].
    split; [exact Hlen | ].
    rewrite Z.log2_pow2 by lia.
    unfold input_bits. cbn [fmap list_fmap mjoin list_join].
    rewrite drop_app_le by (rewrite byte_bits_length; lia).
    rewrite <- Hbs. replace (Z.to_nat (p + 1)) with (S (Z.to_nat p)) by lia.
    reflexivity.
Qed.

Lemma bits_value_range (bs : list bool) :
  0 <= bits_value bs < 2 ^ Z.of_nat (length bs).
Proof.
  induction bs as [ | b bs IH]; [simpl; lia | ].
  cbn [bits_value foldr length]. fold (bits_value bs).
  rewrite Nat2Z.inj_succ, Z.pow_succ_r by lia.
  destruct b; cbn [Z.b2z]; lia.
Qed.

(** [n] passes of the bit loop take the next [n] pending bits and deliver
    the number they spell. *)
Lemma read_code_pending (n : nat) :
  forall (i code : Z) (s : lzw_t) (bs rest : list bool),
    cursor_ok s ->
    input_length s = Z.of_nat (length (input s)) ->
    length bs = n ->
    pending_bits s = bs ++ rest ->
    0 <= i -> 0 <= code < 2 ^ i ->
    exists s',
      read_code n i code s = Ok (code + 2 ^ i * bits_value bs, s') /\
      cursor_ok s' /\
      input_length s' = Z.of_nat (length (input s')) /\
      pending_bits s' = rest.
Proof.
  induction n as [ | n IH]; intros i code s bs rest Hc Hlen Hn Hpend Hi Hcode.
  - destruct bs; [ | discriminate]. exists s.
    cbn [read_code bits_value foldr]. rewrite Z.mul_0_r, Z.add_0_r.
    repeat split; assumption.
  - destruct bs as [ | b bs]; [discriminate | ].
    cbn [app] in Hpend.
    destruct (read_bit_pending i code s b (bs ++ rest) Hc Hlen Hpend)
      as (s1 & Hrun & Hc1 & Hlen1 & Hpend1).
    cbn [read_code]. rewrite Hrun. cbn [mbind result_bind].
    rewrite lor_shifted_bit by assumption.
    destruct (IH (i + 1) (code + 2 ^ i * Z.b2z b) s1 bs rest)
      as (s' & Hrun' & Hc' & Hlen' & Hpend'); try assumption.
    + cbn [length] in Hn. lia.
    + lia.
    + rewrite Z.pow_add_r by lia. destruct b; cbn [Z.b2z]; lia.
    + exists s'. split; [ | repeat split; assumption].
      rewrite Hrun'. cbn [bits_value foldr]. fold (bits_value bs).
      rewrite Z.pow_add_r by lia. do 2 f_equal. lia.
Qed.

Lemma code_bits_length (w : nat) (c : Z) : length (code_bits w c) = w.
Proof. unfold code_bits. rewrite length_fmap, length_seq. reflexivity. Qed.

Lemma code_bits_succ (w : nat) (c : Z) :
  code_bits (S w) c = Z.testbit c 0 :: code_bits w (c / 2).
Proof.
  unfold code_bits. cbn [seq fmap list_fmap]. f_equal.
  rewrite <- fmap_S_seq, <- list_fmap_compose.
  apply list_fmap_ext. intros _ j _. cbn [compose].
  rewrite Nat2Z.inj_succ, <- Z.div2_div, Z.div2_spec, Z.shiftr_spec by lia.
  f_equal; lia.
Qed.

Lemma bits_value_code (w : nat) :
  forall c, 0 <= c < 2 ^ Z.of_nat w -> bits_value (code_bits w c) = c.
Proof.
  induction w as [ | w IH]; intros c Hc.
  - change (2 ^ Z.of_nat 0) with 1 in Hc. assert (c = 0) by lia. subst c.
    reflexivity.
  - rewrite code_bits_succ. cbn [bits_value foldr].
    fold (bits_value (code_bits w (c / 2))).
    rewrite Nat2Z.inj_succ, Z.pow_succ_r in Hc by lia.
    rewrite IH.
    + rewrite Z.bit0_mod. pose proof (Z.div_mod c 2). lia.
    + split; [apply Z.div_pos; lia | apply Z.div_lt_upper_bound; lia].
Qed.

(** Reading a code of [w] bits that lies next in the input. *)
Lemma read_code_next (w : nat) (c : Z) (s : lzw_t) (rest : list bool) :
  cursor_ok s ->
  input_length s = Z.of_nat (length (input s)) ->
  pending_bits s = code_bits w c ++ rest ->
  0 <= c < 2 ^ Z.of_nat w ->
  exists s',
    read_code w 0 0 s = Ok (c, s') /\
    cursor_ok s' /\
    input_length s' = Z.of_nat (length (input s')) /\
    pending_bits s' = rest.
Proof.
  intros Hc Hlen Hpend Hrange.
  destruct (read_code_pending w 0 0 s (code_bits w c) rest Hc Hlen
              (code_bits_length w c) Hpend)
    as (s' & Hrun & H'); [lia | simpl; lia | ].
  exists s'. split; [ | exact H'].
  rewrite Hrun, bits_value_code by exact Hrange.
  do 2 f_equal. change (2 ^ 0) with 1. lia.
Qed.

(** ** GIF decoder: images stored without compression *)

Lemma pending_input (s : lzw_t) (b : bool) (bs : list bool) :
  input_length s = Z.of_nat (length (input s)) ->
  pending_bits s = b :: bs -> (input_length s =? 0) = false.
Proof.
  intros Hlen Hpend. unfold pending_bits in Hpend.
  destruct (input s) as [ | byte rest].
  - unfold input_bits in Hpend. cbn [fmap list_fmap mjoin list_join] in Hpend.
    rewrite drop_nil in Hpend. discriminate.
  - cbn [length] in Hlen. apply Z.eqb_neq. lia.
Qed.

Lemma input_bits_cons (b : Z) (l : list Z) :
  input_bits (b :: l) = byte_bits b ++ input_bits l.
Proof. reflexivity. Qed.

Lemma input_bits_length (l : list Z) :
  length (input_bits l) = (8 * length l)%nat.
Proof.
  induction l as [ | b l IH]; [reflexivity | ].
  rewrite input_bits_cons, length_app, IH, byte_bits_length.
  cbn [length]. lia.
Qed.

(** The pass that reads the clear code. *)
Lemma clear_pass (cl : Z) (s : lzw_t) (rest : list bool) :
  0 <= cl ->
  code_length s = cl ->
  cursor_ok s ->
  input_length s = Z.of_nat (length (input s)) ->
  pending_bits s = code_bits (Z.to_nat (cl + 1)) (2 ^ cl) ++ rest ->
  exists s',
    lzw_body cl s = Ok (Continue s') /\
    code_length s' = cl /\ cursor_ok s' /\
    input_length s' = Z.of_nat (length (input s')) /\
    pending_bits s' = rest /\
    prev_code s' = -1 /\
    (forall i, 0 <= i < 2 ^ cl ->
       dict_get (dictionary s') i = Ok (mkEntry (to_uint8 i) (-1) 1)) /\
    (1 <= length (dictionary s'))%nat /\
    out s' = out s /\ out_pos s' = out_pos s.
Proof.
  intros Hcl Hlen0 Hc Hlen Hpend.
  assert (Hpow : 0 < 2 ^ cl) by (apply Z.pow_pos_nonneg; lia).
  assert (Hpow' : 2 ^ (cl + 1) = 2 * 2 ^ cl) by (rewrite Z.pow_add_r; lia).
  destruct (read_code_next (Z.to_nat (cl + 1)) (2 ^ cl) s rest Hc Hlen Hpend)
    as (s1 & Hrun & Hc1 & Hlen1 & Hpend1).
  { rewrite Z2Nat.id by lia. lia. }
  destruct (read_code_frame _ _ _ _ _ _ Hrun) as (F1 & F2 & F3 & F4 & F5 & F6).
  unfold lzw_body. rewrite Hlen0, Hrun. cbn [mbind result_bind].
  rewrite (shiftl_1_pow cl) by lia. rewrite Z.eqb_refl.
  eexists. split; [reflexivity | ].
  cbn [set_dictionary code_length mask input input_length prev_code
       dictionary out out_pos].
  split; [reflexivity | ]. split; [exact Hc1 | ]. split; [exact Hlen1 | ].
  split; [exact Hpend1 | ]. split; [reflexivity | ].
  split.
  { intros i Hi. rewrite <- (shiftl_1_pow cl) by lia.
    apply cleared_dictionary_get; lia. }
  split.
  { rewrite init_dictionary_length. unfold realloc. rewrite length_resize.
    rewrite shiftl_1_pow by lia. lia. }
  split; assumption.
Qed.

(** The pass that reads a single-byte code right behind a clear code. *)
Lemma literal_pass (cl p : Z) (s : lzw_t) (rest : list bool) :
  1 <= cl ->
  code_length s = cl ->
  cursor_ok s ->
  input_length s = Z.of_nat (length (input s)) ->
  pending_bits s = code_bits (Z.to_nat (cl + 1)) p ++ rest ->
  0 <= p < 2 ^ cl ->
  prev_code s = -1 ->
  dict_get (dictionary s) p = Ok (mkEntry (to_uint8 p) (-1) 1) ->
  (1 <= length (dictionary s))%nat ->
  0 <= out_pos s < Z.of_nat (length (out s)) ->
  exists s',
    lzw_body cl s = Ok (Continue s') /\
    code_length s' = cl /\ cursor_ok s' /\
    input_length s' = Z.of_nat (length (input s')) /\
    pending_bits s' = rest /\
    out s' = <[Z.to_nat (out_pos s) := Some (to_uint8 p)]> (out s) /\
    out_pos s' = out_pos s + 1.
Proof.
  intros Hcl Hlen0 Hc Hlen Hpend Hp Hprev Hget Hd Hpos.
  assert (Hpow' : 2 ^ (cl + 1) = 2 * 2 ^ cl) by (rewrite Z.pow_add_r; lia).
  destruct (read_code_next (Z.to_nat (cl + 1)) p s rest Hc Hlen Hpend)
    as (s1 & Hrun & Hc1 & Hlen1 & Hpend1).
  { rewrite Z2Nat.id by lia. lia. }
  destruct (read_code_frame _ _ _ _ _ _ Hrun) as (F1 & F2 & F3 & F4 & F5 & F6).
  unfold lzw_body. rewrite Hlen0, Hrun. cbn [mbind result_bind].
  rewrite (shiftl_1_pow cl) by lia.
  destruct (Z.eqb_spec p (2 ^ cl)) as [E | _]; [lia | ].
  destruct (Z.eqb_spec p (2 ^ cl + 1)) as [E | _]; [lia | ].
  rewrite F4, Hprev. change (-1 >? -1) with false. cbn [andb].
  cbn [mbind result_bind set_dictionary dictionary out out_pos code_length
       dictionary_ind prev_code mask input input_length].
  rewrite F2, Hget. cbn [mbind result_bind len].
  rewrite F5, F6.
  destruct (length (dictionary s)) as [ | k] eqn:Ek; [lia | ].
  cbn [copy_entry].
  destruct (Z.eqb_spec p (-1)) as [E | _]; [lia | ].
  rewrite Hget. cbn [mbind result_bind len byte prev].
  unfold out_set. replace (out_pos s + (1 - 1)) with (out_pos s) by lia.
  destruct (Z.leb_spec 0 (out_pos s)) as [_ | E]; [ | lia].
  destruct (Z.ltb_spec (out_pos s) (Z.of_nat (length (out s)))) as [_ | E];
    [ | lia].
  cbn [andb mbind result_bind].
  destruct (Z.eqb_spec (-1) p) as [E | _]; [lia | ].
  rewrite Z.eqb_refl.
  eexists. split; [reflexivity | ].
  cbn [code_length mask input input_length out out_pos].
  rewrite F1. repeat split; assumption.
Qed.

(** The pass that reads the stop code: the loop is left with [noerror]
    when at most one byte of the input, the one being read included, is
    left, and with [not_supported_format] otherwise. *)
Lemma stop_pass (cl : Z) (s : lzw_t) (pad : list bool) :
  1 <= cl ->
  code_length s = cl ->
  cursor_ok s ->
  input_length s = Z.of_nat (length (input s)) ->
  pending_bits s = code_bits (Z.to_nat (cl + 1)) (2 ^ cl + 1) ++ pad ->
  exists s',
    lzw_body cl s
    = Ok (if (8 <? length pad)%nat then Return not_supported_format s'
          else Break s') /\
    out s' = out s.
Proof.
  intros Hcl Hlen0 Hc Hlen Hpend.
  assert (Hpow : 1 < 2 ^ cl) by (apply Z.pow_gt_1; lia).
  assert (Hpow' : 2 ^ (cl + 1) = 2 * 2 ^ cl) by (rewrite Z.pow_add_r; lia).
  destruct (read_code_next (Z.to_nat (cl + 1)) (2 ^ cl + 1) s pad Hc Hlen Hpend)
    as (s1 & Hrun & Hc1 & Hlen1 & Hpend1).
  { rewrite Z2Nat.id by lia. lia. }
  destruct (read_code_frame _ _ _ _ _ _ Hrun) as (F1 & F2 & F3 & F4 & F5 & F6).
  unfold lzw_body. rewrite Hlen0, Hrun. cbn [mbind result_bind].
  rewrite (shiftl_1_pow cl) by lia.
  destruct (Z.eqb_spec (2 ^ cl + 1) (2 ^ cl)) as [E | _]; [lia | ].
  rewrite Z.eqb_refl.
  assert (Hleft : (length pad + Z.to_nat (Z.log2 (mask s1))
                   = 8 * length (input s1))%nat /\
                  (input s1 = [] -> Z.log2 (mask s1) = 0) /\
                  0 <= Z.log2 (mask s1) < 8).
  { destruct Hc1 as (q & Hq & Hm & Hnil).
    unfold pending_bits in Hpend1. rewrite Hm, Z.log2_pow2 in * by lia.
    apply (f_equal length) in Hpend1.
    rewrite length_drop, input_bits_length in Hpend1.
    split; [ | split; [exact Hnil | lia]].
    destruct (input s1) as [ | b l]; [rewrite Hnil by reflexivity; simpl in *; lia | ].
    cbn [length] in *. lia. }
  destruct Hleft as (Hl & Hnil & Hq).
  exists s1. split; [ | exact F5].
  destruct (Nat.ltb_spec 8 (length pad)) as [Hlong | Hshort];
    destruct (Z.gtb_spec (input_length s1) 1) as [E | E];
    try reflexivity; lia.
Qed.

Lemma literal_codes_cons (cl p : Z) (pixels : list Z) :
  literal_codes cl (p :: pixels) = 2 ^ cl :: p :: literal_codes cl pixels.
Proof. reflexivity. Qed.

Lemma codes_bits_cons (w : nat) (c : Z) (codes : list Z) :
  mjoin (code_bits w <$> (c :: codes))
  = code_bits w c ++ mjoin (code_bits w <$> codes).
Proof. reflexivity. Qed.

Lemma codes_bits_length (w : nat) (codes : list Z) :
  length (mjoin (code_bits w <$> codes)) = (w * length codes)%nat.
Proof.
  induction codes as [ | c codes IH]; [simpl; lia | ].
  rewrite codes_bits_cons, length_app, IH, code_bits_length.
  cbn [length]. lia.
Qed.

Lemma literal_codes_length (cl : Z) (pixels : list Z) :
  length (literal_codes cl pixels) = S (2 * length pixels).
Proof.
  induction pixels as [ | p pixels IH]; [reflexivity | ].
  rewrite literal_codes_cons. cbn [length]. rewrite IH. lia.
Qed.

Lemma code_bits_head (cl c : Z) (rest : list bool) :
  0 <= cl ->
  exists b bs, code_bits (Z.to_nat (cl + 1)) c ++ rest = b :: bs.
Proof.
  intros Hcl. replace (Z.to_nat (cl + 1)) with (S (Z.to_nat cl)) by lia.
  rewrite code_bits_succ. eexists _, _. reflexivity.
Qed.

(** The decoding loop on the codes of an image stored without
    compression. *)
Lemma literal_loop (cl : Z) (pixels : list Z) :
  forall (k : nat) (s : lzw_t) (pad : list bool),
    1 <= cl <= 8 ->
    code_length s = cl ->
    cursor_ok s ->
    input_length s = Z.of_nat (length (input s)) ->
    Forall (fun p => 0 <= p < 2 ^ cl) pixels ->
    pending_bits s
    = mjoin (code_bits (Z.to_nat (cl + 1)) <$> literal_codes cl pixels) ++ pad ->
    0 <= out_pos s ->
    (Z.to_nat (out_pos s) + length pixels <= length (out s))%nat ->
    (2 * length pixels < k)%nat ->
    exists s',
      lzw_loop k cl s
      = Ok (if (8 <? length pad)%nat then not_supported_format else noerror,
            s') /\
      out s'
      = take (Z.to_nat (out_pos s)) (out s) ++ (Some <$> pixels)
          ++ drop (Z.to_nat (out_pos s) + length pixels) (out s).
Proof.
  induction pixels as [ | p pixels IH];
    intros k s pad Hcl Hlen0 Hc Hlen Hall Hpend Hpos Hout Hk.
  - cbn [literal_codes fmap list_fmap mjoin list_join app] in Hpend.
    rewrite app_nil_r in Hpend.
    destruct k as [ | k]; [lia | ]. cbn [lzw_loop].
    destruct (code_bits_head cl (2 ^ cl + 1) pad) as (b & bs & Eb); [lia | ].
    rewrite (pending_input s b bs) by congruence.
    destruct (stop_pass cl s pad) as (s' & Hrun & Ho); try assumption; [lia | ].
    rewrite Hrun. exists s'.
    split; [destruct (8 <? length pad)%nat; reflexivity | ].
    rewrite Ho. cbn [fmap list_fmap app length]. rewrite Nat.add_0_r.
    symmetry. apply take_drop.
  - apply Forall_cons in Hall. destruct Hall as [Hp Hall].
    rewrite literal_codes_cons, !codes_bits_cons, <- !app_assoc in Hpend.
    destruct k as [ | [ | k]]; cbn [length] in Hk; try lia.
    cbn [length] in Hout.
    (* the clear code *)
    destruct (code_bits_head cl (2 ^ cl)
                (code_bits (Z.to_nat (cl + 1)) p
                   ++ mjoin (code_bits (Z.to_nat (cl + 1))
                               <$> literal_codes cl pixels) ++ pad))
      as (b & bs & Eb); [lia | ].
    destruct (clear_pass cl s _ ltac:(lia) Hlen0 Hc Hlen Hpend)
      as (s1 & Hrun1 & L1 & C1 & N1 & P1 & V1 & D1 & DL1 & O1 & OP1).
    cbn [lzw_loop].
    rewrite (pending_input s b bs) by congruence.
    rewrite Hrun1. cbn [mbind result_bind].
    (* the pixel *)
    destruct (code_bits_head cl p
                (mjoin (code_bits (Z.to_nat (cl + 1))
                          <$> literal_codes cl pixels) ++ pad))
      as (b' & bs' & Eb'); [lia | ].
    destruct (literal_pass cl p s1 _ ltac:(lia) L1 C1 N1 P1 Hp V1
                (D1 p Hp) DL1)
      as (s2 & Hrun2 & L2 & C2 & N2 & P2 & O2 & OP2); [rewrite O1, OP1; lia | ].
    rewrite (pending_input s1 b' bs') by congruence.
    rewrite Hrun2. cbn [mbind result_bind].
    assert (Hbyte : to_uint8 p = p).
    { unfold to_uint8. apply Z.mod_small.
      assert (2 ^ cl <= 2 ^ 8) by (apply Z.pow_le_mono_r; lia).
      change (2 ^ 8) with 256 in *. lia. }
    rewrite Hbyte, O1, OP1 in O2. rewrite OP1 in OP2.
    destruct (IH k s2 pad Hcl L2 C2 N2 Hall P2)
      as (s' & Hrun & Ho).
    + lia.
    + rewrite O2, OP2, length_insert. lia.
    + lia.
    + exists s'. split; [exact Hrun | ].
      rewrite Ho, O2, OP2.
      replace (Z.to_nat (out_pos s + 1)) with (S (Z.to_nat (out_pos s)))
        by lia.
      rewrite drop_insert_lt by lia.
      rewrite (take_S_r _ _ (Some p))
        by (apply list_lookup_insert_eq; lia).
      rewrite take_insert_ge by lia.
      cbn [fmap list_fmap length]. rewrite <- app_assoc. cbn [app].
      replace (S (Z.to_nat (out_pos s)) + length pixels)%nat
        with (Z.to_nat (out_pos s) + S (length pixels))%nat by lia.
      reflexivity.
Qed.

Lemma lzw_init_cursor (cl : Z) (input : list Z) (n : Z)
    (outbuf : list (option Z)) :
  cursor_ok (lzw_init cl input n outbuf).
Proof. exists 0. repeat split; lia. Qed.

(** The decoding loop is given more passes than such a stream has
    codes. *)
Lemma literal_stream_fuel (cl : Z) (pixels input : list Z)
    (pad : list bool) :
  1 <= cl ->
  input_bits input
  = mjoin (code_bits (Z.to_nat (cl + 1)) <$> literal_codes cl pixels) ++ pad ->
  (2 * length pixels < S (8 * length input))%nat /\
  (0 < length input)%nat.
Proof.
  intros Hcl Hbits. apply (f_equal length) in Hbits.
  rewrite input_bits_length, length_app, codes_bits_length,
    literal_codes_length in Hbits.
  assert (2 <= Z.to_nat (cl + 1))%nat by lia. split; nia.
Qed.

(** X21.  [uncompress_gif] decodes an image stored without
    compression.  For a code size from 1 to 8 and an input whose bits,
    taken byte after byte from the lowest bit up, spell in codes of one
    bit more than the code size the clear code in front of every pixel
    and the stop code at the end, it writes exactly the pixels, in order,
    to the start of the output buffer.  It returns [noerror] when at most
    eight bits follow the stop code, and [not_supported_format] when more
    do. *)
Theorem uncompress_gif_literal_round_trip (cl : Z) (pixels input : list Z)
    (pad : list bool) (outbuf : list (option Z)) :
  1 <= cl <= 8 ->
  Forall (fun p => 0 <= p < 2 ^ cl) pixels ->
  input_bits input
  = mjoin (code_bits (Z.to_nat (cl + 1)) <$> literal_codes cl pixels) ++ pad ->
  (length pixels <= length outbuf)%nat ->
  uncompress_gif cl input (Z.of_nat (length input)) outbuf
  = Ok (if (8 <? length pad)%nat then not_supported_format else noerror,
        (Some <$> pixels) ++ drop (length pixels) outbuf).
Proof.
  intros Hcl Hall Hbits Hout. unfold uncompress_gif.
  destruct (literal_loop cl pixels (S (8 * length input))
              (lzw_init cl input (Z.of_nat (length input)) outbuf) pad)
    as (s' & Hrun & Ho); try assumption; try reflexivity;
    try (unfold lzw_init; cbn [out_pos]; lia).
  - apply lzw_init_cursor.
  - apply (literal_stream_fuel cl pixels input pad); [lia | exact Hbits].
  - rewrite Hrun. cbn [mbind result_bind]. rewrite Ho. reflexivity.
Qed.

Lemma uncompress_gif_literal_round_trip_witness :
  uncompress_gif 2 [0x0C; 0x57] 2 [None; None; None]
  = Ok (noerror, [Some 1; Some 3; None]) /\
  uncompress_gif 2 [0x0C; 0x57; 0x00; 0x00] 4 [None; None; None]
  = Ok (not_supported_format, [Some 1; Some 3; None]).
Proof.
  split.
  - apply (uncompress_gif_literal_round_trip 2 [1; 3] [0x0C; 0x57] [false]).
    + lia.
    + repeat constructor; lia.
    + reflexivity.
    + cbn [length]. lia.
  - apply (uncompress_gif_literal_round_trip 2 [1; 3]
             [0x0C; 0x57; 0x00; 0x00] (replicate 17 false)).
    + lia.
    + repeat constructor; lia.
    + reflexivity.
    + cbn [length]. lia.
Defined.

(** ** GIF decoder: the strings of the dictionary *)

Lemma entry_string_fuel (d : dictionary_t) (ind : Z) :
  dictionary_ok d ind ->
  forall (k1 k2 : nat) (code : Z),
    0 <= code < ind ->
    (Z.to_nat code < k1)%nat -> (Z.to_nat code < k2)%nat ->
    entry_string k1 d code = entry_string k2 d code.
Proof.
  intros Hok. induction k1 as [ | k1 IH]; intros k2 code Hc H1 H2; [lia | ].
  destruct k2 as [ | k2]; [lia | ]. cbn [entry_string].
  destruct (dict_get d code) as [e | f] eqn:E; [ | reflexivity].
  destruct (Hok code e Hc E) as [[Hp _] | [Hp _]].
  - rewrite Hp. reflexivity.
  - destruct (Z.eqb_spec (prev e) (-1)) as [E1 | _]; [lia | ].
    f_equal. apply IH; lia.
Qed.

Lemma string_of_unfold (d : dictionary_t) (ind code : Z)
    (e : dictionary_entry_t) :
  dictionary_ok d ind -> 0 <= code < ind -> dict_get d code = Ok e ->
  string_of d code
  = (if prev e =? -1 then [] else string_of d (prev e)) ++ [byte e].
Proof.
  intros Hok Hc E. unfold string_of at 1. cbn [entry_string]. rewrite E.
  destruct (Hok code e Hc E) as [[Hp _] | [Hp _]].
  - rewrite Hp. reflexivity.
  - destruct (Z.eqb_spec (prev e) (-1)) as [E1 | _]; [lia | ].
    f_equal. apply (entry_string_fuel d ind Hok); lia.
Qed.

Lemma string_of_length (d : dictionary_t) (ind : Z) :
  dictionary_ok d ind ->
  forall (n : nat) (code : Z) (e : dictionary_entry_t),
    0 <= code < Z.of_nat n -> code < ind -> dict_get d code = Ok e ->
    Z.of_nat (length (string_of d code)) = len e.
Proof.
  intros Hok. induction n as [ | n IH]; intros code e Hn Hc E; [lia | ].
  rewrite (string_of_unfold d ind code e Hok) by (assumption || lia).
  rewrite length_app. cbn [length].
  destruct (Hok code e ltac:(lia) E) as [[Hp Hl] | [Hp (e' & He' & Hl)]].
  - rewrite Hp, Z.eqb_refl. cbn [length]. lia.
  - destruct (Z.eqb_spec (prev e) (-1)) as [E1 | _]; [lia | ].
    rewrite Nat2Z.inj_add, (IH (prev e) e') by (assumption || lia).
    cbn. lia.
Qed.

Lemma string_of_nonempty (d : dictionary_t) (ind code : Z)
    (e : dictionary_entry_t) :
  dictionary_ok d ind -> 0 <= code < ind -> dict_get d code = Ok e ->
  string_of d code <> [].
Proof.
  intros Hok Hc E. rewrite (string_of_unfold d ind code e Hok Hc E).
  intros H. apply app_eq_nil in H. destruct H as [_ H]. discriminate.
Qed.

Lemma hd_app_nonempty (l l' : list Z) :
  l <> [] -> hd 0 (l ++ l') = hd 0 l.
Proof. destruct l; [congruence | reflexivity]. Qed.

(** The walk to the root of an entry finds the first byte of its
    string. *)
Lemma walk_to_root_first (d : dictionary_t) (ind : Z) :
  dictionary_ok d ind ->
  forall (fuel : nat) (ptr : Z) (e : dictionary_entry_t),
    0 <= ptr < ind -> dict_get d ptr = Ok e -> (Z.to_nat ptr < fuel)%nat ->
    exists root er,
      walk_to_root fuel d ptr = Ok root /\
      dict_get d root = Ok er /\
      byte er = hd 0 (string_of d ptr).
Proof.
  intros Hok. induction fuel as [ | fuel IH]; intros ptr e Hp E Hf; [lia | ].
  cbn [walk_to_root]. rewrite E. cbn [mbind result_bind].
  rewrite (string_of_unfold d ind ptr e Hok Hp E).
  destruct (Hok ptr e Hp E) as [[Hr Hl] | [Hr (e' & He' & Hl)]].
  - rewrite Hr, Z.eqb_refl. cbn [app hd]. exists ptr, e. repeat split. exact E.
  - destruct (Z.eqb_spec (prev e) (-1)) as [E1 | _]; [lia | ].
    destruct (IH (prev e) e') as (root & er & Hw & Hg & Hb);
      try assumption; try lia.
    exists root, er. split; [exact Hw | ]. split; [exact Hg | ].
    rewrite hd_app_nonempty; [exact Hb | ].
    apply (string_of_nonempty d ind (prev e) e' Hok); [lia | exact He'].
Qed.

(** The copy loop writes the string of the code, and nothing else. *)
Lemma copy_entry_string (d : dictionary_t) (ind base : Z) :
  dictionary_ok d ind -> 0 <= base ->
  forall (fuel : nat) (code : Z) (e : dictionary_entry_t)
         (o : list (option Z)),
    0 <= code < ind -> dict_get d code = Ok e ->
    (S (Z.to_nat code) < fuel)%nat ->
    base + len e <= Z.of_nat (length o) ->
    copy_entry fuel d code o base
    = Ok (noerror,
          take (Z.to_nat base) o ++ (Some <$> string_of d code)
            ++ drop (Z.to_nat (base + len e)) o).
Proof.
  intros Hok Hbase.
  induction fuel as [ | fuel IH]; intros code e o Hc E Hf Hroom; [lia | ].
  cbn [copy_entry].
  destruct (Z.eqb_spec code (-1)) as [E1 | _]; [lia | ].
  rewrite E. cbn [mbind result_bind].
  pose proof (string_of_length d ind Hok (S (Z.to_nat code)) code e
                ltac:(lia) ltac:(lia) E) as Hlen.
  pose proof (string_of_nonempty d ind code e Hok Hc E) as Hne.
  assert (Hl1 : 1 <= len e).
  { destruct (string_of d code); [congruence | cbn [length] in Hlen; lia]. }
  unfold out_set.
  destruct (Z.leb_spec 0 (base + (len e - 1))) as [_ | E2]; [ | lia].
  destruct (Z.ltb_spec (base + (len e - 1)) (Z.of_nat (length o)))
    as [_ | E2]; [ | lia].
  cbn [andb mbind result_bind].
  rewrite (string_of_unfold d ind code e Hok Hc E).
  destruct (Hok code e Hc E) as [[Hr Hl] | [Hr (e' & He' & Hl)]].
  - rewrite Hr, Hl.
    destruct (Z.eqb_spec (-1) code) as [E3 | _]; [lia | ].
    destruct fuel as [ | fuel]; [lia | ]. cbn [copy_entry].
    rewrite !Z.eqb_refl. cbn [app].
    replace (base + (1 - 1)) with base by lia.
    rewrite insert_take_drop by lia. cbn [fmap list_fmap app].
    replace (Z.to_nat (base + 1)) with (S (Z.to_nat base)) by lia.
    reflexivity.
  - destruct (Z.eqb_spec (prev e) code) as [E3 | _]; [lia | ].
    destruct (Z.eqb_spec (prev e) (-1)) as [E3 | _]; [lia | ].
    rewrite (IH (prev e) e') by
      (try assumption; try lia; rewrite length_insert; lia).
    rewrite take_insert_ge by lia.
    rewrite fmap_app, <- !app_assoc. cbn [fmap list_fmap app].
    replace (base + (len e - 1)) with (base + len e') by lia.
    rewrite drop_insert_ge, Nat.sub_diag by lia.
    do 3 f_equal.
    replace (Z.to_nat (base + len e)) with (S (Z.to_nat (base + len e')))
      by lia.
    destruct (lookup_lt_is_Some_2 o (Z.to_nat (base + len e')))
      as [x Hx]; [lia | ].
    rewrite (drop_S _ _ _ Hx). reflexivity.
Qed.

Lemma dict_get_insert (d : dictionary_t) (ind i : Z)
    (e : dictionary_entry_t) :
  0 <= ind < Z.of_nat (length d) ->
  dict_get (<[Z.to_nat ind := Some e]> d) i
  = if i =? ind then Ok e else dict_get d i.
Proof.
  intros Hind. unfold dict_get.
  destruct (Z.ltb_spec i 0) as [Hneg | Hpos].
  - destruct (Z.eqb_spec i ind) as [E | _]; [lia | reflexivity].
  - destruct (Z.eqb_spec i ind) as [-> | Hne].
    + rewrite list_lookup_insert_eq by lia. reflexivity.
    + rewrite list_lookup_insert_ne by lia. reflexivity.
Qed.

Lemma dict_get_realloc (d : dictionary_t) (n i : Z) :
  i < Z.of_nat (length d) -> i < n ->
  dict_get (realloc d n) i = dict_get d i.
Proof.
  intros Hi Hn. unfold dict_get, realloc.
  destruct (Z.ltb_spec i 0) as [_ | Hpos]; [reflexivity | ].
  rewrite lookup_resize by lia. reflexivity.
Qed.

(** Two dictionaries that agree below [ind] have the same strings
    there. *)
Lemma dictionary_agree (d d' : dictionary_t) (ind : Z) :
  dictionary_ok d ind ->
  (forall i, 0 <= i < ind -> dict_get d' i = dict_get d i) ->
  dictionary_ok d' ind /\
  forall code, 0 <= code < ind -> string_of d' code = string_of d code.
Proof.
  intros Hok Hagree. split.
  - intros i e Hi E. rewrite Hagree in E by exact Hi.
    destruct (Hok i e Hi E) as [H | [Hp (e' & He' & Hl)]]; [left; exact H | ].
    right. split; [exact Hp | ]. exists e'. rewrite Hagree by lia.
    split; assumption.
  - assert (H : forall (k : nat) code, 0 <= code < ind ->
              entry_string k d' code = entry_string k d code).
    { induction k as [ | k IH]; intros code Hc; [reflexivity | ].
      cbn [entry_string]. rewrite Hagree by exact Hc.
      destruct (dict_get d code) as [e | f] eqn:E; [ | reflexivity].
      destruct (Hok code e Hc E) as [[Hp _] | [Hp _]].
      - rewrite Hp. reflexivity.
      - destruct (prev e =? -1); [reflexivity | ]. f_equal. apply IH. lia. }
    intros code Hc. apply H. exact Hc.
Qed.

(** Storing a new entry on top of one below [ind]. *)
Lemma dictionary_extend (d : dictionary_t) (ind p b : Z)
    (before : dictionary_entry_t) :
  dictionary_ok d ind ->
  0 <= ind < Z.of_nat (length d) ->
  0 <= p < ind ->
  dict_get d p = Ok before ->
  let d' := <[Z.to_nat ind := Some (mkEntry b p (len before + 1))]> d in
  dictionary_ok d' (ind + 1) /\
  (forall c, 0 <= c < ind -> dict_get d' c = dict_get d c) /\
  (forall c, 0 <= c < ind -> string_of d' c = string_of d c) /\
  dict_get d' ind = Ok (mkEntry b p (len before + 1)) /\
  string_of d' ind = string_of d p ++ [b].
Proof.
  intros Hok Hind Hp Hbefore d'.
  assert (Hsame : forall c, 0 <= c < ind -> dict_get d' c = dict_get d c).
  { intros c Hc. unfold d'. rewrite dict_get_insert by exact Hind.
    destruct (Z.eqb_spec c ind) as [E | _]; [lia | reflexivity]. }
  assert (Hnew : dict_get d' ind = Ok (mkEntry b p (len before + 1))).
  { unfold d'. rewrite dict_get_insert by exact Hind.
    rewrite Z.eqb_refl. reflexivity. }
  destruct (dictionary_agree d d' ind Hok Hsame) as [Hok' Hstr].
  assert (Hok1 : dictionary_ok d' (ind + 1)).
  { intros i e Hi E. destruct (Z.eq_dec i ind) as [-> | Hne].
    - rewrite Hnew in E. injection E as <-. right. cbn [prev len].
      split; [exact Hp | ]. exists before. rewrite Hsame by exact Hp.
      split; [exact Hbefore | reflexivity].
    - destruct (Hok' i e ltac:(lia) E) as [H | [Hq H]];
        [left; exact H | right; split; [lia | exact H]]. }
  split; [exact Hok1 | ]. split; [exact Hsame | ]. split; [exact Hstr | ].
  split; [exact Hnew | ].
  rewrite (string_of_unfold d' (ind + 1) ind _ Hok1 ltac:(lia) Hnew).
  cbn [prev byte].
  destruct (Z.eqb_spec p (-1)) as [E | _]; [lia | ].
  rewrite Hstr by exact Hp. reflexivity.
Qed.

(** The part of a pass that adds an entry: the new entry stands for the
    string of the previous code followed by the first byte of the string
    of the code just read (of the previous code, when the code just read
    is the entry being added). *)
Lemma update_dictionary_string (code : Z) (s : lzw_t)
    (ep : dictionary_entry_t) :
  dictionary_ok (dictionary s) (dictionary_ind s) ->
  0 <= dictionary_ind s < Z.of_nat (length (dictionary s)) ->
  0 <= prev_code s < dictionary_ind s ->
  dict_get (dictionary s) (prev_code s) = Ok ep ->
  0 <= code <= dictionary_ind s ->
  (code < dictionary_ind s -> exists e, dict_get (dictionary s) code = Ok e) ->
  0 <= code_length s ->
  let first :=
    hd 0 (string_of (dictionary s)
            (if code =? dictionary_ind s then prev_code s else code)) in
  exists s',
    update_dictionary code s = Ok (Continue s') /\
    dictionary_ind s' = dictionary_ind s + 1 /\
    dictionary_ok (dictionary s') (dictionary_ind s + 1) /\
    (forall c, 0 <= c < dictionary_ind s ->
       dict_get (dictionary s') c = dict_get (dictionary s) c /\
       string_of (dictionary s') c = string_of (dictionary s) c) /\
    dict_get (dictionary s') (dictionary_ind s)
    = Ok (mkEntry first (prev_code s) (len ep + 1)) /\
    string_of (dictionary s') (dictionary_ind s)
    = string_of (dictionary s) (prev_code s) ++ [first] /\
    dictionary_ind s < Z.of_nat (length (dictionary s')) /\
    code_length s'
    = (if (dictionary_ind s + 1 =? 2 ^ (code_length s + 1))
          && (code_length s <? 11)
       then code_length s + 1 else code_length s) /\
    prev_code s' = prev_code s /\ mask s' = mask s /\ input s' = input s /\
    input_length s' = input_length s /\ out s' = out s /\
    out_pos s' = out_pos s.
Proof.
  intros Hok Hind Hprev Hep Hcode He Hcl first.
  set (d := dictionary s) in *. set (ind := dictionary_ind s) in *.
  set (start := if code =? ind then prev_code s else code) in *.
  assert (Hstart : 0 <= start < ind /\ exists e, dict_get d start = Ok e).
  { unfold start. destruct (Z.eqb_spec code ind) as [E | E].
    - split; [exact Hprev | exists ep; exact Hep].
    - split; [lia | apply He; lia]. }
  destruct Hstart as [Hs (es & Hes)].
  destruct (walk_to_root_first d ind Hok (S (length d)) start es Hs Hes)
    as (root & er & Hw & Hg & Hb); [lia | ].
  fold first in Hb.
  unfold update_dictionary. fold d ind.
  destruct (Z.gtb_spec code ind) as [E | _]; [lia | ].
  fold start. rewrite Hw. cbn [mbind result_bind].
  rewrite Hg. cbn [mbind result_bind]. rewrite Hep. cbn [mbind result_bind].
  unfold dict_set.
  destruct (Z.leb_spec 0 ind) as [_ | E]; [ | lia].
  destruct (Z.ltb_spec ind (Z.of_nat (length d))) as [_ | E]; [ | lia].
  cbn [andb mbind result_bind]. rewrite Hb.
  destruct (dictionary_extend d ind (prev_code s) first ep Hok Hind Hprev Hep)
    as (Hok1 & Hsame & Hstr & Hnew & Hnews).
  set (d1 := <[Z.to_nat ind := Some (mkEntry first (prev_code s) (len ep + 1))]> d)
    in *.
  rewrite !shiftl_1_pow by lia.
  destruct ((ind + 1 =? 2 ^ (code_length s + 1)) && (code_length s <? 11))
    eqn:Egrow.
  - apply andb_true_iff in Egrow. destruct Egrow as [Eg1 Eg2].
    apply Z.eqb_eq in Eg1. apply Z.ltb_lt in Eg2.
    assert (Hpow : 2 ^ (code_length s + 1 + 1) = 2 * 2 ^ (code_length s + 1))
      by (rewrite (Z.pow_add_r _ _ 1); lia).
    set (d2 := realloc d1 (2 ^ (code_length s + 1 + 1))).
    assert (Hagree : forall c, 0 <= c < ind + 1 ->
              dict_get d2 c = dict_get d1 c).
    { intros c Hc. apply dict_get_realloc; [ | lia].
      unfold d1. rewrite length_insert. lia. }
    destruct (dictionary_agree d1 d2 (ind + 1) Hok1 Hagree) as [Hok2 Hstr2].
    eexists. split; [reflexivity | ].
    cbn [set_dictionary dictionary dictionary_ind code_length prev_code mask
         input input_length out out_pos].
    fold d2.
    split; [reflexivity | ]. split; [exact Hok2 | ].
    split.
    { intros c Hc. rewrite Hagree, Hstr2, Hsame, Hstr by lia.
      split; reflexivity. }
    split; [rewrite Hagree by lia; exact Hnew | ].
    split; [rewrite Hstr2 by lia; exact Hnews | ].
    split.
    { unfold d2, realloc. rewrite length_resize, Z2Nat.id by lia. lia. }
    repeat split.
  - eexists. split; [reflexivity | ].
    cbn [set_dictionary dictionary dictionary_ind code_length prev_code mask
         input input_length out out_pos].
    fold d1.
    split; [reflexivity | ]. split; [exact Hok1 | ].
    split.
    { intros c Hc. rewrite Hsame, Hstr by lia. split; reflexivity. }
    split; [exact Hnew | ]. split; [exact Hnews | ].
    split; [unfold d1; rewrite length_insert; lia | ].
    repeat split.
Qed.

(** X22.  One pass of the decoding loop is the step of the textbook
    LZW decoder.  Let the entries below the next free index be in order,
    the previous code (if any) be one of them, and the code read be
    neither the clear nor the stop code and at most the next free index,
    with room in the dictionary and in the output buffer.  Then the pass
    continues, has appended to the output exactly the string of the code
    (for the code that is the next free index: the string of the previous
    code followed by its first byte), has made the code the previous
    code, and, if there was a previous code, has added at the next free
    index the entry for the string of the previous code followed by the
    first byte just written, with the code width going up by one bit when
    the index after it is [1 << (code_length + 1)] and the width is below
    12 bits.  The strings of the older entries are unchanged and the
    entries stay in order. *)
Theorem lzw_pass_appends_string (rcl : Z) (s s1 : lzw_t) (code : Z) :
  0 <= rcl ->
  0 <= code_length s <= 11 ->
  read_code (Z.to_nat (code_length s + 1)) 0 0 s = Ok (code, s1) ->
  code <> 2 ^ rcl -> code <> 2 ^ rcl + 1 ->
  dictionary_ok (dictionary s) (dictionary_ind s) ->
  0 <= dictionary_ind s < Z.of_nat (length (dictionary s)) ->
  -1 <= prev_code s < dictionary_ind s ->
  (prev_code s <> -1 ->
   exists ep, dict_get (dictionary s) (prev_code s) = Ok ep) ->
  0 <= code <= dictionary_ind s ->
  (code < dictionary_ind s -> exists e, dict_get (dictionary s) code = Ok e) ->
  (code = dictionary_ind s -> prev_code s <> -1) ->
  let str := code_string (dictionary s) (dictionary_ind s) (prev_code s)
               code in
  0 <= out_pos s ->
  out_pos s + Z.of_nat (length str) <= Z.of_nat (length (out s)) ->
  exists s',
    lzw_body rcl s = Ok (Continue s') /\
    out s'
    = take (Z.to_nat (out_pos s)) (out s) ++ (Some <$> str)
        ++ drop (Z.to_nat (out_pos s) + length str) (out s) /\
    out_pos s' = out_pos s + Z.of_nat (length str) /\
    prev_code s' = code /\
    input s' = input s1 /\ mask s' = mask s1 /\
    input_length s' = input_length s1 /\
    dictionary_ok (dictionary s') (dictionary_ind s') /\
    (forall c, 0 <= c < dictionary_ind s ->
       string_of (dictionary s') c = string_of (dictionary s) c) /\
    (prev_code s = -1 ->
     dictionary s' = dictionary s /\ dictionary_ind s' = dictionary_ind s /\
     code_length s' = code_length s) /\
    (prev_code s <> -1 ->
     dictionary_ind s' = dictionary_ind s + 1 /\
     string_of (dictionary s') (dictionary_ind s)
     = string_of (dictionary s) (prev_code s) ++ [hd 0 str] /\
     code_length s'
     = (if (dictionary_ind s + 1 =? 2 ^ (code_length s + 1))
           && (code_length s <? 11)
        then code_length s + 1 else code_length s)).
Proof.
  intros Hrcl Hcl Hread Hclear Hstop Hok Hind Hprev Hep Hcode He Hkw str
    Hpos Hroom.
  destruct (read_code_frame _ _ _ _ _ _ Hread) as (F1 & F2 & F3 & F4 & F5 & F6).
  unfold lzw_body. rewrite Hread. cbn [mbind result_bind].
  rewrite !shiftl_1_pow by lia.
  destruct (Z.eqb_spec code (2 ^ rcl)) as [E | _]; [contradiction | ].
  destruct (Z.eqb_spec code (2 ^ rcl + 1)) as [E | _]; [contradiction | ].
  destruct (Z.eq_dec (prev_code s) (-1)) as [Hnone | Hsome].
  - (* the first code behind a clear code *)
    rewrite F4, Hnone. change (-1 >? -1) with false. cbn [andb].
    cbn [mbind result_bind set_dictionary dictionary out out_pos code_length
         dictionary_ind prev_code mask input input_length].
    assert (Hlt : code < dictionary_ind s).
    { destruct (Z.eq_dec code (dictionary_ind s)) as [E | E]; [ | lia].
      exfalso. apply (Hkw E). exact Hnone. }
    destruct (He Hlt) as [e Hget].
    assert (Hstr : str = string_of (dictionary s) code).
    { unfold str, code_string.
      destruct (Z.eqb_spec code (dictionary_ind s)) as [E | _];
        [lia | reflexivity]. }
    pose proof (string_of_length _ _ Hok (S (Z.to_nat code)) code e
                  ltac:(lia) Hlt Hget) as Hlen.
    rewrite Hstr in Hroom.
    rewrite F2, Hget. cbn [mbind result_bind].
    rewrite F5, F6.
    rewrite (copy_entry_string (dictionary s) (dictionary_ind s) (out_pos s)
               Hok Hpos _ code e) by (try assumption; try lia).
    cbn [mbind result_bind].
    eexists. split; [reflexivity | ].
    cbn [out out_pos prev_code input mask input_length dictionary
         dictionary_ind code_length].
    rewrite ?F1, ?F2, ?F3, Hstr.
    split; [f_equal; f_equal; f_equal; lia | ].
    split; [lia | ].
    split; [reflexivity | ]. split; [reflexivity | ].
    split; [reflexivity | ]. split; [reflexivity | ].
    split; [exact Hok | ].
    split; [intros c Hc; reflexivity | ].
    split; [intros _; repeat split | intros H; contradiction].
  - (* a code with a previous code *)
    assert (Hp0 : 0 <= prev_code s < dictionary_ind s) by lia.
    destruct (Hep Hsome) as [ep Hgetp].
    rewrite F4, F1.
    destruct (Z.gtb_spec (prev_code s) (-1)) as [_ | E]; [ | lia].
    destruct (Z.ltb_spec (code_length s) 12) as [_ | E]; [ | lia].
    cbn [andb].
    destruct (update_dictionary_string code s1 ep)
      as (s2 & Hup & U1 & U2 & U3 & U4 & U5 & U6 & U7 & U8 & U9 & U10 & U11
          & U12 & U13);
      try (rewrite ?F1, ?F2, ?F3, ?F4; assumption || lia).
    rewrite F1, F2, F3, F4 in *.
    rewrite Hup. cbn [mbind result_bind].
    cbn [set_dictionary dictionary out out_pos code_length
         dictionary_ind prev_code mask input input_length].
    set (first := hd 0 (string_of (dictionary s)
                          (if code =? dictionary_ind s
                           then prev_code s else code))) in *.
    assert (Hcase : exists e2,
              dict_get (dictionary s2) code = Ok e2 /\
              string_of (dictionary s2) code = str /\ hd 0 str = first).
    { unfold str, code_string, first.
      destruct (Z.eqb_spec code (dictionary_ind s)) as [-> | Hne].
      - eexists. split; [exact U4 | ]. split; [exact U5 | ].
        apply hd_app_nonempty.
        apply (string_of_nonempty _ _ _ ep Hok Hp0 Hgetp).
      - destruct (He ltac:(lia)) as [e Hget].
        destruct (U3 code ltac:(lia)) as [G S].
        exists e. rewrite G, S. repeat split. exact Hget. }
    destruct Hcase as (e2 & Hget2 & Hstr2 & Hhd).
    pose proof (string_of_length _ _ U2 (S (Z.to_nat code)) code e2
                  ltac:(lia) ltac:(lia) Hget2) as Hlen.
    rewrite Hstr2 in Hlen.
    rewrite Hget2. cbn [mbind result_bind]. rewrite U12, U13, F5, F6.
    rewrite (copy_entry_string (dictionary s2) (dictionary_ind s + 1)
               (out_pos s) U2 Hpos _ code e2)
      by (try assumption; try lia).
    cbn [mbind result_bind].
    eexists. split; [reflexivity | ].
    cbn [out out_pos prev_code input mask input_length dictionary
         dictionary_ind code_length].
    rewrite Hstr2, U1.
    split; [f_equal; f_equal; f_equal; lia | ].
    split; [lia | ].
    split; [reflexivity | ].
    split; [exact U10 | ]. split; [exact U9 | ]. split; [exact U11 | ].
    split; [exact U2 | ].
    split; [intros c Hc; apply U3; exact Hc | ].
    split; [intros H; contradiction | ].
    intros _. split; [reflexivity | ]. split; [ | exact U7].
    rewrite Hhd. exact U5.
Qed.

Lemma lzw_pass_appends_string_witness :
  lzw_passes 2 2 (lzw_init 2 repeated_pixel_stream 2 [None; None; None])
  = Ok (Continue repeated_pixel_state) /\
  exists s',
    lzw_body 2 repeated_pixel_state = Ok (Continue s') /\
    out s' = [Some 1; Some 1; Some 1] /\
    prev_code s' = 6 /\
    string_of (dictionary s') 6 = [1; 1].
Proof.
  split; [vm_compute; reflexivity | ].
  destruct (lzw_pass_appends_string 2 repeated_pixel_state
              (mkLzw 2 (dictionary repeated_pixel_state) 6 1 0x02
                 [0x0B] 1 [Some 1; None; None] 1) 6)
    as (s' & Hrun & Hout & _ & Hprev & _ & _ & _ & _ & _ & _ & Hnew);
    try (vm_compute; reflexivity); try (cbn; lia).
  - intros i e Hi E. left.
    assert (Hcases : i = 0 \/ i = 1 \/ i = 2 \/ i = 3 \/ i = 4 \/ i = 5)
      by (cbn in Hi; lia).
    destruct Hcases as [-> | [-> | [-> | [-> | [-> | ->]]]]];
      vm_compute in E; try discriminate; injection E as <-;
      split; reflexivity.
  - intros _. eexists. reflexivity.
  - vm_compute. discriminate.
  - exists s'. split; [exact Hrun | ]. split; [exact Hout | ].
    split; [exact Hprev | ].
    destruct Hnew as (_ & Hs & _); [discriminate | ]. exact Hs.
Defined.

(** ** GIF decoder: stores into the dictionary *)











(** ** GIF decoder: entries left over from before a clear code *)

(** X24.  The copy loop of [uncompress_gif] ends at an entry without
    predecessor or at one that is its own predecessor, and nowhere else.
    On a set of codes none of which is such an entry, that is closed
    under the step to the predecessor, and whose bytes land inside the
    output buffer, the loop never returns, however many passes it is
    given.  The witness shows the decoder getting there on the stream
    84 4F 37 of code size 2: behind its second clear code the codes 7 and
    6 refer to entries left over from before, and entry 6 is rebuilt on
    top of entry 7, which was built on top of entry 6. *)
Theorem copy_loop_never_leaves_a_cycle (d : dictionary_t) (P : Z -> Prop)
    (n : nat) (base : Z) :
  (forall c, P c ->
     c <> -1 /\
     exists e, dict_get d c = Ok e /\ prev e <> c /\ P (prev e) /\
               0 <= base + (len e - 1) < Z.of_nat n) ->
  forall (fuel : nat) (code : Z) (o : list (option Z)),
    P code -> length o = n ->
    copy_entry fuel d code o base = Undefined endless_loop.
Proof.
  intros Hclosed fuel. induction fuel as [ | fuel IH]; intros code o Hp Hn;
    [reflexivity | ].
  destruct (Hclosed code Hp) as (Hroot & e & Hget & Hself & Hprev & Hout).
  cbn [copy_entry].
  destruct (Z.eqb_spec code (-1)) as [E | _]; [contradiction | ].
  rewrite Hget. cbn [mbind result_bind]. unfold out_set. rewrite Hn.
  destruct (Z.leb_spec 0 (base + (len e - 1))) as [_ | E]; [ | lia].
  destruct (Z.ltb_spec (base + (len e - 1)) (Z.of_nat n)) as [_ | E]; [ | lia].
  cbn [andb mbind result_bind].
  destruct (Z.eqb_spec (prev e) code) as [E | _]; [contradiction | ].
  apply IH; [exact Hprev | ]. rewrite length_insert. exact Hn.
Qed.

Lemma copy_loop_never_leaves_a_cycle_witness :
  exists s6 s7 s8,
    lzw_passes 6 2 (lzw_init 2 stale_code_stream 3 (replicate 13 None))
    = Ok (Continue s6) /\
    read_code 3 0 0 s6 = Ok (6, s7) /\
    update_dictionary 6 s7 = Ok (Continue s8) /\
    (forall fuel,
       copy_entry fuel (dictionary s8) 6 (out s8) (out_pos s8)
       = Undefined endless_loop) /\
    uncompress_gif 2 stale_code_stream 3 (replicate 13 None)
    = Undefined endless_loop.
Proof.
  assert (C : exists s6 s7 s8,
            lzw_passes 6 2 (lzw_init 2 stale_code_stream 3 (replicate 13 None))
            = Ok (Continue s6) /\
            read_code 3 0 0 s6 = Ok (6, s7) /\
            update_dictionary 6 s7 = Ok (Continue s8) /\
            dict_get (dictionary s8) 6 = Ok (mkEntry 0 7 4) /\
            dict_get (dictionary s8) 7 = Ok (mkEntry 0 6 3) /\
            out_pos s8 = 9 /\ length (out s8) = 13%nat).
  { eexists _, _, _.
    split; [vm_compute; reflexivity | ].
    split; [vm_compute; reflexivity | ].
    split; [vm_compute; reflexivity | ].
    split; [vm_compute; reflexivity | ].
    split; [vm_compute; reflexivity | ].
    split; vm_compute; reflexivity. }
  destruct C as (s6 & s7 & s8 & C6 & C7 & C8 & G6 & G7 & Hpos & Hlen).
  exists s6, s7, s8.
  split; [exact C6 | ]. split; [exact C7 | ]. split; [exact C8 | ].
  split; [ | vm_compute; reflexivity].
  intros fuel.
  apply (copy_loop_never_leaves_a_cycle (dictionary s8)
           (fun c => c = 6 \/ c = 7) 13 (out_pos s8)).
  - intros c [-> | ->].
    + split; [lia | ]. eexists. split; [exact G6 | ].
      cbn [prev len]. rewrite Hpos. repeat split; lia.
    + split; [lia | ]. eexists. split; [exact G7 | ].
      cbn [prev len]. rewrite Hpos. repeat split; lia.
  - left. reflexivity.
  - exact Hlen.
Defined.

(** ** GIF decoder: a file with one image *)








